(** * The chat server's session and message state engine

    A shallow embedding of the socket logic of [server.js] (the login based
    server) and of the handlers of the earlier server variant
    [unnamed/part_001] that differ from it, followed by the properties of
    the message history, the reaction store, the rate limiter, the presence
    registry and the private chat registry. The helpers of the two files
    for the history, the reactions, the rate limiter and the sanitizers
    have the same text and are embedded once.

    Conventions of the embedding.
    - A JavaScript string is the list of its UTF-16 code units ([str]);
      [length], [take] and [drop] are then [.length], [substring(0, n)] and
      [slice].
    - [Date.now()], [new Date()] and [Math.random()] are inputs of the
      function that reads them, one argument per reading.
    - A handler returns the new state together with the events it emits, in
      emission order; every emit carries its fan-out ([Dest]).
    - A JavaScript [Map] whose iteration order is observed
      ([connectedUsers]) is an association list in insertion order; the
      other maps and the [reactions] object are [gmap]s, their iteration
      order is not modelled. *)

From Stdlib Require Import ZArith List Ascii String Lia.
From stdpp Require Import base tactics option list gmap fin_maps fin_sets.

Local Open Scope Z_scope.

(** ** Strings *)

Abbreviation str := (list N).

(** [lit] turns a literal of ASCII text into its code units. *)
Definition lit (s : string) : str :=
  List.map N_of_ascii (list_ascii_of_string s).

(** Decimal rendering of a non-negative integer, as [String(n)] and template
    literals do. *)
Fixpoint digits_of_uint (d : Decimal.uint) : str :=
  match d with
  | Decimal.Nil => []
  | Decimal.D0 d' => 48%N :: digits_of_uint d'
  | Decimal.D1 d' => 49%N :: digits_of_uint d'
  | Decimal.D2 d' => 50%N :: digits_of_uint d'
  | Decimal.D3 d' => 51%N :: digits_of_uint d'
  | Decimal.D4 d' => 52%N :: digits_of_uint d'
  | Decimal.D5 d' => 53%N :: digits_of_uint d'
  | Decimal.D6 d' => 54%N :: digits_of_uint d'
  | Decimal.D7 d' => 55%N :: digits_of_uint d'
  | Decimal.D8 d' => 56%N :: digits_of_uint d'
  | Decimal.D9 d' => 57%N :: digits_of_uint d'
  end.

Definition decimal (n : N) : str := digits_of_uint (N.to_uint n).

(** The code units [String.prototype.trim] strips: WhiteSpace and
    LineTerminator of ECMAScript. *)
Definition isWhiteSpace (c : N) : bool :=
  bool_decide (c ∈ [9; 10; 11; 12; 13; 32; 160; 5760; 8232; 8233; 8239; 8287;
                    12288; 65279]%N)
  || ((8192 <=? c)%N && (c <=? 8202)%N).

Fixpoint dropWhile {A} (p : A → bool) (l : list A) : list A :=
  match l with
  | [] => []
  | x :: l' => if p x then dropWhile p l' else l
  end.

Definition trim (s : str) : str :=
  rev (dropWhile isWhiteSpace (rev (dropWhile isWhiteSpace s))).

(** Truthiness of a string value: [!s] holds exactly of the empty string. *)
Definition truthy (s : str) : bool :=
  match s with [] => false | _ => true end.

(** ** Constants (server.js 65-72) *)

Definition MAX_MESSAGES : nat := 200.
Definition MESSAGE_TTL_MS : Z := 24 * 60 * 60 * 1000.
Definition MESSAGE_RATE_LIMIT : Z := 10.
Definition RATE_LIMIT_WINDOW : Z := 60000.

(** ** Data model *)

Abbreviation SocketId := (list N).

(** An entry of [messageLimits]. *)
Record Limit := mkLimit { count : Z; resetTime : Z }.

(** A value of [connectedUsers]; [joinTime] is never read and is left out.
    [None] for [u_avatar] is an absent property. *)
Record UserData := mkUser {
  u_username : str;
  u_avatar : option str;
  u_socketId : SocketId
}.

(** A value of [registeredUsers] ([created] is never read). *)
Record RegUser := mkRegUser {
  passwordHash : str;
  r_avatar : option str
}.

(** The [reactions] object of a message: reaction symbol to the array of
    the usernames holding it. *)
Abbreviation Reactions := (gmap str (list str)).

(** A broadcast message as stored in [recentMessages]. [m_timestamp] is the
    millisecond value whose ISO rendering the code stores: it is written by
    [new Date().toISOString()] and read back by
    [new Date(msg.timestamp).getTime()], which returns the same finite
    number, so the [isFinite(ts)] guards of the source always pass.
    [m_replyTo] and [m_avatar] are [None] where the property is absent or
    null. *)
Record Message := mkMessage {
  m_id : str;
  m_username : str;
  m_message : str;
  m_replyTo : option str;
  m_timestamp : Z;
  m_reactions : Reactions;
  m_avatar : option str
}.

(** A private message ([isPrivate] is the constant [true]). *)
Record PrivateMsg := mkPrivateMsg {
  pm_id : str;
  pm_username : str;
  pm_message : str;
  pm_timestamp : Z;
  pm_chatId : str
}.

(** A value of [privateChats] ([created] is never read). *)
Record PrivateChat := mkChat {
  pc_id : str;
  pc_participants : gset str;
  pc_messages : list PrivateMsg
}.

(** ** Rate limiter (server.js 75-85, part_001 53-72) *)

Definition checkRateLimit (now : Z) (socketId : SocketId)
    (messageLimits : gmap SocketId Limit) : bool * gmap SocketId Limit :=
  match messageLimits !! socketId with
  | None =>
      (true, <[socketId := mkLimit 1 (now + RATE_LIMIT_WINDOW)]> messageLimits)
  | Some userLimit =>
      if now >? resetTime userLimit then
        (true, <[socketId := mkLimit 1 (now + RATE_LIMIT_WINDOW)]> messageLimits)
      else if count userLimit >=? MESSAGE_RATE_LIMIT then
        (false, messageLimits)
      else
        (true, <[socketId := mkLimit (count userLimit + 1) (resetTime userLimit)]>
                 messageLimits)
  end.

(** Successive calls of one connection at the given clock readings: the
    answers in call order and the final table. *)
Fixpoint checkRateLimit_calls (times : list Z) (socketId : SocketId)
    (messageLimits : gmap SocketId Limit) : list bool * gmap SocketId Limit :=
  match times with
  | [] => ([], messageLimits)
  | now :: times' =>
      let '(ok, limits1) := checkRateLimit now socketId messageLimits in
      let '(oks, limits2) := checkRateLimit_calls times' socketId limits1 in
      (ok :: oks, limits2)
  end.

(** ** Sanitizers (server.js 87-96) *)

(** The argument is [None] when the value is absent or not a string. *)
Definition sanitizeMessage (message : option str) : str :=
  match message with
  | None => []
  | Some s => if truthy s then take 500 (trim s) else []
  end.

Definition isStripped (c : N) : bool :=
  bool_decide (c ∈ [60; 62; 34; 39; 38]%N).

Definition sanitizeUsername (username : option str) : option str :=
  match username with
  | None => None
  | Some s =>
      if truthy s then
        let cleaned := take 20 (List.filter (λ c, negb (isStripped c)) (trim s)) in
        if truthy cleaned then Some cleaned else None
      else None
  end.


(** ** Outbound events *)

(** Fan-out of an emit: [socket.emit] or [someSocket.emit], [io.emit],
    [socket.broadcast.emit]. *)
Inductive Dest :=
  | ToSocket (s : SocketId)
  | ToAll
  | ToOthers (s : SocketId).

(** The events the server emits, with the payload fields that carry state.
    The [timestamp] fields that only stamp a notice with the time of
    emission are left out. *)
Inductive Out :=
  | LoginError (message : str)
  | LoginSuccess (username : str) (avatar : option str)
  | RegisterError (message : str)
  | RegisterSuccess (message : str)
  | UsernameAssigned (username : str)
  | UserJoined (username : str) (avatar : option str)
  | UserLeft (username : str)
  | UserCount (n : nat)
  | OnlineUsers (users : list (str * str))
  | OnlineUserNames (users : list str)
  | RecentMessages (messages : list Message)
  | ErrorEvent (message : str)
  | ChatMessage (messageData : Message)
  | MessageReaction (messageId reaction username action : str)
  | MessageDeleted (ids : list str)
  | Typing (username : str)
  | StopTyping (username : str)
  | UsernameChanged (oldName newName : str)
  | PrivateChatInvite (fromUsername : str)
  | PrivateChatInviteSent (toUsername : str)
  | PrivateChatAccepted (byUsername chatId : str)
  | PrivateChatHistory (chatId : str) (messages : list PrivateMsg)
  | PrivateMessage (msgData : PrivateMsg).

Definition Emit : Type := Dest * Out.

(** ** Server state (server.js 34, 63-70)

    [sockets] is [io.sockets.sockets], the transport's table of live
    connections. [userPrivateChats] is declared and never used in
    server.js. *)
Record State := mkState {
  registeredUsers : gmap str RegUser;
  connectedUsers : list (SocketId * UserData);
  recentMessages : list Message;
  typingUsers : gmap str SocketId;
  privateChats : gmap str PrivateChat;
  messageLimits : gmap SocketId Limit;
  sockets : gset SocketId
}.

Definition set_registeredUsers (v : gmap str RegUser) (st : State) : State :=
  mkState v (connectedUsers st) (recentMessages st) (typingUsers st)
    (privateChats st) (messageLimits st) (sockets st).
Definition set_connectedUsers (v : list (SocketId * UserData)) (st : State) : State :=
  mkState (registeredUsers st) v (recentMessages st) (typingUsers st)
    (privateChats st) (messageLimits st) (sockets st).
Definition set_recentMessages (v : list Message) (st : State) : State :=
  mkState (registeredUsers st) (connectedUsers st) v (typingUsers st)
    (privateChats st) (messageLimits st) (sockets st).
Definition set_typingUsers (v : gmap str SocketId) (st : State) : State :=
  mkState (registeredUsers st) (connectedUsers st) (recentMessages st) v
    (privateChats st) (messageLimits st) (sockets st).
Definition set_privateChats (v : gmap str PrivateChat) (st : State) : State :=
  mkState (registeredUsers st) (connectedUsers st) (recentMessages st)
    (typingUsers st) v (messageLimits st) (sockets st).
Definition set_messageLimits (v : gmap SocketId Limit) (st : State) : State :=
  mkState (registeredUsers st) (connectedUsers st) (recentMessages st)
    (typingUsers st) (privateChats st) v (sockets st).
Definition set_sockets (v : gset SocketId) (st : State) : State :=
  mkState (registeredUsers st) (connectedUsers st) (recentMessages st)
    (typingUsers st) (privateChats st) (messageLimits st) v.

(** ** The [Map] operations used on [connectedUsers] *)

Module JsMap.
Section Ops.
Context {V : Type}.

Fixpoint get (k : str) (m : list (str * V)) : option V :=
  match m with
  | [] => None
  | (k', v) :: m' => if bool_decide (k' = k) then Some v else get k m'
  end.

(** [set] keeps the position of a key that is present and appends a new
    one. *)
Fixpoint set (k : str) (v : V) (m : list (str * V)) : list (str * V) :=
  match m with
  | [] => [(k, v)]
  | (k', v') :: m' =>
      if bool_decide (k' = k) then (k, v) :: m' else (k', v') :: set k v m'
  end.

Fixpoint delete (k : str) (m : list (str * V)) : list (str * V) :=
  match m with
  | [] => []
  | (k', v') :: m' =>
      if bool_decide (k' = k) then m' else (k', v') :: delete k m'
  end.

Definition values (m : list (str * V)) : list V := List.map snd m.
Definition has (k : str) (m : list (str * V)) : bool :=
  match get k m with Some _ => true | None => false end.
End Ops.
End JsMap.

(** [Array.from(connectedUsers.values()).find(u => u.username === name)] *)
Definition findUserByName (name : str) (users : list (SocketId * UserData))
    : option UserData :=
  List.find (λ u, bool_decide (u_username u = name)) (JsMap.values users).

(** ** Message history (server.js 102-130) *)

(** [now - ts > MESSAGE_TTL_MS] *)
Definition expired (now : Z) (msg : Message) : bool :=
  now - m_timestamp msg >? MESSAGE_TTL_MS.

(** [now - ts <= MESSAGE_TTL_MS], the test of the snapshot filter. *)
Definition within24h (now : Z) (msg : Message) : bool :=
  now - m_timestamp msg <=? MESSAGE_TTL_MS.

(** [findIndex] by id followed by [splice(idx, 1)]. *)
Definition spliceById (h : list Message) (id : str) : list Message :=
  match list_find (λ m, m_id m = id) h with
  | Some (idx, _) => delete idx h
  | None => h
  end.

Definition pruneExpiredMessages (now : Z) (st : State) : State * list Emit :=
  let toDelete := List.map m_id (List.filter (expired now) (recentMessages st)) in
  match toDelete with
  | [] => (st, [])
  | _ =>
      (set_recentMessages (fold_left spliceById toDelete (recentMessages st)) st,
       [(ToAll, MessageDeleted toDelete)])
  end.

(** [messageData.reactions] is always present in a [Message], so the first
    guard of the source never fires; [fallbackId] is the value
    [String(Date.now() + Math.random())] would give the second guard. The
    function returns the (possibly completed) [messageData] as well: it is
    the object the caller goes on to broadcast. *)
Definition addMessageToHistory (now : Z) (fallbackId : str)
    (messageData : Message) (st : State) : Message * State * list Emit :=
  let messageData :=
    if truthy (m_id messageData) then messageData
    else mkMessage fallbackId (m_username messageData) (m_message messageData)
           (m_replyTo messageData) (m_timestamp messageData)
           (m_reactions messageData) (m_avatar messageData) in
  let st1 := set_recentMessages (recentMessages st ++ [messageData]) st in
  let '(st2, evs) := pruneExpiredMessages now st1 in
  let st3 :=
    if (MAX_MESSAGES <? length (recentMessages st2))%nat then
      set_recentMessages
        (drop (length (recentMessages st2) - MAX_MESSAGES)%nat (recentMessages st2))
        st2
    else st2 in
  (messageData, st3, evs).

(** ** Reaction store (server.js 132-157, part_001 133-178) *)

(** What a call does: return a boolean or throw (the handler catches). *)
Inductive Outcome :=
  | Returned (b : bool)
  | Threw.

(** Names a plain object inherits from [Object.prototype]. Reading
    [message.reactions[reaction]] for such a name, when the object has no
    own property of that name, yields the inherited member: a value that
    is truthy and has neither [includes] nor [indexOf], so calling either
    raises a TypeError. *)
Definition inheritedKey (reaction : str) : bool :=
  bool_decide (reaction ∈
    [lit "constructor"; lit "__proto__"; lit "hasOwnProperty";
     lit "isPrototypeOf"; lit "propertyIsEnumerable"; lit "toLocaleString";
     lit "toString"; lit "valueOf"; lit "__defineGetter__";
     lit "__defineSetter__"; lit "__lookupGetter__"; lit "__lookupSetter__"]).

(** [users.indexOf(username)] *)
Definition indexOf (username : str) (users : list str) : option nat :=
  fst <$> list_find (λ u, u = username) users.

(** One turn of the loop of the [add] branch on the entry [users]: splice
    the first occurrence of [username] out; [None] when the entry is then
    deleted. *)
Definition withoutUser (username : str) (users : list str) : option (list str) :=
  match indexOf username users with
  | Some userIndex =>
      match delete userIndex users with
      | [] => None
      | users' => Some users'
      end
  | None => Some users
  end.

Definition addReaction (reaction username : str) (reactions : Reactions)
    : Outcome * Reactions :=
  let reactions1 := omap (withoutUser username) reactions in
  match reactions1 !! reaction with
  | None =>
      if inheritedKey reaction then (Threw, reactions1)
      else (Returned true, <[reaction := [username]]> reactions1)
  | Some users =>
      if bool_decide (username ∈ users) then (Returned true, reactions1)
      else (Returned true, <[reaction := users ++ [username]]> reactions1)
  end.

Definition removeReaction (reaction username : str) (reactions : Reactions)
    : Outcome * Reactions :=
  match reactions !! reaction with
  | None =>
      if inheritedKey reaction then (Threw, reactions)
      else (Returned true, reactions)
  | Some users =>
      match indexOf username users with
      | Some idx =>
          match delete idx users with
          | [] => (Returned true, delete reaction reactions)
          | users' => (Returned true, <[reaction := users']> reactions)
          end
      | None => (Returned true, reactions)
      end
  end.

Definition applyAction (action reaction username : str) (reactions : Reactions)
    : Outcome * Reactions :=
  if bool_decide (action = lit "add") then addReaction reaction username reactions
  else if bool_decide (action = lit "remove") then
    removeReaction reaction username reactions
  else (Returned true, reactions).

Definition set_reactions (r : Reactions) (m : Message) : Message :=
  mkMessage (m_id m) (m_username m) (m_message m) (m_replyTo m)
    (m_timestamp m) r (m_avatar m).

(** The message found is mutated in place, at its index in the history. *)
Definition updateMessageReactions (messageId reaction username action : str)
    (h : list Message) : Outcome * list Message :=
  match list_find (λ msg, m_id msg = messageId) h with
  | None => (Returned false, h)
  | Some (i, message) =>
      let '(res, reactions') :=
        applyAction action reaction username (m_reactions message) in
      (res, <[i := set_reactions reactions' message]> h)
  end.

(** ** Presence and rate-limit helpers (server.js 159-177) *)

(** The default avatar literal, as the source file spells it. *)
Definition defaultAvatar : str := [240; 376; 732; 352]%N.

(** [value || fallback] on a string that may be absent: an absent value
    and the empty string are both replaced. *)
Definition orElse (value : option str) (fallback : str) : str :=
  match value with
  | Some v => if truthy v then v else fallback
  | None => fallback
  end.

(** [value || null] *)
Definition orNull (value : option str) : option str :=
  match value with
  | Some v => if truthy v then Some v else None
  | None => None
  end.

Definition broadcastUserCount (st : State) : list Emit :=
  [ (ToAll, UserCount (length (connectedUsers st)));
    (ToAll, OnlineUsers
       (List.map (λ u, (u_username u, orElse (u_avatar u) defaultAvatar))
          (JsMap.values (connectedUsers st)))) ].

Definition cleanupRateLimits (now : Z) (st : State) : State :=
  let limits1 :=
    filter (λ kv : SocketId * Limit, ¬ (now > resetTime kv.2)) (messageLimits st) in
  let limits2 :=
    filter (λ kv : SocketId * Limit, JsMap.has kv.1 (connectedUsers st) = true)
      limits1 in
  set_messageLimits limits2 st.

(** ** Private chat helpers (server.js 180-203) *)

(** Order of the default [sort]: code unit by code unit. *)
Fixpoint str_ltb (a b : str) : bool :=
  match a, b with
  | _, [] => false
  | [], _ :: _ => true
  | x :: a', y :: b' => (x <? y)%N || ((x =? y)%N && str_ltb a' b')
  end.

Definition getOrCreatePrivateChat (user1 user2 : str)
    (chats : gmap str PrivateChat) : str * gmap str PrivateChat :=
  let participants :=
    if str_ltb user2 user1 then (user2, user1) else (user1, user2) in
  let chatId := lit "pc_" ++ participants.1 ++ lit "_" ++ participants.2 in
  match chats !! chatId with
  | Some _ => (chatId, chats)
  | None =>
      (chatId,
       <[chatId := mkChat chatId {[participants.1; participants.2]} []]> chats)
  end.

Definition addPrivateMessageToHistory (chatId : str) (messageData : PrivateMsg)
    (chats : gmap str PrivateChat) : gmap str PrivateChat :=
  match chats !! chatId with
  | None => chats
  | Some chat =>
      let messages := pc_messages chat ++ [messageData] in
      let messages' :=
        if (100 <? length messages)%nat then drop 1 messages else messages in
      <[chatId := mkChat (pc_id chat) (pc_participants chat) messages']> chats
  end.

(** ** Socket handlers of server.js (206-473)

    Each handler takes the id of the socket it is registered on, the fields
    of the payload and the clock readings it makes. Payload fields are taken
    at the string type the handlers expect; an absent field is the empty
    string where the code only tests it for truthiness, and [None] where
    the code tests its type. *)

(** Lines 250-256 of server.js, the same text as part_001 214-221: prune,
    read the clock again, filter, and send the snapshot to [socket]. *)
Definition sendRecentMessages (socket : SocketId) (pruneNow now : Z)
    (st : State) : State * list Emit :=
  let '(st1, evs) := pruneExpiredMessages pruneNow st in
  let recent24h := List.filter (within24h now) (recentMessages st1) in
  (st1, evs ++ [(ToSocket socket, RecentMessages recent24h)]).

(** [/^[a-zA-Z0-9_]+$/.test(username)] *)
Definition isWordChar (c : N) : bool :=
  ((97 <=? c) && (c <=? 122) || (65 <=? c) && (c <=? 90)
   || (48 <=? c) && (c <=? 57) || (c =? 95))%N.

Definition usernameRegex (username : str) : bool :=
  truthy username && forallb isWordChar username.

Section Server.

(** [hashPassword] is SHA-256 in hexadecimal, computed by the [crypto]
    module of the platform. *)
Variable hashPassword : str → str.

Definition on_login (socket : SocketId) (username password : str)
    (pruneNow now : Z) (st : State) : State * list Emit :=
  if negb (truthy username) || negb (truthy password) then
    (st, [(ToSocket socket, LoginError (lit "Username and password required"))])
  else
    match registeredUsers st !! username with
    | None =>
        (st, [(ToSocket socket, LoginError (lit "Invalid username or password"))])
    | Some user =>
        if negb (bool_decide (passwordHash user = hashPassword password)) then
          (st, [(ToSocket socket,
                 LoginError (lit "Invalid username or password"))])
        else
          let already :=
            match findUserByName username (connectedUsers st) with
            | Some _ =>
                [(ToSocket socket, LoginError (lit "User already logged in"))]
            | None => []
            end in
          let st1 :=
            set_connectedUsers
              (JsMap.set socket (mkUser username (r_avatar user) socket)
                 (connectedUsers st)) st in
          let joined :=
            [ (ToSocket socket, LoginSuccess username (r_avatar user));
              (ToAll, UserJoined username (r_avatar user)) ]
            ++ broadcastUserCount st1 in
          let '(st2, recent) := sendRecentMessages socket pruneNow now st1 in
          (st2, already ++ joined ++ recent)
    end.

Definition on_register (socket : SocketId) (username password avatar : str)
    (st : State) : State * list Emit :=
  if negb (truthy username) || negb (truthy password) then
    (st, [(ToSocket socket, RegisterError (lit "Missing fields"))])
  else if negb (usernameRegex username) then
    (st, [(ToSocket socket, RegisterError
            (lit "Username can only contain letters, numbers, and underscores"))])
  else
    match sanitizeUsername (Some username) with
    | None =>
        (st, [(ToSocket socket,
               RegisterError (lit "Invalid username (3-20 chars)"))])
    | Some sanitizedUsername =>
        if (length sanitizedUsername <? 3)%nat then
          (st, [(ToSocket socket,
                 RegisterError (lit "Invalid username (3-20 chars)"))])
        else
          match registeredUsers st !! sanitizedUsername with
          | Some _ =>
              (st, [(ToSocket socket,
                     RegisterError (lit "Username already taken"))])
          | None =>
              let newUser :=
                mkRegUser (hashPassword password)
                  (Some (if truthy avatar then avatar else defaultAvatar)) in
              (set_registeredUsers
                 (<[sanitizedUsername := newUser]> (registeredUsers st)) st,
               [(ToSocket socket,
                 RegisterSuccess (lit "Account created! Please log in."))])
          end
    end.

End Server.

(** The [chat message] handler. Clock readings, in order: [rateNow] by
    [checkRateLimit], [newId] is [String(Date.now() + Math.random())],
    [stamp] by [new Date()], [pruneNow] by [pruneExpiredMessages]. *)
Definition on_chat_message (socket : SocketId) (message replyTo : option str)
    (rateNow : Z) (newId : str) (stamp : Z) (fallbackId : str) (pruneNow : Z)
    (st : State) : State * list Emit :=
  let '(ok, limits) := checkRateLimit rateNow socket (messageLimits st) in
  let st1 := set_messageLimits limits st in
  if negb ok then
    (st1, [(ToSocket socket, ErrorEvent (lit "Rate limit exceeded"))])
  else
    let userData := JsMap.get socket (connectedUsers st1) in
    let username :=
      match userData with Some u => u_username u | None => lit "Unknown" end in
    let messageText := sanitizeMessage message in
    if negb (truthy messageText) then (st1, [])
    else
      let messageData :=
        mkMessage newId username messageText (orNull replyTo) stamp ∅
          (match userData with
           | Some u => u_avatar u
           | None => Some defaultAvatar
           end) in
      let '(messageData, st2, evs) :=
        addMessageToHistory pruneNow fallbackId messageData st1 in
      (st2, evs ++ [(ToAll, ChatMessage messageData)]).

(** The [message reaction] handler; a throw of [updateMessageReactions] is
    caught and logged, nothing is emitted. *)
Definition on_message_reaction (messageId reaction username action : str)
    (st : State) : State * list Emit :=
  if negb (truthy messageId) || negb (truthy reaction)
     || negb (truthy username) || negb (truthy action) then (st, [])
  else
    match updateMessageReactions messageId reaction username action
            (recentMessages st) with
    | (Returned true, h) =>
        (set_recentMessages h st,
         [(ToAll, MessageReaction messageId reaction username action)])
    | (Returned false, h) => (set_recentMessages h st, [])
    | (Threw, h) => (set_recentMessages h st, [])
    end.

Definition on_typing (socket : SocketId) (st : State) : State * list Emit :=
  match JsMap.get socket (connectedUsers st) with
  | Some u =>
      if truthy (u_username u) then
        (set_typingUsers (<[u_username u := socket]> (typingUsers st)) st,
         [(ToOthers socket, Typing (u_username u))])
      else (st, [])
  | None => (st, [])
  end.

Definition on_stop_typing (socket : SocketId) (st : State) : State * list Emit :=
  match JsMap.get socket (connectedUsers st) with
  | Some u =>
      if truthy (u_username u) then
        (set_typingUsers (delete (u_username u) (typingUsers st)) st,
         [(ToOthers socket, StopTyping (u_username u))])
      else (st, [])
  | None => (st, [])
  end.

Definition on_invite (socket : SocketId) (targetUsername : str) (st : State)
    : State * list Emit :=
  match JsMap.get socket (connectedUsers st) with
  | None => (st, [(ToSocket socket, ErrorEvent (lit "User not found. Please refresh."))])
  | Some userData =>
      if negb (truthy targetUsername)
         || bool_decide (targetUsername = u_username userData) then (st, [])
      else
        match findUserByName targetUsername (connectedUsers st) with
        | None => (st, [(ToSocket socket, ErrorEvent (lit "User is not online"))])
        | Some targetUser =>
            if bool_decide (u_socketId targetUser ∈ sockets st) then
              (st, [ (ToSocket (u_socketId targetUser),
                      PrivateChatInvite (u_username userData));
                     (ToSocket socket, PrivateChatInviteSent targetUsername) ])
            else (st, [])
        end
  end.

Definition on_accept (socket : SocketId) (fromUsername : str) (st : State)
    : State * list Emit :=
  match JsMap.get socket (connectedUsers st) with
  | None => (st, [])
  | Some userData =>
      let '(chatId, chats) :=
        getOrCreatePrivateChat (u_username userData) fromUsername (privateChats st) in
      let st1 := set_privateChats chats st in
      let senderSocket :=
        match findUserByName fromUsername (connectedUsers st1) with
        | Some senderUser =>
            if bool_decide (u_socketId senderUser ∈ sockets st1)
            then Some (u_socketId senderUser) else None
        | None => None
        end in
      let accepted :=
        match senderSocket with
        | Some s => [(ToSocket s, PrivateChatAccepted (u_username userData) chatId)]
        | None => []
        end in
      let history :=
        match privateChats st1 !! chatId with
        | Some chat =>
            (ToSocket socket, PrivateChatHistory chatId (pc_messages chat))
            :: match senderSocket with
               | Some s => [(ToSocket s, PrivateChatHistory chatId (pc_messages chat))]
               | None => []
               end
        | None => []
        end in
      (st1, accepted ++ history)
  end.

(** The [private message] handler; [idNow] is read for [String(Date.now())]
    and [stamp] by [new Date()]. *)
Definition on_private_message (socket : SocketId) (chatId : str)
    (message : option str) (toUsername : str) (idNow : N) (stamp : Z)
    (st : State) : State * list Emit :=
  match JsMap.get socket (connectedUsers st) with
  | None => (st, [])
  | Some userData =>
      let msgData :=
        mkPrivateMsg (decimal idNow) (u_username userData)
          (sanitizeMessage message) stamp chatId in
      let st1 :=
        set_privateChats
          (addPrivateMessageToHistory chatId msgData (privateChats st)) st in
      let toTarget :=
        match findUserByName toUsername (connectedUsers st1) with
        | Some targetUser =>
            if bool_decide (u_socketId targetUser ∈ sockets st1)
            then [(ToSocket (u_socketId targetUser), PrivateMessage msgData)]
            else []
        | None => []
        end in
      (st1, toTarget ++ [(ToSocket socket, PrivateMessage msgData)])
  end.

Definition on_disconnect (socket : SocketId) (st : State) : State * list Emit :=
  match JsMap.get socket (connectedUsers st) with
  | Some user =>
      let st1 :=
        set_typingUsers (delete (u_username user) (typingUsers st))
          (set_connectedUsers (JsMap.delete socket (connectedUsers st)) st) in
      (st1, (ToAll, UserLeft (u_username user)) :: broadcastUserCount st1)
  | None => (st, [])
  end.

(** ** The server as a transition system *)

(** What can happen to the server: transport events, inbound socket events
    with the readings their handlers make, and the two interval timers. *)
Inductive Event :=
  | Connect (socket : SocketId)
  | Disconnect (socket : SocketId)
  | Login (socket : SocketId) (username password : str) (pruneNow now : Z)
  | Register (socket : SocketId) (username password avatar : str)
  | ChatMessageIn (socket : SocketId) (message replyTo : option str)
      (rateNow : Z) (newId : str) (stamp : Z) (fallbackId : str) (pruneNow : Z)
  | ReactionIn (socket : SocketId) (messageId reaction username action : str)
  | TypingIn (socket : SocketId)
  | StopTypingIn (socket : SocketId)
  | InviteIn (socket : SocketId) (targetUsername : str)
  | AcceptIn (socket : SocketId) (fromUsername : str)
  | PrivateMessageIn (socket : SocketId) (chatId : str) (message : option str)
      (toUsername : str) (idNow : N) (stamp : Z)
  | CleanupTick (now : Z)
  | PruneTick (now : Z).

(** The state after [loadUsers()]: the registered users read from the users
    file, everything else empty. *)
Definition init (users : gmap str RegUser) : State :=
  mkState users [] [] ∅ ∅ ∅ ∅.

Section Run.

Variable hashPassword : str → str.

(** A socket's events are handled while the socket is live. The transport
    takes a closing socket out of [io.sockets.sockets] before it fires
    [disconnect]. *)
Definition live (socket : SocketId) (st : State)
    (k : State * list Emit) : State * list Emit :=
  if bool_decide (socket ∈ sockets st) then k else (st, []).

Definition step (e : Event) (st : State) : State * list Emit :=
  match e with
  | Connect socket => (set_sockets ({[socket]} ∪ sockets st) st, [])
  | Disconnect socket =>
      live socket st
        (on_disconnect socket (set_sockets (sockets st ∖ {[socket]}) st))
  | Login socket username password pruneNow now =>
      live socket st
        (on_login hashPassword socket username password pruneNow now st)
  | Register socket username password avatar =>
      live socket st (on_register hashPassword socket username password avatar st)
  | ChatMessageIn socket message replyTo rateNow newId stamp fallbackId pruneNow =>
      live socket st
        (on_chat_message socket message replyTo rateNow newId stamp fallbackId
           pruneNow st)
  | ReactionIn socket messageId reaction username action =>
      live socket st (on_message_reaction messageId reaction username action st)
  | TypingIn socket => live socket st (on_typing socket st)
  | StopTypingIn socket => live socket st (on_stop_typing socket st)
  | InviteIn socket targetUsername =>
      live socket st (on_invite socket targetUsername st)
  | AcceptIn socket fromUsername => live socket st (on_accept socket fromUsername st)
  | PrivateMessageIn socket chatId message toUsername idNow stamp =>
      live socket st
        (on_private_message socket chatId message toUsername idNow stamp st)
  | CleanupTick now => (cleanupRateLimits now st, [])
  | PruneTick now => pruneExpiredMessages now st
  end.

(** Events are handled one at a time, to completion. *)
Fixpoint run (es : list Event) (st : State) : State * list Emit :=
  match es with
  | [] => (st, [])
  | e :: es' =>
      let '(st1, out1) := step e st in
      let '(st2, out2) := run es' st1 in
      (st2, out1 ++ out2)
  end.

Definition reachable (users : gmap str RegUser) (st : State) : Prop :=
  ∃ es, (run es (init users)).1 = st.

End Run.

(** ** The handlers of the earlier variant (part_001) that differ

    part_001 has no accounts: a connection receives the snapshot as soon as
    it connects (211-221), and takes a name with [user joined] (223-258) or
    changes it with [username changed] (331-345). Its helpers for the
    history, the reactions and the rate limiter have the same text as
    those of server.js. *)
Module Legacy.

(** part_001 180-193 *)
Definition broadcastUserCount (st : State) : list Emit :=
  [ (ToAll, UserCount (length (connectedUsers st)));
    (ToAll, OnlineUserNames
       (List.map u_username (JsMap.values (connectedUsers st)))) ].

Definition on_connection (socket : SocketId) (pruneNow now : Z) (st : State)
    : State * list Emit :=
  sendRecentMessages socket pruneNow now
    (set_sockets ({[socket]} ∪ sockets st) st).

(** [rndUser] is [Math.floor(Math.random() * 10000)] and [rndSuffix] is
    [Math.floor(Math.random() * 1000)]. *)
Definition on_user_joined (socket : SocketId) (requested : option str)
    (rndUser rndSuffix : N) (st : State) : State * list Emit :=
  let username :=
    match sanitizeUsername requested with
    | Some name => name
    | None => lit "User" ++ decimal rndUser
    end in
  let existingUser :=
    List.find
      (λ u, bool_decide (u_username u = username)
            && negb (bool_decide (u_socketId u = socket)))
      (JsMap.values (connectedUsers st)) in
  let username :=
    match existingUser with
    | Some _ => username ++ lit "_" ++ decimal rndSuffix
    | None => username
    end in
  let st1 :=
    set_connectedUsers
      (JsMap.set socket (mkUser username None socket) (connectedUsers st)) st in
  (st1,
   [ (ToSocket socket, UsernameAssigned username);
     (ToAll, UserJoined username None) ] ++ broadcastUserCount st1).

Definition on_username_changed (socket : SocketId) (newUsername : option str)
    (st : State) : State * list Emit :=
  match sanitizeUsername newUsername with
  | None => (st, [])
  | Some newName =>
      match JsMap.get socket (connectedUsers st) with
      | None => (st, [])
      | Some user =>
          let st1 :=
            set_connectedUsers
              (JsMap.set socket
                 (mkUser newName (u_avatar user) (u_socketId user))
                 (connectedUsers st)) st in
          (st1,
           (ToAll, UsernameChanged (u_username user) newName)
           :: broadcastUserCount st1)
      end
  end.

(** part_001 533-546 *)
Definition handleUserDisconnect (socket : SocketId) (st : State)
    : State * list Emit :=
  match JsMap.get socket (connectedUsers st) with
  | Some user =>
      let st1 :=
        set_typingUsers (delete (u_username user) (typingUsers st))
          (set_connectedUsers (JsMap.delete socket (connectedUsers st)) st) in
      (st1, (ToAll, UserLeft (u_username user)) :: broadcastUserCount st1)
  | None => (st, [])
  end.

(** part_001 393-450. The file calls [getOrCreatePrivateChat] and does not
    define it (nor [addPrivateMessageToHistory], called at 495): reaching
    the call raises a ReferenceError, which the [catch] of the handler
    logs. So an accept that passes the three guards stops there: no chat
    is created and nothing is emitted. *)
Definition on_accept (socket : SocketId) (fromUsername : str) (st : State)
    : State * list Emit :=
  match JsMap.get socket (connectedUsers st) with
  | None =>
      (st, [(ToSocket socket, ErrorEvent (lit "User not found. Please refresh."))])
  | Some userData =>
      if negb (truthy fromUsername) then
        (st, [(ToSocket socket, ErrorEvent (lit "Invalid sender"))])
      else
        match findUserByName fromUsername (connectedUsers st) with
        | None =>
            (st, [(ToSocket socket, ErrorEvent (lit "User is no longer online"))])
        | Some senderUser => (st, [])
        end
  end.

(** The [message] field of a [private message] payload: a string, or a
    value of another type, of which the guards only read whether it is
    truthy. *)
Inductive Body :=
  | Text (s : str)
  | NotText (isTruthy : bool).

(** [!messageText] reads [bodyTruthy]; [sanitizeMessage] is given
    [bodyString]. *)
Definition bodyTruthy (messageText : Body) : bool :=
  match messageText with
  | Text s => truthy s
  | NotText isTruthy => isTruthy
  end.

Definition bodyString (messageText : Body) : option str :=
  match messageText with
  | Text s => Some s
  | NotText _ => None
  end.

(** part_001 452-522. A message that passes every guard reaches the call of
    the undefined [addPrivateMessageToHistory]; the [catch] of this
    handler reports the failure to the sender. *)
Definition on_private_message (socket : SocketId) (chatId : str)
    (messageText : Body) (toUsername : str) (rateNow : Z) (st : State)
    : State * list Emit :=
  let '(ok, limits) := checkRateLimit rateNow socket (messageLimits st) in
  let st1 := set_messageLimits limits st in
  if negb ok then
    (st1, [(ToSocket socket,
            ErrorEvent (lit "Rate limit exceeded. Please slow down."))])
  else
    match JsMap.get socket (connectedUsers st1) with
    | None =>
        (st1, [(ToSocket socket,
                ErrorEvent (lit "User not found. Please refresh."))])
    | Some userData =>
        if negb (truthy chatId) || negb (bodyTruthy messageText)
           || negb (truthy toUsername) then
          (st1, [(ToSocket socket,
                  ErrorEvent (lit "Invalid private message data"))])
        else if negb (truthy (sanitizeMessage (bodyString messageText))) then
          (st1, [(ToSocket socket, ErrorEvent (lit "Invalid message"))])
        else
          match privateChats st1 !! chatId with
          | None =>
              (st1, [(ToSocket socket, ErrorEvent (lit "Invalid chat room"))])
          | Some chat =>
              if negb (bool_decide (u_username userData ∈ pc_participants chat))
                 || negb (bool_decide (toUsername ∈ pc_participants chat)) then
                (st1, [(ToSocket socket, ErrorEvent (lit "Invalid chat room"))])
              else
                (st1, [(ToSocket socket,
                        ErrorEvent (lit "Failed to send private message"))])
          end
    end.

Inductive Event :=
  | Connect (socket : SocketId) (pruneNow now : Z)
  | UserJoinedIn (socket : SocketId) (requested : option str)
      (rndUser rndSuffix : N)
  | UsernameChangedIn (socket : SocketId) (newUsername : option str)
  | Disconnect (socket : SocketId).

Definition step (e : Event) (st : State) : State * list Emit :=
  match e with
  | Connect socket pruneNow now => on_connection socket pruneNow now st
  | UserJoinedIn socket requested rndUser rndSuffix =>
      if bool_decide (socket ∈ sockets st)
      then on_user_joined socket requested rndUser rndSuffix st else (st, [])
  | UsernameChangedIn socket newUsername =>
      if bool_decide (socket ∈ sockets st)
      then on_username_changed socket newUsername st else (st, [])
  | Disconnect socket =>
      if bool_decide (socket ∈ sockets st)
      then handleUserDisconnect socket (set_sockets (sockets st ∖ {[socket]}) st)
      else (st, [])
  end.

Fixpoint run (es : list Event) (st : State) : State * list Emit :=
  match es with
  | [] => (st, [])
  | e :: es' =>
      let '(st1, out1) := step e st in
      let '(st2, out2) := run es' st1 in
      (st2, out1 ++ out2)
  end.

End Legacy.

(** The usernames held by the live sessions, in registration order. *)
Definition onlineNames (st : State) : list str :=
  List.map u_username (JsMap.values (connectedUsers st)).

(** ** Notions used in the statements *)

(** A window is open for a connection at [now]: it has no entry yet, or its
    entry's reset time has passed. *)
Definition windowOver (now : Z) (socketId : SocketId)
    (limits : gmap SocketId Limit) : Prop :=
  match limits !! socketId with
  | None => True
  | Some l => now > resetTime l
  end.

(** The deletion notice TTL pruning owes for a history: none when no message
    is older than 24h, otherwise one batch with the ids of all that are. *)
Definition ttlBatch (now : Z) (h : list Message) : list Emit :=
  match List.map m_id (List.filter (expired now) h) with
  | [] => []
  | ids => [(ToAll, MessageDeleted ids)]
  end.

(** The message [addMessageToHistory] stores and hands back: [messageData]
    with its id filled in when it had none. *)
Definition completed (fallbackId : str) (m : Message) : Message :=
  if truthy (m_id m) then m
  else mkMessage fallbackId (m_username m) (m_message m) (m_replyTo m)
         (m_timestamp m) (m_reactions m) (m_avatar m).

(** The ids of the messages of [h] that are older than 24 hours (86 400 000
    milliseconds) when the clock reads [now], in the order of [h]. *)
Definition olderThan24h (now : Z) (h : list Message) : list str :=
  List.map m_id
    (List.filter (λ m, bool_decide (now - m_timestamp m > 86400000)) h).

(** The [message deleted] events among some emits, with their fan-out. *)
Definition deletionsSent (evs : list Emit) : list (Dest * list str) :=
  omap (λ e : Emit,
          match e.2 with
          | MessageDeleted ids => Some (e.1, ids)
          | _ => None
          end) evs.

(** The messages broadcast as [chat message] among some emits. *)
Definition messagesSent (evs : list Emit) : list Message :=
  omap (λ e : Emit,
          match e.2 with
          | ChatMessage m => Some m
          | _ => None
          end) evs.

(** The reading of the clock that the handler of an event hands to TTL
    pruning: [login] and [chat message] prune on their way, and the prune
    timer does nothing else. *)
Definition pruneReading (e : Event) : option Z :=
  match e with
  | Login _ _ _ pruneNow _ => Some pruneNow
  | ChatMessageIn _ _ _ _ _ _ _ pruneNow => Some pruneNow
  | PruneTick now => Some now
  | _ => None
  end.

(** The ids [pruneExpiredMessages] collects in [toDelete]. *)
Definition expiredIds (now : Z) (h : list Message) : list str :=
  List.map m_id (List.filter (expired now) h).

(** The history kept by the soft cap: the last [MAX_MESSAGES] messages. *)
Definition capped (h : list Message) : list Message :=
  drop (length h - MAX_MESSAGES)%nat h.

(** The [recent messages] snapshots among some emits, with their fan-out. *)
Definition snapshotsSent (evs : list Emit) : list (Dest * list Message) :=
  omap (λ e : Emit,
          match e.2 with
          | RecentMessages msgs => Some (e.1, msgs)
          | _ => None
          end) evs.

(** One reaction per user: no username is in the user arrays of two
    different symbols. *)
Definition oneReactionPerUser (r : Reactions) : Prop :=
  ∀ (u k1 k2 : str) (us1 us2 : list str),
    r !! k1 = Some us1 → r !! k2 = Some us2 → u ∈ us1 → u ∈ us2 → k1 = k2.

(** The invariant of a reactions object: one reaction per user, and no
    username twice in an array. *)
Definition reactionsOk (r : Reactions) : Prop :=
  oneReactionPerUser r ∧ ∀ k us, r !! k = Some us → NoDup us.

(** The history invariant: every stored message satisfies [reactionsOk]. *)
Definition historyOk (st : State) : Prop :=
  Forall (λ m, reactionsOk (m_reactions m)) (recentMessages st).

(** Every private chat log holds at most 100 messages. *)
Definition logsBounded (st : State) : Prop :=
  map_Forall (λ _ chat, (length (pc_messages chat) ≤ 100)%nat) (privateChats st).

(** The chat id [getOrCreatePrivateChat] computes for a pair. *)
Definition chatIdOf (user1 user2 : str) : str :=
  (getOrCreatePrivateChat user1 user2 ∅).1.

(** The stored log of a chat, empty when the chat does not exist. *)
Definition storedLog (chatId : str) (chats : gmap str PrivateChat)
    : list PrivateMsg :=
  match chats !! chatId with
  | Some chat => pc_messages chat
  | None => []
  end.

(** ** Concrete data of the examples *)

(** Two hundred stored messages, stamped at time 0, with ids 0 to 199. *)
Definition fullHistory : list Message :=
  List.map
    (λ n, mkMessage (decimal (N.of_nat n)) (lit "alice") (lit "hi") None 0 ∅ None)
    (seq 0 200).

(** A history with one message that aged past 24h and one that did not, as
    read at time 100000000, and an account to log in with. *)
Definition oldMessage : Message :=
  mkMessage (lit "m1") (lit "bob") (lit "old") None 0 ∅ None.
Definition freshMessage : Message :=
  mkMessage (lit "m2") (lit "bob") (lit "fresh") None 90000000 ∅ None.
Definition sampleHash (password : str) : str := lit "sha256:" ++ password.
Definition sampleAccounts : gmap str RegUser :=
  {[ lit "alice" := mkRegUser (sampleHash (lit "secret")) None;
     lit "bob" := mkRegUser (sampleHash (lit "secret")) None;
     lit "carol" := mkRegUser (sampleHash (lit "secret")) None ]}.
Definition agedState : State :=
  mkState sampleAccounts [] [oldMessage; freshMessage] ∅ ∅ ∅ {[lit "s1"]}.

(** Two reaction symbols, thumbs up and red heart, and a short session: a
    connection sends a message and a reaction by bob is recorded on it. *)
Definition thumbsUp : str := [55357; 56397]%N.
Definition redHeart : str := [10084; 65039]%N.
Definition reactedTrace : list Event :=
  [ Connect (lit "s1");
    ChatMessageIn (lit "s1") (Some (lit "hi")) None 1000 (lit "m1") 1000
      (lit "m1b") 1000;
    ReactionIn (lit "s1") (lit "m1") thumbsUp (lit "bob") (lit "add") ].
Definition reactedMessage : Message :=
  mkMessage (lit "m1") (lit "Unknown") (lit "hi") None 1000
    {[thumbsUp := [lit "bob"]]} (Some defaultAvatar).

(** Alice and bob online, with a private chat of theirs that holds 21
    messages. *)
Definition alice : UserData := mkUser (lit "alice") None (lit "s1").
Definition bob : UserData := mkUser (lit "bob") None (lit "s2").
Definition privateNote (n : nat) : PrivateMsg :=
  mkPrivateMsg (decimal (N.of_nat n)) (lit "alice") (lit "note") (Z.of_nat n)
    (lit "pc_alice_bob").
Definition chattyState : State :=
  mkState sampleAccounts [(lit "s1", alice); (lit "s2", bob)] [] ∅
    {[lit "pc_alice_bob" :=
        mkChat (lit "pc_alice_bob") {[lit "alice"; lit "bob"]}
          (List.map privateNote (seq 0 21))]}
    ∅ {[lit "s1"; lit "s2"]}.
Definition chattyTrace : list Event :=
  [ Connect (lit "s1"); Login (lit "s1") (lit "alice") (lit "secret") 0 0;
    Connect (lit "s2"); Login (lit "s2") (lit "bob") (lit "secret") 0 0;
    AcceptIn (lit "s2") (lit "alice") ]
  ++ List.map
       (λ n, PrivateMessageIn (lit "s1") (lit "pc_alice_bob") (Some (lit "note"))
               (lit "bob") (N.of_nat n) (Z.of_nat n))
       (seq 0 21).

(** Alice, bob and carol online; bob and carol share a private chat that
    alice is no participant of. *)
Definition carol : UserData := mkUser (lit "carol") None (lit "s3").
Definition forgedState : State :=
  mkState sampleAccounts [(lit "s1", alice); (lit "s2", bob); (lit "s3", carol)]
    [] ∅
    {[lit "pc_bob_carol" :=
        mkChat (lit "pc_bob_carol") {[lit "bob"; lit "carol"]} []]}
    ∅ {[lit "s1"; lit "s2"; lit "s3"]}.
Definition forgedTrace : list Event :=
  [ Connect (lit "s1"); Login (lit "s1") (lit "alice") (lit "secret") 0 0;
    Connect (lit "s2"); Login (lit "s2") (lit "bob") (lit "secret") 0 0;
    Connect (lit "s3"); Login (lit "s3") (lit "carol") (lit "secret") 0 0;
    AcceptIn (lit "s3") (lit "bob") ].

(** Sessions of the earlier variant. In [collisionTrace] a first connection
    joins as alice, a second as alice_5, and a third asks for alice while
    [Math.random] yields the suffix 5. In [renameTrace] bob renames himself
    to alice. In [rejoinTrace] alice leaves and a new connection asks for
    her name. [doubleLoginTrace] is a session of server.js: the account
    alice logs in on two connections. *)
Definition collisionTrace : list Legacy.Event :=
  [ Legacy.Connect (lit "s1") 0 0;
    Legacy.UserJoinedIn (lit "s1") (Some (lit "alice")) 0 0;
    Legacy.Connect (lit "s2") 0 0;
    Legacy.UserJoinedIn (lit "s2") (Some (lit "alice_5")) 0 0;
    Legacy.Connect (lit "s3") 0 0;
    Legacy.UserJoinedIn (lit "s3") (Some (lit "alice")) 0 5 ].
Definition renameTrace : list Legacy.Event :=
  [ Legacy.Connect (lit "s1") 0 0;
    Legacy.UserJoinedIn (lit "s1") (Some (lit "alice")) 0 0;
    Legacy.Connect (lit "s2") 0 0;
    Legacy.UserJoinedIn (lit "s2") (Some (lit "bob")) 0 0;
    Legacy.UsernameChangedIn (lit "s2") (Some (lit "alice")) ].
Definition doubleLoginTrace : list Event :=
  [ Connect (lit "s1"); Login (lit "s1") (lit "alice") (lit "secret") 0 0;
    Connect (lit "s2"); Login (lit "s2") (lit "alice") (lit "secret") 0 0 ].
Definition rejoinTrace : list Legacy.Event :=
  [ Legacy.Connect (lit "s1") 0 0;
    Legacy.UserJoinedIn (lit "s1") (Some (lit "alice")) 0 0;
    Legacy.Disconnect (lit "s1");
    Legacy.Connect (lit "s2") 0 0;
    Legacy.UserJoinedIn (lit "s2") (Some (lit "alice")) 0 7 ].

(** ** Notions used in the further properties *)

(** The presence table is well formed: one session per socket, each
    recording its own socket, and every session's socket is live. *)
Definition sessionsOk (st : State) : Prop :=
  NoDup (List.map fst (connectedUsers st))
  ∧ ∀ k u, (k, u) ∈ connectedUsers st → u_socketId u = k ∧ k ∈ sockets st.

(** Every rate-limit window has counted between 1 and 10 calls. *)
Definition limitsOk (st : State) : Prop :=
  map_Forall (λ _ l, 1 ≤ count l ≤ MESSAGE_RATE_LIMIT) (messageLimits st).

(** No symbol of a reactions object has an empty array. *)
Definition arraysNonEmpty (r : Reactions) : Prop :=
  ∀ k us, r !! k = Some us → us ≠ [].

(** Every session belongs to a registered account and shows the avatar of
    that account. *)
Definition accountsOk (st : State) : Prop :=
  ∀ k u, (k, u) ∈ connectedUsers st →
    ∃ acct, registeredUsers st !! u_username u = Some acct
            ∧ u_avatar u = r_avatar acct.

(** A session in which alice sends twelve messages within one second, then
    disconnects, and the cleanup timer fires after her window is over. *)
Definition burstTrace : list Event :=
  [ Connect (lit "s1"); Login (lit "s1") (lit "alice") (lit "secret") 0 0 ]
  ++ List.map
       (λ n, ChatMessageIn (lit "s1") (Some (lit "hi")) None (Z.of_nat n)
               (decimal (N.of_nat n)) (Z.of_nat n) (lit "spare") (Z.of_nat n))
       (seq 0 12).

(** * Properties *)

(** ** Rate limiter *)

Section RateLimit.

Implicit Types (limits : gmap SocketId Limit) (socketId : SocketId).

Lemma checkRateLimit_fresh now socketId limits :
  windowOver now socketId limits →
  checkRateLimit now socketId limits
  = (true, <[socketId := mkLimit 1 (now + RATE_LIMIT_WINDOW)]> limits).
Proof.
  unfold windowOver, checkRateLimit. destruct (limits !! socketId) as [l|]; [|done].
  intros Hgt. destruct (Z.gtb_spec now (resetTime l)); [done | lia].
Qed.

Lemma checkRateLimit_within now socketId limits c r :
  limits !! socketId = Some (mkLimit c r) → now ≤ r → c < MESSAGE_RATE_LIMIT →
  checkRateLimit now socketId limits
  = (true, <[socketId := mkLimit (c + 1) r]> limits).
Proof.
  intros Hl Hnow Hc. unfold checkRateLimit. rewrite Hl. simpl.
  destruct (Z.gtb_spec now r); [lia|].
  unfold Z.geb. destruct (Z.compare_spec c MESSAGE_RATE_LIMIT); try lia. done.
Qed.

Lemma checkRateLimit_full now socketId limits c r :
  limits !! socketId = Some (mkLimit c r) → now ≤ r → MESSAGE_RATE_LIMIT ≤ c →
  checkRateLimit now socketId limits = (false, limits).
Proof.
  intros Hl Hnow Hc. unfold checkRateLimit. rewrite Hl. simpl.
  destruct (Z.gtb_spec now r); [lia|].
  unfold Z.geb. destruct (Z.compare_spec c MESSAGE_RATE_LIMIT); try lia; done.
Qed.

(** Other connections' windows are never touched. *)
Lemma checkRateLimit_other now socketId other limits :
  other ≠ socketId →
  (checkRateLimit now socketId limits).2 !! other = limits !! other.
Proof.
  intros Hne. unfold checkRateLimit.
  destruct (limits !! socketId) as [l|]; simpl.
  - destruct (now >? resetTime l); simpl; [by rewrite lookup_insert_ne|].
    destruct (count l >=? MESSAGE_RATE_LIMIT); simpl; [done|].
    by rewrite lookup_insert_ne.
  - by rewrite lookup_insert_ne.
Qed.

(** Calls inside a window that still has room are all admitted and each
    adds one to the counter. *)
Lemma checkRateLimit_calls_within times : ∀ socketId limits c r,
  limits !! socketId = Some (mkLimit c r) →
  Forall (λ t, t ≤ r) times →
  c + Z.of_nat (length times) ≤ MESSAGE_RATE_LIMIT →
  checkRateLimit_calls times socketId limits
  = (repeat true (length times),
     <[socketId := mkLimit (c + Z.of_nat (length times)) r]> limits).
Proof.
  induction times as [|t times IH]; intros socketId limits c r Hl Hts Hc.
  - simpl. rewrite Z.add_0_r. by rewrite insert_id.
  - apply Forall_cons in Hts as [Ht Hts]. simpl length in *.
    cbn [checkRateLimit_calls].
    rewrite (checkRateLimit_within t socketId limits c r) by (try done; lia).
    rewrite (IH socketId _ (c + 1) r); [| by rewrite lookup_insert_eq | done | lia].
    rewrite insert_insert_eq. simpl. do 3 f_equal. lia.
Qed.

End RateLimit.

(** C4. Rate limiter window semantics. For a connection whose window is new
    or expired at [t0], the call at [t0] is admitted and sets the entry to
    count 1 and reset time [t0 + 60000]; any [n <= 9] further calls made
    no later than the reset time are all admitted and leave the count at
    [n + 1]; once ten calls have been admitted, a further call inside the
    window is refused and leaves the table as it is; and a call after the
    reset time is admitted and starts a window with count 1. *)
Theorem C4_rate_limit_window (socketId : SocketId)
    (limits : gmap SocketId Limit) (t0 : Z) (later : list Z) (t11 tAfter : Z) :
  windowOver t0 socketId limits →
  (length later ≤ 9)%nat →
  Forall (λ t, t ≤ t0 + RATE_LIMIT_WINDOW) later →
  t11 ≤ t0 + RATE_LIMIT_WINDOW →
  tAfter > t0 + RATE_LIMIT_WINDOW →
  let limitsN :=
    <[socketId := mkLimit (Z.of_nat (length later) + 1) (t0 + RATE_LIMIT_WINDOW)]>
      limits in
  checkRateLimit t0 socketId limits
  = (true, <[socketId := mkLimit 1 (t0 + RATE_LIMIT_WINDOW)]> limits)
  ∧ checkRateLimit_calls (t0 :: later) socketId limits
    = (repeat true (S (length later)), limitsN)
  ∧ (length later = 9%nat → checkRateLimit t11 socketId limitsN = (false, limitsN))
  ∧ checkRateLimit tAfter socketId limitsN
    = (true, <[socketId := mkLimit 1 (tAfter + RATE_LIMIT_WINDOW)]> limitsN).
Proof.
  intros Hover Hlen Hlater H11 Hafter limitsN.
  pose proof (checkRateLimit_fresh t0 socketId limits Hover) as Hfirst.
  split; [done|]. split; [|split].
  - cbn [checkRateLimit_calls]. rewrite Hfirst.
    rewrite (checkRateLimit_calls_within later socketId _ 1 (t0 + RATE_LIMIT_WINDOW));
      [| by rewrite lookup_insert_eq | done | unfold MESSAGE_RATE_LIMIT; lia].
    rewrite insert_insert_eq. subst limitsN. simpl. do 3 f_equal. lia.
  - intros Hnine.
    apply (checkRateLimit_full t11 socketId limitsN
             (Z.of_nat (length later) + 1) (t0 + RATE_LIMIT_WINDOW));
      [subst limitsN; by rewrite lookup_insert_eq | done
      | unfold MESSAGE_RATE_LIMIT; lia].
  - apply checkRateLimit_fresh. unfold windowOver. subst limitsN.
    rewrite lookup_insert_eq. simpl. lia.
Qed.

Lemma C4_rate_limit_window_witness :
  checkRateLimit_calls [0; 1; 2; 3; 4; 5; 6; 7; 8; 9] (lit "s1") ∅
  = (repeat true 10, {[lit "s1" := mkLimit 10 60000]})
  ∧ checkRateLimit 60000 (lit "s1") {[lit "s1" := mkLimit 10 60000]}
    = (false, {[lit "s1" := mkLimit 10 60000]})
  ∧ checkRateLimit 60001 (lit "s1") {[lit "s1" := mkLimit 10 60000]}
    = (true, {[lit "s1" := mkLimit 1 120001]}).
Proof.
  destruct (C4_rate_limit_window (lit "s1") ∅ 0 [1; 2; 3; 4; 5; 6; 7; 8; 9]
              60000 60001) as (_ & Hcalls & Hfull & Hafter).
  - exact I.
  - simpl. lia.
  - repeat constructor; unfold RATE_LIMIT_WINDOW; lia.
  - unfold RATE_LIMIT_WINDOW. lia.
  - unfold RATE_LIMIT_WINDOW. lia.
  - split; [exact Hcalls|]. split; [exact (Hfull eq_refl)|].
    etrans; [exact Hafter|]. f_equal; apply insert_insert_eq.
Defined.

(** ** Message history *)

Section History.

Implicit Types (h : list Message) (st : State) (m : Message).

Lemma set_recentMessages_id st : set_recentMessages (recentMessages st) st = st.
Proof. by destruct st. Qed.

(** [spliceById] removes the first message carrying the id. *)
Lemma spliceById_cons m h id :
  spliceById (m :: h) id
  = if decide (m_id m = id) then h else m :: spliceById h id.
Proof.
  unfold spliceById. cbn [list_find]. destruct (decide (m_id m = id)); [done|].
  destruct (list_find _ h) as [[i x]|]; done.
Qed.

Lemma spliceById_sublist h id : spliceById h id `sublist_of` h.
Proof.
  unfold spliceById. destruct (list_find _ h) as [[i x]|]; [|done].
  apply sublist_delete.
Qed.

Lemma fold_spliceById_sublist ids : ∀ h, fold_left spliceById ids h `sublist_of` h.
Proof.
  induction ids as [|id ids IH]; intros h; [done|]. simpl.
  etrans; [apply IH | apply spliceById_sublist].
Qed.

(** A message whose id is not asked for stays in front. *)
Lemma fold_spliceById_head ids : ∀ m h,
  m_id m ∉ ids →
  fold_left spliceById ids (m :: h) = m :: fold_left spliceById ids h.
Proof.
  induction ids as [|id ids IH]; intros m h Hm; [done|]. simpl.
  rewrite spliceById_cons. apply not_elem_of_cons in Hm as [Hne Hm].
  destruct (decide (m_id m = id)); [done|]. by apply IH.
Qed.

(** A message whose id is not asked for, and is carried by no other
    message, stays at the end. *)
Lemma spliceById_snoc h m id :
  m_id m ≠ id → spliceById (h ++ [m]) id = spliceById h id ++ [m].
Proof.
  intros Hne. induction h as [|x h IH]; simpl.
  - rewrite !spliceById_cons. destruct (decide (m_id m = id)); done.
  - rewrite !spliceById_cons. destruct (decide (m_id x = id)); [done|].
    by rewrite IH.
Qed.

Lemma fold_spliceById_snoc ids : ∀ h m,
  m_id m ∉ ids →
  fold_left spliceById ids (h ++ [m]) = fold_left spliceById ids h ++ [m].
Proof.
  induction ids as [|id ids IH]; intros h m Hm; [done|]. simpl.
  apply not_elem_of_cons in Hm as [Hne Hm].
  rewrite spliceById_snoc by done. by apply IH.
Qed.

(** With ids that are pairwise different, splicing out the ids of the
    messages that satisfy [p] is filtering them out. *)
Lemma fold_spliceById_filter (p : Message → bool) h :
  NoDup (List.map m_id h) →
  fold_left spliceById (List.map m_id (List.filter p h)) h
  = List.filter (λ m, negb (p m)) h.
Proof.
  induction h as [|m h IH]; intros Hnd; [done|].
  cbn [List.map] in Hnd. apply NoDup_cons in Hnd as [Hm Hnd].
  cbn [List.filter]. destruct (p m) eqn:Hp; cbn [negb List.map fold_left].
  - rewrite spliceById_cons. rewrite decide_True by done. by apply IH.
  - rewrite fold_spliceById_head; [by rewrite IH|].
    intros Hin. apply Hm.
    apply list_elem_of_In, in_map_iff in Hin as (x & Hx & Hin).
    apply filter_In in Hin as [Hin _].
    apply list_elem_of_In, in_map_iff. eauto.
Qed.

Lemma pruneExpiredMessages_eq now st :
  pruneExpiredMessages now st
  = (set_recentMessages
       (fold_left spliceById (expiredIds now (recentMessages st)) (recentMessages st))
       st,
     ttlBatch now (recentMessages st)).
Proof.
  unfold pruneExpiredMessages, ttlBatch, expiredIds.
  destruct (List.map m_id (List.filter (expired now) (recentMessages st)));
    simpl; by rewrite ?set_recentMessages_id.
Qed.

Lemma pruneExpiredMessages_sublist now st :
  recentMessages (pruneExpiredMessages now st).1 `sublist_of` recentMessages st.
Proof. rewrite pruneExpiredMessages_eq. apply fold_spliceById_sublist. Qed.

Lemma pruneExpiredMessages_unique now st :
  NoDup (List.map m_id (recentMessages st)) →
  recentMessages (pruneExpiredMessages now st).1
  = List.filter (λ m, negb (expired now m)) (recentMessages st).
Proof.
  intros Hnd. rewrite pruneExpiredMessages_eq.
  by apply fold_spliceById_filter.
Qed.

Lemma ttlBatch_none now h :
  Forall (λ m, expired now m = false) h → ttlBatch now h = [].
Proof.
  intros Hall. unfold ttlBatch.
  replace (List.filter (expired now) h) with (@nil Message); [done|].
  symmetry. induction Hall as [|m h Hm _ IH]; [done|].
  cbn [List.filter]. by rewrite Hm.
Qed.

Lemma pruneExpiredMessages_none now st :
  Forall (λ m, expired now m = false) (recentMessages st) →
  pruneExpiredMessages now st = (st, []).
Proof.
  intros Hall. unfold pruneExpiredMessages.
  replace (List.filter (expired now) (recentMessages st)) with (@nil Message);
    [done|].
  symmetry. induction Hall as [|m h Hm _ IH]; [done|].
  cbn [List.filter]. by rewrite Hm.
Qed.

Lemma addMessageToHistory_eq now fallbackId m st :
  let pushed := recentMessages st ++ [completed fallbackId m] in
  addMessageToHistory now fallbackId m st
  = (completed fallbackId m,
     set_recentMessages
       (capped (fold_left spliceById (expiredIds now pushed) pushed)) st,
     ttlBatch now pushed).
Proof.
  intros pushed. unfold addMessageToHistory. fold (completed fallbackId m).
  fold pushed. rewrite pruneExpiredMessages_eq.
  cbn [recentMessages set_recentMessages]. unfold capped.
  set (h2 := fold_left spliceById (expiredIds now pushed) pushed).
  destruct (Nat.ltb_spec MAX_MESSAGES (length h2)).
  - by destruct st.
  - replace (length h2 - MAX_MESSAGES)%nat with 0%nat by lia.
    by destruct st.
Qed.

End History.

(** ** Snapshot for a joining connection *)

Section Snapshot.

Implicit Types (h : list Message) (st : State) (m : Message).

Lemma snapshotsSent_app evs1 evs2 :
  snapshotsSent (evs1 ++ evs2) = snapshotsSent evs1 ++ snapshotsSent evs2.
Proof. apply omap_app. Qed.

Lemma snapshotsSent_ttlBatch now h : snapshotsSent (ttlBatch now h) = [].
Proof.
  unfold ttlBatch. by destruct (List.map m_id (List.filter (expired now) h)).
Qed.

Lemma sendRecentMessages_eq socket pruneNow now st :
  sendRecentMessages socket pruneNow now st
  = ((pruneExpiredMessages pruneNow st).1,
     ttlBatch pruneNow (recentMessages st)
     ++ [(ToSocket socket,
          RecentMessages
            (List.filter (within24h now)
               (recentMessages (pruneExpiredMessages pruneNow st).1)))]).
Proof.
  unfold sendRecentMessages. by rewrite pruneExpiredMessages_eq.
Qed.

Lemma sendRecentMessages_snapshots socket pruneNow now st :
  snapshotsSent (sendRecentMessages socket pruneNow now st).2
  = [(ToSocket socket,
      List.filter (within24h now)
        (recentMessages (sendRecentMessages socket pruneNow now st).1))].
Proof.
  rewrite sendRecentMessages_eq. cbn [fst snd].
  by rewrite snapshotsSent_app, snapshotsSent_ttlBatch.
Qed.

(** A message within 24h at a later reading was not expired at an earlier
    one, so pruning first does not change what the filter lets through. *)
Lemma filter_within24h_pruned pruneNow now h :
  pruneNow ≤ now →
  List.filter (within24h now) (List.filter (λ m, negb (expired pruneNow m)) h)
  = List.filter (within24h now) h.
Proof.
  intros Hle. induction h as [|m h IH]; [done|]. cbn [List.filter].
  unfold within24h at 2, expired at 1.
  destruct (Z.leb_spec (now - m_timestamp m) MESSAGE_TTL_MS) as [Hin|Hout].
  - destruct (Z.gtb_spec (pruneNow - m_timestamp m) MESSAGE_TTL_MS); [lia|].
    cbn [negb List.filter]. unfold within24h at 1.
    destruct (Z.leb_spec (now - m_timestamp m) MESSAGE_TTL_MS); [|lia].
    by rewrite IH.
  - destruct (negb _); [|done]. cbn [List.filter]. unfold within24h at 1.
    destruct (Z.leb_spec (now - m_timestamp m) MESSAGE_TTL_MS); [lia|done].
Qed.

Lemma sendRecentMessages_sound socket pruneNow now st m :
  m ∈ List.filter (within24h now)
        (recentMessages (sendRecentMessages socket pruneNow now st).1) →
  m ∈ recentMessages st ∧ now - m_timestamp m ≤ MESSAGE_TTL_MS.
Proof.
  rewrite sendRecentMessages_eq. cbn [fst].
  intros Hin. apply list_elem_of_In, filter_In in Hin as [Hin Hm].
  split.
  - eapply elem_of_sublist; [|apply pruneExpiredMessages_sublist].
    by apply list_elem_of_In.
  - unfold within24h in Hm. lia.
Qed.

Lemma sendRecentMessages_read_time socket pruneNow now st :
  pruneNow ≤ now →
  NoDup (List.map m_id (recentMessages st)) →
  List.filter (within24h now)
    (recentMessages (sendRecentMessages socket pruneNow now st).1)
  = List.filter (within24h now) (recentMessages st).
Proof.
  intros Hle Hnd. rewrite sendRecentMessages_eq. cbn [fst].
  rewrite pruneExpiredMessages_unique by done.
  by apply filter_within24h_pruned.
Qed.

End Snapshot.

(** ** Deletion notices *)

Section Deletions.

Variable hashPassword : str → str.

Implicit Types (st : State) (h : list Message) (d : Dest) (ids : list str).

Lemma ttlBatch_elem now h d ids :
  (d, MessageDeleted ids) ∈ ttlBatch now h →
  d = ToAll ∧ ids = expiredIds now h ∧ ids ≠ [].
Proof.
  unfold ttlBatch. fold (expiredIds now h).
  destruct (expiredIds now h) as [|id ids']; [by intros ?%elem_of_nil|].
  intros Hin%list_elem_of_singleton. by injection Hin as -> ->.
Qed.

(** [expired] is the comparison with 24 hours in milliseconds. *)
Lemma expired_24h now m :
  expired now m = bool_decide (now - m_timestamp m > 86400000).
Proof.
  unfold expired. change MESSAGE_TTL_MS with 86400000.
  rewrite Z.gtb_ltb. case_bool_decide; [apply Z.ltb_lt | apply Z.ltb_ge]; lia.
Qed.

Lemma olderThan24h_eq now h : olderThan24h now h = expiredIds now h.
Proof.
  unfold olderThan24h, expiredIds. f_equal. apply filter_ext.
  intros m. by rewrite expired_24h.
Qed.

Lemma ttlBatch_24h now h :
  ttlBatch now h = match olderThan24h now h with
                   | [] => []
                   | ids => [(ToAll, MessageDeleted ids)]
                   end.
Proof. by rewrite olderThan24h_eq. Qed.

Lemma deletionsSent_app evs1 evs2 :
  deletionsSent (evs1 ++ evs2) = deletionsSent evs1 ++ deletionsSent evs2.
Proof. apply omap_app. Qed.

Lemma messagesSent_app evs1 evs2 :
  messagesSent (evs1 ++ evs2) = messagesSent evs1 ++ messagesSent evs2.
Proof. apply omap_app. Qed.

Lemma deletionsSent_ttlBatch now h :
  deletionsSent (ttlBatch now h)
  = match olderThan24h now h with
    | [] => []
    | ids => [(ToAll, ids)]
    end.
Proof. rewrite ttlBatch_24h. by destruct (olderThan24h now h). Qed.

Lemma messagesSent_ttlBatch now h : messagesSent (ttlBatch now h) = [].
Proof. rewrite ttlBatch_24h. by destruct (olderThan24h now h). Qed.

(** The deletion notices among the events that start with some events
    without any, go on with the batch of a TTL pruning and end with some
    more events without any. *)
Lemma deletionsSent_around now h pre post :
  deletionsSent pre = [] →
  deletionsSent post = [] →
  deletionsSent (pre ++ ttlBatch now h ++ post)
  = match olderThan24h now h with
    | [] => []
    | ids => [(ToAll, ids)]
    end.
Proof.
  intros Hpre Hpost.
  rewrite !deletionsSent_app, Hpre, Hpost, deletionsSent_ttlBatch.
  by rewrite app_nil_r.
Qed.

(** A [message deleted] event leaves the server only as the one batch of
    the TTL pruning its handler runs: the ids of all the messages older than
    24 hours at the reading of that pruning, among the stored messages and
    the message the event appends. *)
Lemma step_deletions e st :
  let out := (step hashPassword e st).2 in
  deletionsSent out = []
  ∨ ∃ now,
      pruneReading e = Some now
      ∧ olderThan24h now (recentMessages st ++ messagesSent out) ≠ []
      ∧ deletionsSent out
        = [(ToAll, olderThan24h now (recentMessages st ++ messagesSent out))].
Proof.
  cbv zeta.
  assert (Hbatch : ∀ now h pre post,
            pruneReading e = Some now →
            deletionsSent pre = [] →
            deletionsSent post = [] →
            messagesSent pre = [] →
            h = recentMessages st ++ messagesSent post →
            let out := pre ++ ttlBatch now h ++ post in
            deletionsSent out = []
            ∨ ∃ now',
                pruneReading e = Some now'
                ∧ olderThan24h now' (recentMessages st ++ messagesSent out) ≠ []
                ∧ deletionsSent out
                  = [(ToAll,
                      olderThan24h now'
                        (recentMessages st ++ messagesSent out))]).
  { intros now h pre post Hnow Hpre Hpost Hmsg -> out. subst out.
    rewrite deletionsSent_around by done.
    rewrite !messagesSent_app, Hmsg, messagesSent_ttlBatch. cbn [app].
    destruct (olderThan24h now (recentMessages st ++ messagesSent post))
      eqn:Hold; [by left|].
    right. exists now. by rewrite Hold. }
  destruct e as [socket|socket|socket username password pruneNow now
                |socket username password avatar
                |socket message replyTo rateNow newId stamp fallbackId pruneNow
                |socket messageId reaction username action|socket|socket
                |socket targetUsername|socket fromUsername
                |socket chatId message toUsername idNow stamp|now|now];
    cbn [step]; unfold live;
    try (case_bool_decide; [|by left]).
  - by left.
  - left. unfold on_disconnect. by repeat case_match.
  - unfold on_login. repeat case_match; try (by left).
    all: match goal with
         | H : sendRecentMessages _ _ _ _ = _ |- _ =>
             rewrite sendRecentMessages_eq in H; injection H as <- <-
         end.
    all: cbn [snd recentMessages set_connectedUsers].
    all: rewrite app_assoc.
    all: match goal with
         | |- context [?pre ++ ttlBatch ?t ?h ++ ?post] =>
             apply (Hbatch t h pre post); try done
         end.
    all: by rewrite app_nil_r.
  - left. unfold on_register. by repeat case_match.
  - unfold on_chat_message. repeat case_match; try (by left).
    all: match goal with
         | H : addMessageToHistory _ _ _ _ = _ |- _ =>
             rewrite addMessageToHistory_eq in H; injection H as <- <- <-
         end.
    all: cbn [snd recentMessages set_messageLimits].
    all: match goal with
         | |- context [ttlBatch ?t ?h ++ ?post] =>
             apply (Hbatch t h [] post); done
         end.
  - left. unfold on_message_reaction. by repeat case_match.
  - left. unfold on_typing. by repeat case_match.
  - left. unfold on_stop_typing. by repeat case_match.
  - left. unfold on_invite. by repeat case_match.
  - left. unfold on_accept. by repeat case_match.
  - left. unfold on_private_message. by repeat case_match.
  - by left.
  - rewrite pruneExpiredMessages_eq. cbn [snd].
    rewrite <- (app_nil_r (ttlBatch now (recentMessages st))).
    apply (Hbatch now (recentMessages st) [] []); try done.
    by rewrite app_nil_r.
Qed.

End Deletions.

(** C2. Capacity eviction is silent. Whatever the state, an append emits
    what TTL pruning of the extended history emits and nothing more: no
    event when no message is older than 24h (the reading of the clock
    minus the timestamp of the message exceeds 86 400 000 milliseconds),
    otherwise a single [message deleted] broadcast with the ids of all the
    messages that are. The soft cap then keeps the last 200 messages of
    what pruning left, dropping the oldest surplus without any event; in
    particular, when no message is older than 24h, pushing the history
    beyond 200 emits nothing and removes exactly the oldest messages. And
    whatever event the server handles, it emits no [message deleted] event
    at all or exactly one: the broadcast of the TTL pruning that the
    handler of the event runs ([login], [chat message] and the prune timer
    run one), with the ids of all the messages older than 24h at the
    reading of that pruning, among the stored messages followed by the
    message the event broadcasts, and that list of ids is not empty. *)
Theorem C2_capacity_eviction_silent (hashPassword : str → str) (now : Z)
    (fallbackId : str) (messageData : Message) (st : State) :
  let pushed := recentMessages st ++ [completed fallbackId messageData] in
  let pruned := pruneExpiredMessages now (set_recentMessages pushed st) in
  let result := addMessageToHistory now fallbackId messageData st in
  pruned.2 = match olderThan24h now pushed with
             | [] => []
             | ids => [(ToAll, MessageDeleted ids)]
             end
  ∧ result.2 = pruned.2
  ∧ recentMessages result.1.2
    = drop (length (recentMessages pruned.1) - 200)%nat
        (recentMessages pruned.1)
  ∧ (Forall (λ m, now - m_timestamp m ≤ 86400000) pushed →
     result.2 = []
     ∧ recentMessages result.1.2 = drop (length pushed - 200)%nat pushed)
  ∧ (∀ e,
       let out := (step hashPassword e st).2 in
       deletionsSent out = []
       ∨ ∃ now',
           pruneReading e = Some now'
           ∧ olderThan24h now' (recentMessages st ++ messagesSent out) ≠ []
           ∧ deletionsSent out
             = [(ToAll,
                 olderThan24h now' (recentMessages st ++ messagesSent out))]).
Proof.
  intros pushed pruned result. subst result pruned.
  rewrite addMessageToHistory_eq, pruneExpiredMessages_eq. fold pushed.
  cbn [fst snd recentMessages set_recentMessages].
  split; [apply ttlBatch_24h|]. split; [done|]. split; [done|].
  split; [|intros e; apply step_deletions].
  intros Hyoung.
  assert (Hall : Forall (λ m, expired now m = false) pushed).
  { eapply Forall_impl; [exact Hyoung|]. intros m Hm. cbn beta in Hm.
    rewrite expired_24h. apply bool_decide_eq_false. lia. }
  rewrite (ttlBatch_none now pushed Hall). split; [done|].
  unfold expiredIds.
  replace (List.filter (expired now) pushed) with (@nil Message); [done|].
  symmetry. clear -Hall. induction Hall as [|m h Hm _ IH]; [done|].
  cbn [List.filter]. by rewrite Hm.
Qed.

Lemma C2_capacity_eviction_silent_witness :
  let st := set_recentMessages fullHistory (init ∅) in
  let new := mkMessage (lit "new") (lit "bob") (lit "hello") None 1000 ∅ None in
  let result := addMessageToHistory 1000 (lit "spare") new st in
  result.2 = []
  ∧ recentMessages result.1.2 = drop 1 (fullHistory ++ [new])
  ∧ deletionsSent (step sampleHash (PruneTick 100000000) agedState).2
    = [(ToAll, [lit "m1"])].
Proof.
  intros st new result.
  destruct (C2_capacity_eviction_silent sampleHash 1000 (lit "spare") new st)
    as (_ & _ & _ & Hsilent & _).
  destruct (C2_capacity_eviction_silent sampleHash 0 (lit "spare") new agedState)
    as (_ & _ & _ & _ & Honly).
  destruct Hsilent as [Hnone Hkept].
  { apply (bool_decide_unpack _). vm_compute. exact I. }
  split; [exact Hnone|]. split; [exact Hkept|].
  destruct (Honly (PruneTick 100000000)) as [Hno|(now' & Hnow & _ & Hbatch)].
  - vm_compute in Hno. discriminate.
  - injection Hnow as <-. etrans; [exact Hbatch|]. reflexivity.
Defined.

(** C3. Read-time TTL filtering of the snapshot. A successful login
    (server.js) and a new connection (part_001) each emit exactly one
    [recent messages] event, addressed to the joining socket; it carries,
    in stored order, exactly the stored messages whose age at the reading
    of the filter is at most 24h. Every message in it is a message of the
    history the event found, and when the stored ids are pairwise different
    the snapshot is the 24h filter of that history, whether or not a sweep
    removed the older messages before. *)
Theorem C3_snapshot_read_time_filter (hashPassword : str → str)
    (socket : SocketId) (username password : str) (pruneNow now : Z)
    (st : State) (user : RegUser) :
  truthy username = true →
  truthy password = true →
  registeredUsers st !! username = Some user →
  passwordHash user = hashPassword password →
  let login := on_login hashPassword socket username password pruneNow now st in
  let conn := Legacy.on_connection socket pruneNow now st in
  let snapshot := List.filter (within24h now) (recentMessages login.1) in
  snapshotsSent login.2 = [(ToSocket socket, snapshot)]
  ∧ snapshotsSent conn.2 = [(ToSocket socket, snapshot)]
  ∧ snapshot = List.filter (within24h now) (recentMessages conn.1)
  ∧ (∀ m, m ∈ snapshot →
       m ∈ recentMessages st ∧ now - m_timestamp m ≤ MESSAGE_TTL_MS)
  ∧ (pruneNow ≤ now →
     NoDup (List.map m_id (recentMessages st)) →
     snapshot = List.filter (within24h now) (recentMessages st)).
Proof.
  intros Hu Hp Hreg Hhash login conn snapshot.
  set (st1 := set_connectedUsers
                (JsMap.set socket (mkUser username (r_avatar user) socket)
                   (connectedUsers st)) st).
  set (st0 := set_sockets ({[socket]} ∪ sockets st) st).
  assert (Hlogin : login
            = ((sendRecentMessages socket pruneNow now st1).1,
               match findUserByName username (connectedUsers st) with
               | Some _ =>
                   [(ToSocket socket, LoginError (lit "User already logged in"))]
               | None => []
               end
               ++ ([ (ToSocket socket, LoginSuccess username (r_avatar user));
                     (ToAll, UserJoined username (r_avatar user)) ]
                   ++ broadcastUserCount st1)
               ++ (sendRecentMessages socket pruneNow now st1).2)).
  { subst login. unfold on_login. rewrite Hu, Hp, Hreg, Hhash. cbn [negb orb].
    rewrite bool_decide_eq_true_2 by done. cbn [negb]. fold st1.
    by destruct (sendRecentMessages socket pruneNow now st1). }
  assert (Hsame : ∀ st', recentMessages st' = recentMessages st →
            List.filter (within24h now)
              (recentMessages (sendRecentMessages socket pruneNow now st').1)
            = snapshot).
  { intros st' Hst'. subst snapshot. rewrite Hlogin. cbn [fst].
    rewrite !sendRecentMessages_eq. cbn [fst].
    by rewrite !pruneExpiredMessages_eq, Hst'. }
  split; [|split; [|split; [|split]]].
  - rewrite Hlogin. cbn [snd]. rewrite !snapshotsSent_app.
    rewrite sendRecentMessages_snapshots, (Hsame st1) by done.
    by destruct (findUserByName username (connectedUsers st)).
  - subst conn. unfold Legacy.on_connection. fold st0.
    by rewrite sendRecentMessages_snapshots, (Hsame st0).
  - subst conn. unfold Legacy.on_connection. fold st0. by rewrite (Hsame st0).
  - intros m Hm. rewrite <- (Hsame st eq_refl) in Hm.
    by apply sendRecentMessages_sound in Hm.
  - intros Hle Hnd. rewrite <- (Hsame st eq_refl).
    by apply sendRecentMessages_read_time.
Qed.

Lemma C3_snapshot_read_time_filter_witness :
  snapshotsSent
    (on_login sampleHash (lit "s1") (lit "alice") (lit "secret")
       100000000 100000000 agedState).2
  = [(ToSocket (lit "s1"), [freshMessage])]
  ∧ snapshotsSent
      (Legacy.on_connection (lit "s1") 100000000 100000000 agedState).2
    = [(ToSocket (lit "s1"), [freshMessage])].
Proof.
  destruct (C3_snapshot_read_time_filter sampleHash (lit "s1") (lit "alice")
              (lit "secret") 100000000 100000000 agedState
              (mkRegUser (sampleHash (lit "secret")) None))
    as (Hlogin & Hconn & _ & _ & Hread); [reflexivity..|].
  rewrite Hlogin, Hconn, Hread.
  - split; reflexivity.
  - lia.
  - apply (bool_decide_unpack _). vm_compute. exact I.
Defined.

(** ** Reaction store *)

Section Reactions.

Implicit Types (r : Reactions) (u k reaction username : str) (us : list str).

Lemma indexOf_Some username us i :
  indexOf username us = Some i → us !! i = Some username.
Proof.
  unfold indexOf. destruct (list_find _ us) as [[j x]|] eqn:Hfind; [|done].
  intros [= <-]. apply list_find_Some in Hfind as (Hj & -> & _). done.
Qed.

Lemma indexOf_None username us : indexOf username us = None → username ∉ us.
Proof.
  unfold indexOf. destruct (list_find _ us) as [[j x]|] eqn:Hfind; [done|].
  intros _ Hin. apply list_find_None in Hfind.
  eapply Forall_forall in Hfind; [|done]. done.
Qed.

Lemma indexOf_is_Some username us :
  username ∈ us → ∃ i, indexOf username us = Some i.
Proof.
  intros Hin. destruct (indexOf username us) as [i|] eqn:Hi; [eauto|].
  by apply indexOf_None in Hi.
Qed.

(** Splicing the entry of a duplicate-free array removes the name. *)
Lemma NoDup_delete_lookup us i u :
  NoDup us → us !! i = Some u → u ∉ delete i us.
Proof.
  intros Hnd Hi. rewrite delete_take_drop.
  rewrite <- (take_drop_middle us i u Hi) in Hnd.
  apply NoDup_app in Hnd as (_ & Htake & Hdrop).
  apply NoDup_cons in Hdrop as [Hdrop _].
  intros [Hin|Hin]%elem_of_app; [|done].
  apply (Htake u Hin). left.
Qed.

Lemma delete_keeps us i u v :
  us !! i = Some u → v ≠ u → v ∈ us → v ∈ delete i us.
Proof.
  intros Hi Hne Hin. rewrite delete_take_drop.
  rewrite <- (take_drop_middle us i u Hi) in Hin.
  apply elem_of_app in Hin as [Hin|Hin]; apply elem_of_app; [by left|].
  apply elem_of_cons in Hin as [->|Hin]; [done | by right].
Qed.

Lemma delete_nil_singleton us i u :
  us !! i = Some u → delete i us = [] → us = [u].
Proof.
  intros Hi Hnil. destruct us as [|x [|y us]]; [done| |].
  - destruct i; [by injection Hi as -> | done].
  - by destruct i.
Qed.

Lemma withoutUser_sublist username us us' :
  withoutUser username us = Some us' → us' `sublist_of` us.
Proof.
  unfold withoutUser. destruct (indexOf username us) as [i|]; [|by intros [= <-]].
  destruct (delete i us) as [|x l] eqn:Hdel; [done|].
  intros [= <-]. rewrite <- Hdel. apply sublist_delete.
Qed.

Lemma withoutUser_removes username us us' :
  NoDup us → withoutUser username us = Some us' → username ∉ us'.
Proof.
  unfold withoutUser. intros Hnd.
  destruct (indexOf username us) as [i|] eqn:Hi.
  - destruct (delete i us) as [|x l] eqn:Hdel; [done|].
    intros [= <-]. rewrite <- Hdel.
    apply NoDup_delete_lookup; [done | by apply indexOf_Some].
  - intros [= <-]. by apply indexOf_None.
Qed.

Lemma withoutUser_keeps username us us' v :
  withoutUser username us = Some us' → v ≠ username → v ∈ us → v ∈ us'.
Proof.
  unfold withoutUser. destruct (indexOf username us) as [i|] eqn:Hi.
  - destruct (delete i us) as [|x l] eqn:Hdel; [done|].
    intros [= <-] Hne Hin. rewrite <- Hdel.
    eapply delete_keeps; [by apply indexOf_Some | done | done].
  - by intros [= <-].
Qed.

Lemma withoutUser_None username us :
  withoutUser username us = None ↔ us = [username].
Proof.
  unfold withoutUser. split.
  - destruct (indexOf username us) as [i|] eqn:Hi; [|done].
    destruct (delete i us) as [|x l] eqn:Hdel; [|done].
    intros _. eapply delete_nil_singleton; [by apply indexOf_Some | done].
  - intros ->. unfold indexOf. cbn [list_find].
    by rewrite decide_True.
Qed.

(** The invariant survives any change that only shrinks arrays and drops
    entries. *)
Lemma reactionsOk_shrink r r' :
  reactionsOk r →
  (∀ k us', r' !! k = Some us' → ∃ us, r !! k = Some us ∧ us' `sublist_of` us) →
  reactionsOk r'.
Proof.
  intros [Hone Hnd] Hsub. split.
  - intros u k1 k2 us1 us2 H1 H2 Hu1 Hu2.
    apply Hsub in H1 as (vs1 & H1 & Hs1). apply Hsub in H2 as (vs2 & H2 & Hs2).
    eapply (Hone u); eauto using elem_of_sublist.
  - intros k us' Hk. apply Hsub in Hk as (us & Hk & Hs).
    eapply sublist_NoDup; eauto.
Qed.

Lemma reactionsOk_empty : reactionsOk ∅.
Proof.
  split; [intros u k1 k2 us1 us2 H1 | intros k us H1]; by rewrite lookup_empty in H1.
Qed.

Lemma omap_withoutUser_lookup username r k :
  omap (withoutUser username) r !! k = r !! k ≫= withoutUser username.
Proof. apply lookup_omap. Qed.

Lemma omap_withoutUser_ok username r :
  reactionsOk r → reactionsOk (omap (withoutUser username) r).
Proof.
  intros Hok. eapply reactionsOk_shrink; [done|]. intros k us' Hk.
  rewrite omap_withoutUser_lookup in Hk.
  destruct (r !! k) as [us|]; [|done]. simpl in Hk.
  eauto using withoutUser_sublist.
Qed.

(** After the loop of the [add] branch the user holds no reaction. *)
Lemma omap_withoutUser_absent username r k us :
  reactionsOk r →
  omap (withoutUser username) r !! k = Some us → username ∉ us.
Proof.
  intros [_ Hnd] Hk. rewrite omap_withoutUser_lookup in Hk.
  destruct (r !! k) as [vs|] eqn:Hr; [|done]. simpl in Hk.
  eapply withoutUser_removes; eauto.
Qed.

(** Giving a user who holds no reaction one reaction keeps the invariant. *)
Lemma reactionsOk_insert_user r reaction username us :
  reactionsOk r →
  (∀ k vs, r !! k = Some vs → username ∉ vs) →
  (r !! reaction = Some us ∨ (r !! reaction = None ∧ us = [])) →
  reactionsOk (<[reaction := us ++ [username]]> r).
Proof.
  intros [Hone Hnd] Habs Hus.
  assert (Hus_abs : username ∉ us).
  { destruct Hus as [Hus|[_ ->]]; [by eapply Habs | by intros ?%elem_of_nil]. }
  assert (Hus_nd : NoDup us).
  { destruct Hus as [Hus|[_ ->]]; [by eapply Hnd | constructor]. }
  assert (Hus_in : ∀ v, v ∈ us → r !! reaction = Some us).
  { intros v Hv. destruct Hus as [Hus|[_ ->]]; [done|]. by apply elem_of_nil in Hv. }
  split.
  - intros u k1 k2 us1 us2 H1 H2 Hu1 Hu2.
    destruct (decide (k1 = reaction)) as [->|Hk1];
      destruct (decide (k2 = reaction)) as [->|Hk2]; [done| | |].
    + rewrite lookup_insert_eq in H1. rewrite lookup_insert_ne in H2 by done.
      injection H1 as <-. apply elem_of_app in Hu1 as [Hu1|Hu1].
      * eapply (Hone u); eauto.
      * apply list_elem_of_singleton in Hu1 as ->. by apply Habs in H2.
    + rewrite lookup_insert_eq in H2. rewrite lookup_insert_ne in H1 by done.
      injection H2 as <-. apply elem_of_app in Hu2 as [Hu2|Hu2].
      * eapply (Hone u); eauto.
      * apply list_elem_of_singleton in Hu2 as ->. by apply Habs in H1.
    + rewrite lookup_insert_ne in H1, H2 by done. eapply (Hone u); eauto.
  - intros k vs Hk. destruct (decide (k = reaction)) as [->|Hne].
    + rewrite lookup_insert_eq in Hk. injection Hk as <-.
      apply NoDup_app. split; [done|]. split; [|apply NoDup_singleton].
      intros x Hx ->%list_elem_of_singleton. done.
    + rewrite lookup_insert_ne in Hk by done. eauto.
Qed.

Lemma addReaction_ok reaction username r :
  reactionsOk r → reactionsOk (addReaction reaction username r).2.
Proof.
  intros Hok. unfold addReaction.
  pose proof (omap_withoutUser_ok username r Hok) as Hok1.
  pose proof (λ k us, omap_withoutUser_absent username r k us Hok) as Habs.
  destruct (omap (withoutUser username) r !! reaction) as [us|] eqn:Hr.
  - destruct (bool_decide (username ∈ us)); [done|]. cbn [snd].
    apply reactionsOk_insert_user; auto.
  - destruct (inheritedKey reaction); [done|]. cbn [snd].
    apply (reactionsOk_insert_user _ reaction username []); auto.
Qed.

Lemma removeReaction_ok reaction username r :
  reactionsOk r → reactionsOk (removeReaction reaction username r).2.
Proof.
  intros Hok. unfold removeReaction.
  destruct (r !! reaction) as [us|] eqn:Hr; [|by destruct (inheritedKey reaction)].
  destruct (indexOf username us) as [i|]; [|done].
  destruct (delete i us) as [|x l] eqn:Hdel; cbn [snd].
  - eapply reactionsOk_shrink; [done|]. intros k us' Hk.
    apply lookup_delete_Some in Hk as [_ Hk]. eauto.
  - eapply reactionsOk_shrink; [done|]. intros k us' Hk.
    destruct (decide (k = reaction)) as [->|Hne].
    + rewrite lookup_insert_eq in Hk. injection Hk as <-.
      exists us. split; [done|]. rewrite <- Hdel. apply sublist_delete.
    + rewrite lookup_insert_ne in Hk by done. eauto.
Qed.

Lemma applyAction_ok action reaction username r :
  reactionsOk r → reactionsOk (applyAction action reaction username r).2.
Proof.
  intros Hok. unfold applyAction.
  destruct (bool_decide (action = lit "add")); [by apply addReaction_ok|].
  destruct (bool_decide (action = lit "remove")); [by apply removeReaction_ok|].
  done.
Qed.

(** The history invariant: every stored message satisfies [reactionsOk]. *)
Lemma updateMessageReactions_ok messageId reaction username action h :
  Forall (λ m, reactionsOk (m_reactions m)) h →
  Forall (λ m, reactionsOk (m_reactions m))
    (updateMessageReactions messageId reaction username action h).2.
Proof.
  intros Hall. unfold updateMessageReactions.
  destruct (list_find _ h) as [[i m]|] eqn:Hfind; [|done].
  apply list_find_Some in Hfind as (Hi & _ & _).
  pose proof (applyAction_ok action reaction username (m_reactions m)) as Hok.
  destruct (applyAction action reaction username (m_reactions m)) as [res r'].
  cbn [snd] in *. apply Forall_insert; [done|]. cbn [m_reactions set_reactions].
  apply Hok. eapply Forall_forall in Hall; [done|].
  apply list_elem_of_lookup. eauto.
Qed.

Lemma updateMessageReactions_unknown messageId reaction username action h :
  (∀ m, m ∈ h → m_id m ≠ messageId) →
  updateMessageReactions messageId reaction username action h = (Returned false, h).
Proof.
  intros Hno. unfold updateMessageReactions.
  destruct (list_find _ h) as [[i m]|] eqn:Hfind; [|done].
  apply list_find_Some in Hfind as (Hi & Hid & _).
  exfalso. apply (Hno m); [|done]. apply list_elem_of_lookup. eauto.
Qed.

Lemma updateMessageReactions_other_action messageId reaction username action h :
  (∃ m, m ∈ h ∧ m_id m = messageId) →
  action ≠ lit "add" → action ≠ lit "remove" →
  updateMessageReactions messageId reaction username action h = (Returned true, h).
Proof.
  intros (m0 & Hin & Hid) Hadd Hrem. unfold updateMessageReactions.
  destruct (list_find _ h) as [[i m]|] eqn:Hfind.
  - apply list_find_Some in Hfind as (Hi & _ & _).
    unfold applyAction. rewrite !bool_decide_eq_false_2 by done.
    f_equal. apply list_insert_id. rewrite Hi. f_equal. by destruct m.
  - apply list_find_None in Hfind. eapply Forall_forall in Hfind; [|done]. done.
Qed.

End Reactions.

(** ** The history invariant along a run *)

Section Invariant.

Variable hashPassword : str → str.

Implicit Types (st : State) (h : list Message).

Lemma historyOk_sublist st st' :
  historyOk st → recentMessages st' `sublist_of` recentMessages st → historyOk st'.
Proof.
  unfold historyOk. intros Hok Hsub. apply Forall_forall. intros m Hm.
  eapply Forall_forall in Hok; [done|]. eauto using elem_of_sublist.
Qed.

Lemma historyOk_same st st' :
  historyOk st → recentMessages st' = recentMessages st → historyOk st'.
Proof. intros Hok Heq. eapply historyOk_sublist; [done|]. by rewrite Heq. Qed.

Lemma sendRecentMessages_ok socket pruneNow now st :
  historyOk st → historyOk (sendRecentMessages socket pruneNow now st).1.
Proof.
  intros Hok. eapply historyOk_sublist; [done|].
  rewrite sendRecentMessages_eq. apply pruneExpiredMessages_sublist.
Qed.

Lemma on_login_ok socket username password pruneNow now st :
  historyOk st →
  historyOk (on_login hashPassword socket username password pruneNow now st).1.
Proof.
  intros Hok. unfold on_login.
  destruct (negb (truthy username) || negb (truthy password)); [done|].
  destruct (registeredUsers st !! username) as [user|]; [|done].
  destruct (negb (bool_decide (passwordHash user = hashPassword password)));
    [done|].
  match goal with
  | |- context [sendRecentMessages ?s ?p ?n ?st1] =>
      pose proof (sendRecentMessages_ok s p n st1) as Hsend;
      destruct (sendRecentMessages s p n st1) as [st2 recent]
  end.
  apply Hsend. by eapply historyOk_same.
Qed.

Lemma addMessageToHistory_ok now fallbackId m st :
  historyOk st → reactionsOk (m_reactions m) →
  historyOk (addMessageToHistory now fallbackId m st).1.2.
Proof.
  intros Hok Hm. rewrite addMessageToHistory_eq. cbn [fst snd].
  unfold historyOk. cbn [recentMessages set_recentMessages]. unfold capped.
  apply Forall_forall. intros x Hx.
  eapply elem_of_sublist in Hx;
    [|etrans; [apply sublist_drop | apply fold_spliceById_sublist]].
  apply elem_of_app in Hx as [Hx|Hx].
  - eapply Forall_forall in Hok; done.
  - apply list_elem_of_singleton in Hx as ->. unfold completed.
    by destruct (truthy (m_id m)).
Qed.

Lemma on_chat_message_ok socket message replyTo rateNow newId stamp fallbackId
    pruneNow st :
  historyOk st →
  historyOk (on_chat_message socket message replyTo rateNow newId stamp
               fallbackId pruneNow st).1.
Proof.
  intros Hok. unfold on_chat_message.
  destruct (checkRateLimit rateNow socket (messageLimits st)) as [ok limits].
  destruct ok; cbn [negb]; [|done].
  destruct (negb (truthy (sanitizeMessage message))); [done|].
  match goal with
  | |- context [addMessageToHistory ?n ?f ?m ?st1] =>
      pose proof (addMessageToHistory_ok n f m st1) as Hadd;
      destruct (addMessageToHistory n f m st1) as [[m' st2] evs]
  end.
  cbn [fst snd] in *. apply Hadd; [done | apply reactionsOk_empty].
Qed.

Lemma on_message_reaction_ok messageId reaction username action st :
  historyOk st →
  historyOk (on_message_reaction messageId reaction username action st).1.
Proof.
  intros Hok. unfold on_message_reaction.
  destruct (_ || _); [done|].
  pose proof (updateMessageReactions_ok messageId reaction username action
                (recentMessages st) Hok) as Hupd.
  destruct (updateMessageReactions _ _ _ _ _) as [[[]|] h]; done.
Qed.

(** The handlers that leave the history alone. *)
Lemma frame_recentMessages socket st :
  (∀ username password avatar,
     recentMessages (on_register hashPassword socket username password avatar st).1
     = recentMessages st)
  ∧ recentMessages (on_typing socket st).1 = recentMessages st
  ∧ recentMessages (on_stop_typing socket st).1 = recentMessages st
  ∧ (∀ target, recentMessages (on_invite socket target st).1 = recentMessages st)
  ∧ (∀ from, recentMessages (on_accept socket from st).1 = recentMessages st)
  ∧ (∀ chatId message to idNow stamp,
       recentMessages (on_private_message socket chatId message to idNow stamp st).1
       = recentMessages st)
  ∧ recentMessages (on_disconnect socket st).1 = recentMessages st.
Proof.
  repeat split; intros;
    unfold on_register, on_typing, on_stop_typing, on_invite, on_accept,
      on_private_message, on_disconnect;
    repeat case_match; done.
Qed.

Lemma step_historyOk e st : historyOk st → historyOk (step hashPassword e st).1.
Proof.
  intros Hok.
  assert (Hframe := λ socket, frame_recentMessages socket st).
  destruct e; cbn [step]; unfold live; try case_bool_decide; try done;
    try (destruct (Hframe socket) as (Hreg & Hty & Hst & Hinv & Hacc & Hpm & _)).
  - pose proof (frame_recentMessages socket
                  (set_sockets (sockets st ∖ {[socket]}) st)) as (_&_&_&_&_&_&Hd).
    by eapply historyOk_same.
  - by apply on_login_ok.
  - eapply historyOk_same; [done | apply Hreg].
  - by apply on_chat_message_ok.
  - by apply on_message_reaction_ok.
  - by eapply historyOk_same.
  - by eapply historyOk_same.
  - eapply historyOk_same; [done | apply Hinv].
  - eapply historyOk_same; [done | apply Hacc].
  - eapply historyOk_same; [done | apply Hpm].
  - eapply historyOk_sublist; [done | apply pruneExpiredMessages_sublist].
Qed.

Lemma run_historyOk es : ∀ st,
  historyOk st → historyOk (run hashPassword es st).1.
Proof.
  induction es as [|e es IH]; intros st Hok; [done|]. cbn [run].
  pose proof (step_historyOk e st Hok) as Hstep.
  destruct (step hashPassword e st) as [st1 out1].
  specialize (IH st1 Hstep).
  destruct (run hashPassword es st1) as [st2 out2]. done.
Qed.

Lemma reachable_historyOk users st :
  reachable hashPassword users st → historyOk st.
Proof.
  intros [es <-]. apply run_historyOk. unfold historyOk, init. simpl.
  constructor.
Qed.

End Invariant.

(** X25. One reaction per user per message. In every state the server
    reaches, by any sequence of events (so after any sequence of reaction
    calls, with any actions, by any users), no username is in the user
    arrays of two different symbols of a stored message. In particular,
    when a user who holds the symbol [held] adds another symbol, the user
    is gone from the array of [held] while every other holder stays, the
    entry of [held] is deleted exactly when the user was its only holder,
    and the invariant holds of the result; and, for a symbol an object can
    store as a key of its own (one that is not the name of a member
    inherited from Object.prototype), the call returns true and the user
    is in the array of the new symbol. *)
Theorem one_reaction_per_user (hashPassword : str → str)
    (users : gmap str RegUser) (es : list Event) (m : Message) :
  m ∈ recentMessages (run hashPassword es (init users)).1 →
  oneReactionPerUser (m_reactions m)
  ∧ ∀ (held reaction username : str) (holders : list str),
      m_reactions m !! held = Some holders →
      username ∈ holders →
      reaction ≠ held →
      let result := addReaction reaction username (m_reactions m) in
      oneReactionPerUser result.2
      ∧ (∀ us, result.2 !! held = Some us →
           (username ∉ us) ∧ (∀ v, v ≠ username → v ∈ holders → v ∈ us))
      ∧ (result.2 !! held = None ↔ holders = [username])
      ∧ (inheritedKey reaction = false →
         result.1 = Returned true
         ∧ ∃ us, result.2 !! reaction = Some us ∧ username ∈ us).
Proof.
  intros Hm.
  assert (Hok : reactionsOk (m_reactions m)).
  { pose proof (reachable_historyOk hashPassword users _ (ex_intro _ es eq_refl))
      as Hall.
    unfold historyOk in Hall. eapply Forall_forall in Hall; done. }
  split; [apply Hok|].
  intros held reaction username holders Hheld Hin Hne result.
  pose proof (addReaction_ok reaction username _ Hok) as Hok'. fold result in Hok'.
  assert (Hlook : result.2 !! held = withoutUser username holders).
  { subst result. unfold addReaction.
    assert (omap (withoutUser username) (m_reactions m) !! held
            = withoutUser username holders) as Hl
      by (by rewrite omap_withoutUser_lookup, Hheld).
    destruct (omap (withoutUser username) (m_reactions m) !! reaction) as [us|].
    - destruct (bool_decide (username ∈ us)); cbn [snd]; [done|].
      by rewrite lookup_insert_ne.
    - destruct (inheritedKey reaction); cbn [snd]; [done|].
      by rewrite lookup_insert_ne. }
  split; [apply Hok'|split; [|split]].
  - intros us Hus. rewrite Hlook in Hus. destruct Hok as [_ Hnd]. split.
    + eapply withoutUser_removes; eauto.
    + intros v Hv Hvin. eapply withoutUser_keeps; eauto.
  - rewrite Hlook. apply withoutUser_None.
  - intros Hinh. subst result. unfold addReaction.
    destruct (omap (withoutUser username) (m_reactions m) !! reaction)
      as [us|] eqn:Hr.
    + destruct (bool_decide_reflect (username ∈ us)); cbn [fst snd].
      * eauto.
      * rewrite lookup_insert_eq. split; [done|]. eexists. split; [done|].
        apply elem_of_app. right. left.
    + rewrite Hinh. cbn [fst snd]. rewrite lookup_insert_eq.
      split; [done|]. eexists. split; [done|]. left.
Qed.

Lemma one_reaction_per_user_witness :
  oneReactionPerUser (m_reactions reactedMessage)
  ∧ (addReaction redHeart (lit "bob") (m_reactions reactedMessage)).2 !! thumbsUp
    = None
  ∧ ∃ us, (addReaction redHeart (lit "bob") (m_reactions reactedMessage)).2
            !! redHeart = Some us
          ∧ lit "bob" ∈ us.
Proof.
  destruct (one_reaction_per_user sampleHash ∅ reactedTrace reactedMessage)
    as [Hone Hadd].
  { vm_compute. left. }
  split; [exact Hone|].
  destruct (Hadd thumbsUp redHeart (lit "bob") [lit "bob"])
    as (_ & _ & Hdel & Hnew).
  - reflexivity.
  - left.
  - discriminate.
  - split; [by apply Hdel | by apply Hnew].
Defined.

(** An [add] of a symbol that names a member inherited from
    Object.prototype, on reactions that have no entry of its own for it:
    the loop takes the user out of every array, and the call then throws,
    so the user is inserted nowhere. *)
Lemma addReaction_inherited (reaction username : str) (r : Reactions) :
  inheritedKey reaction = true →
  r !! reaction = None →
  addReaction reaction username r = (Threw, omap (withoutUser username) r).
Proof.
  intros Hinh Hr. unfold addReaction.
  by rewrite omap_withoutUser_lookup, Hr, Hinh.
Qed.

(** C1, evaluated on server.js. Bob holds the thumbs-up on the stored
    message m1, and a [message reaction] event adds the symbol
    [constructor] for him. The loop of the [add] branch takes bob out of
    the thumbs-up array and deletes the emptied entry; then
    [message.reactions[reaction]] reads the member that every object
    inherits under that name, so no array is created, and the call of
    [includes] on that member throws. The handler catches the error and
    broadcasts nothing. Bob is left with no reaction at all: he is removed
    from the symbol he held and is not inserted into the new one. The same
    happens for each of the twelve names a plain object inherits. *)
Theorem C1_inherited_symbol_strips_reaction :
  let st := (run sampleHash reactedTrace (init ∅)).1 in
  let result :=
    step sampleHash
      (ReactionIn (lit "s1") (lit "m1") (lit "constructor") (lit "bob")
         (lit "add")) st in
  recentMessages st = [reactedMessage]
  ∧ m_reactions reactedMessage !! thumbsUp = Some [lit "bob"]
  ∧ updateMessageReactions (lit "m1") (lit "constructor") (lit "bob")
      (lit "add") (recentMessages st)
    = (Threw, [set_reactions ∅ reactedMessage])
  ∧ recentMessages result.1 = [set_reactions ∅ reactedMessage]
  ∧ result.2 = []
  ∧ Forall (λ reaction,
              addReaction reaction (lit "bob") (m_reactions reactedMessage)
              = (Threw, ∅))
      [lit "constructor"; lit "__proto__"; lit "hasOwnProperty";
       lit "isPrototypeOf"; lit "propertyIsEnumerable"; lit "toLocaleString";
       lit "toString"; lit "valueOf"; lit "__defineGetter__";
       lit "__defineSetter__"; lit "__lookupGetter__"; lit "__lookupSetter__"].
Proof.
  cbv zeta. split; [by vm_compute|]. split; [by vm_compute|].
  split; [by vm_compute|]. split; [by vm_compute|]. split; [by vm_compute|].
  repeat constructor; by vm_compute.
Qed.

(** C8. A reaction to an unknown message is an atomic no-op. When no stored
    message carries [messageId], [updateMessageReactions] returns false
    and leaves the history as it is, and the handler, hence the server
    step, changes nothing in the state and emits nothing. *)
Theorem C8_unknown_message_noop (hashPassword : str → str) (socket : SocketId)
    (messageId reaction username action : str) (st : State) :
  (∀ m, m ∈ recentMessages st → m_id m ≠ messageId) →
  updateMessageReactions messageId reaction username action (recentMessages st)
  = (Returned false, recentMessages st)
  ∧ on_message_reaction messageId reaction username action st = (st, [])
  ∧ step hashPassword (ReactionIn socket messageId reaction username action) st
    = (st, []).
Proof.
  intros Hno.
  pose proof (updateMessageReactions_unknown messageId reaction username action
                (recentMessages st) Hno) as Hupd.
  assert (Hhandler :
    on_message_reaction messageId reaction username action st = (st, [])).
  { unfold on_message_reaction. rewrite Hupd, set_recentMessages_id.
    by destruct (_ || _). }
  split; [done|]. split; [done|].
  cbn [step]. unfold live. by case_bool_decide.
Qed.

Lemma C8_unknown_message_noop_witness :
  let st := (run sampleHash reactedTrace (init ∅)).1 in
  updateMessageReactions (lit "gone") thumbsUp (lit "bob") (lit "add")
    (recentMessages st)
  = (Returned false, recentMessages st)
  ∧ step sampleHash
      (ReactionIn (lit "s1") (lit "gone") thumbsUp (lit "bob") (lit "add")) st
    = (st, []).
Proof.
  intros st.
  destruct (C8_unknown_message_noop sampleHash (lit "s1") (lit "gone") thumbsUp
              (lit "bob") (lit "add") st) as (Hupd & _ & Hstep).
  - intros m Hm. vm_compute in Hm.
    apply list_elem_of_singleton in Hm as ->. discriminate.
  - split; [exact Hupd | exact Hstep].
Defined.

(** C10. An unvalidated reaction action is accepted and re-broadcast. When
    a stored message carries [messageId] and [action] is neither [add] nor
    [remove], [updateMessageReactions] returns true and leaves the history
    as it is; so the handler, for a payload whose four fields are present,
    leaves the state as it is and broadcasts the [message reaction] event,
    unknown action included, to all clients. *)
Theorem C10_unknown_action_rebroadcast (hashPassword : str → str)
    (socket : SocketId) (messageId reaction username action : str) (st : State) :
  (∃ m, m ∈ recentMessages st ∧ m_id m = messageId) →
  action ≠ lit "add" →
  action ≠ lit "remove" →
  updateMessageReactions messageId reaction username action (recentMessages st)
  = (Returned true, recentMessages st)
  ∧ (truthy messageId = true → truthy reaction = true →
     truthy username = true → truthy action = true →
     on_message_reaction messageId reaction username action st
     = (st, [(ToAll, MessageReaction messageId reaction username action)])
     ∧ (socket ∈ sockets st →
        step hashPassword (ReactionIn socket messageId reaction username action) st
        = (st, [(ToAll, MessageReaction messageId reaction username action)]))).
Proof.
  intros Hex Hadd Hrem.
  pose proof (updateMessageReactions_other_action messageId reaction username
                action (recentMessages st) Hex Hadd Hrem) as Hupd.
  split; [done|]. intros Hm Hr Hu Ha.
  assert (Hhandler :
    on_message_reaction messageId reaction username action st
    = (st, [(ToAll, MessageReaction messageId reaction username action)])).
  { unfold on_message_reaction. rewrite Hm, Hr, Hu, Ha. cbn [negb orb].
    by rewrite Hupd, set_recentMessages_id. }
  split; [done|]. intros Hlive.
  cbn [step]. unfold live. by rewrite bool_decide_eq_true_2.
Qed.

Lemma C10_unknown_action_rebroadcast_witness :
  let st := (run sampleHash reactedTrace (init ∅)).1 in
  step sampleHash
    (ReactionIn (lit "s1") (lit "m1") thumbsUp (lit "bob") (lit "toggle")) st
  = (st, [(ToAll, MessageReaction (lit "m1") thumbsUp (lit "bob") (lit "toggle"))]).
Proof.
  intros st.
  destruct (C10_unknown_action_rebroadcast sampleHash (lit "s1") (lit "m1")
              thumbsUp (lit "bob") (lit "toggle") st) as [_ Hhandler].
  - exists reactedMessage. split; [vm_compute; left | reflexivity].
  - discriminate.
  - discriminate.
  - destruct Hhandler as [_ Hstep]; [reflexivity..|].
    apply Hstep. apply (bool_decide_unpack _). vm_compute. exact I.
Defined.
(** ** Validation of a message body *)

Section ChatMessage.

Implicit Types (st : State) (h : list Message) (m : Message).

Lemma sanitizeMessage_Some s : sanitizeMessage (Some s) = take 500 (trim s).
Proof. unfold sanitizeMessage. by destruct s. Qed.

Lemma sanitizeMessage_length message : (length (sanitizeMessage message) ≤ 500)%nat.
Proof.
  destruct message as [s|]; [|simpl; lia].
  rewrite sanitizeMessage_Some, length_take. lia.
Qed.

Lemma truthy_false s : truthy s = false ↔ s = [].
Proof. by destruct s. Qed.

Lemma expiredIds_snoc now h m :
  expired now m = false → expiredIds now (h ++ [m]) = expiredIds now h.
Proof.
  intros Hm. unfold expiredIds. rewrite List.filter_app. cbn [List.filter].
  rewrite Hm. by rewrite app_nil_r.
Qed.

Lemma expiredIds_subset now h id : id ∈ expiredIds now h → id ∈ List.map m_id h.
Proof.
  unfold expiredIds. intros Hin.
  apply list_elem_of_In, in_map_iff in Hin as (x & <- & Hx).
  apply filter_In in Hx as [Hx _]. apply list_elem_of_In, in_map_iff. eauto.
Qed.

(** A message that is not older than 24h and whose id is new ends up as the
    newest stored message. *)
Lemma addMessageToHistory_last now fallbackId m st :
  let m' := completed fallbackId m in
  expired now m' = false →
  m_id m' ∉ List.map m_id (recentMessages st) →
  last (recentMessages (addMessageToHistory now fallbackId m st).1.2) = Some m'.
Proof.
  intros m' Hfresh Hid. rewrite addMessageToHistory_eq. fold m'.
  cbn [fst snd recentMessages set_recentMessages].
  rewrite expiredIds_snoc by done.
  rewrite fold_spliceById_snoc
    by (intros Hin; apply Hid; by eapply expiredIds_subset).
  unfold capped. rewrite drop_app_le.
  - apply last_snoc.
  - rewrite length_app. simpl. unfold MAX_MESSAGES. lia.
Qed.

End ChatMessage.

(** C9, the claim as it stands fails. A body of 501 characters is not
    rejected: it is cut to its first 500 characters, stored and broadcast
    to all clients. And a body that is empty after trimming is dropped
    without any event: the originating connection receives no error. *)
Lemma C9_oversized_body_accepted :
  let body := repeat 97%N 501 in
  let result :=
    run sampleHash
      [ Connect (lit "s1");
        ChatMessageIn (lit "s1") (Some body) None 1000 (lit "m1") 1000 (lit "m1b")
          1000 ] (init ∅) in
  let blank :=
    run sampleHash
      [ Connect (lit "s1");
        ChatMessageIn (lit "s1") (Some (lit "   ")) None 1000 (lit "m1") 1000
          (lit "m1b") 1000 ] (init ∅) in
  (length body > 500)%nat
  ∧ List.map m_message (recentMessages result.1) = [repeat 97%N 500]
  ∧ (∃ m, result.2 = [(ToAll, ChatMessage m)] ∧ m_message m = repeat 97%N 500)
  ∧ recentMessages blank.1 = []
  ∧ blank.2 = [].
Proof.
  vm_compute. split; [lia|]. split; [reflexivity|]. split; [|done].
  eexists. split; reflexivity.
Qed.

(** C9, amended. A [chat message] event the rate limiter refuses gets a
    rate-limit error on the originating connection only and touches no
    history. For an event the limiter admits: if the body is missing, not
    a string or empty after trimming, the event is dropped, nothing is
    appended and nothing at all is emitted; otherwise the message is
    accepted with the trimmed body cut to its first 500 characters (a
    longer body is truncated, not rejected), and that message is
    broadcast to all clients after whatever deletion notice TTL pruning
    owes, and, when it is not already older than 24h and its id is new, it
    is the newest stored message. *)
Theorem C9_chat_message_validation (socket : SocketId)
    (message replyTo : option str) (rateNow : Z) (newId : str) (stamp : Z)
    (fallbackId : str) (pruneNow : Z) (st : State) :
  let result :=
    on_chat_message socket message replyTo rateNow newId stamp fallbackId
      pruneNow st in
  let body := sanitizeMessage message in
  let admitted := (checkRateLimit rateNow socket (messageLimits st)).1 in
  (admitted = false →
     recentMessages result.1 = recentMessages st
     ∧ result.2 = [(ToSocket socket, ErrorEvent (lit "Rate limit exceeded"))])
  ∧ (admitted = true → body = [] →
     recentMessages result.1 = recentMessages st ∧ result.2 = [])
  ∧ (admitted = true → body ≠ [] →
     (∃ s, message = Some s ∧ body = take 500 (trim s))
     ∧ (length body ≤ 500)%nat
     ∧ ∃ m, m_message m = body
          ∧ result.2
            = ttlBatch pruneNow (recentMessages st ++ [m])
              ++ [(ToAll, ChatMessage m)]
          ∧ (expired pruneNow m = false →
             m_id m ∉ List.map m_id (recentMessages st) →
             last (recentMessages result.1) = Some m)).
Proof.
  intros result body admitted. subst result admitted. unfold on_chat_message.
  destruct (checkRateLimit rateNow socket (messageLimits st)) as [ok limits].
  cbn [fst]. fold body.
  split; [|split].
  - intros ->. done.
  - intros -> Hbody. by rewrite Hbody.
  - intros -> Hbody.
    assert (truthy body = true) as ->
      by (destruct (truthy body) eqn:Ht; [done | by apply truthy_false in Ht]).
    cbn [negb]. split; [|split; [apply sanitizeMessage_length|]].
    { subst body. destruct message as [s|]; [|done].
      exists s. by rewrite sanitizeMessage_Some. }
    set (st1 := set_messageLimits limits st).
    set (messageData := mkMessage newId _ body _ stamp ∅ _).
    pose proof (addMessageToHistory_eq pruneNow fallbackId messageData st1) as Heq.
    pose proof (addMessageToHistory_last pruneNow fallbackId messageData st1)
      as Hlast.
    destruct (addMessageToHistory pruneNow fallbackId messageData st1)
      as [[m st2] evs].
    cbn zeta in Heq, Hlast. injection Heq as -> -> ->.
    exists (completed fallbackId messageData). split; [|split; [done|]].
    + unfold completed. by destruct (truthy (m_id messageData)).
    + intros Hfresh Hid. by apply Hlast.
Qed.

Lemma C9_chat_message_validation_witness :
  let result :=
    on_chat_message (lit "s1") (Some (repeat 97%N 501)) None 1000 (lit "m1") 1000
      (lit "m1b") 1000 (init ∅) in
  (length (sanitizeMessage (Some (repeat 97%N 501))) ≤ 500)%nat
  ∧ ∃ m, m_message m = sanitizeMessage (Some (repeat 97%N 501))
         ∧ result.2
           = ttlBatch 1000 (recentMessages (init ∅) ++ [m])
             ++ [(ToAll, ChatMessage m)].
Proof.
  intros result.
  destruct (C9_chat_message_validation (lit "s1") (Some (repeat 97%N 501)) None
              1000 (lit "m1") 1000 (lit "m1b") 1000 (init ∅))
    as (_ & _ & Haccept).
  destruct Haccept as (_ & Hlen & m & Hbody & Hevs & _).
  - reflexivity.
  - vm_compute. discriminate.
  - split; [exact Hlen|]. exists m. split; [exact Hbody | exact Hevs].
Defined.

(** ** Private chats *)

Section PrivateChats.

Implicit Types (st : State) (chats : gmap str PrivateChat).

Lemma chatIdOf_eq user1 user2 :
  chatIdOf user1 user2
  = lit "pc_"
    ++ (if str_ltb user2 user1 then (user2, user1) else (user1, user2)).1
    ++ lit "_"
    ++ (if str_ltb user2 user1 then (user2, user1) else (user1, user2)).2.
Proof. unfold chatIdOf, getOrCreatePrivateChat. by rewrite lookup_empty. Qed.

Lemma getOrCreatePrivateChat_id user1 user2 chats :
  (getOrCreatePrivateChat user1 user2 chats).1 = chatIdOf user1 user2.
Proof.
  rewrite chatIdOf_eq. unfold getOrCreatePrivateChat. cbv zeta.
  by destruct (chats !! _).
Qed.

Lemma getOrCreatePrivateChat_present user1 user2 chats :
  is_Some (chats !! chatIdOf user1 user2) →
  (getOrCreatePrivateChat user1 user2 chats).2 = chats.
Proof.
  intros [chat Hchat]. rewrite chatIdOf_eq in Hchat.
  unfold getOrCreatePrivateChat. cbv zeta. by rewrite Hchat.
Qed.

Lemma getOrCreatePrivateChat_absent user1 user2 chats :
  chats !! chatIdOf user1 user2 = None →
  (getOrCreatePrivateChat user1 user2 chats).2
  = <[chatIdOf user1 user2 :=
        mkChat (chatIdOf user1 user2) {[user1; user2]} []]> chats.
Proof.
  intros Hchat. rewrite chatIdOf_eq in *.
  unfold getOrCreatePrivateChat. cbv zeta. rewrite Hchat. cbn [snd].
  do 2 f_equal. destruct (str_ltb user2 user1); cbn [fst snd]; [|done].
  apply (comm_L (∪)).
Qed.

(** Whether the chat existed or not, its stored log is the same after
    [getOrCreatePrivateChat] and the chat exists. *)
Lemma getOrCreatePrivateChat_log user1 user2 chats :
  ∃ chat,
    (getOrCreatePrivateChat user1 user2 chats).2 !! chatIdOf user1 user2
    = Some chat
    ∧ pc_messages chat = storedLog (chatIdOf user1 user2) chats.
Proof.
  unfold storedLog.
  destruct (chats !! chatIdOf user1 user2) as [chat|] eqn:Hchat.
  - rewrite getOrCreatePrivateChat_present by eauto. eauto.
  - rewrite getOrCreatePrivateChat_absent by done.
    rewrite lookup_insert_eq. eauto.
Qed.

Lemma addPrivateMessageToHistory_bounded chatId messageData chats :
  map_Forall (λ _ chat, (length (pc_messages chat) ≤ 100)%nat) chats →
  map_Forall (λ _ chat, (length (pc_messages chat) ≤ 100)%nat)
    (addPrivateMessageToHistory chatId messageData chats).
Proof.
  intros Hall. unfold addPrivateMessageToHistory.
  destruct (chats !! chatId) as [chat|] eqn:Hchat; [|done].
  apply map_Forall_insert_2; [|done]. cbn [pc_messages].
  specialize (Hall _ _ Hchat). cbn beta in Hall.
  destruct (Nat.ltb_spec 100 (length (pc_messages chat ++ [messageData])))
    as [Hlt|Hle]; [|done].
  rewrite length_drop, length_app. simpl. lia.
Qed.

Lemma getOrCreatePrivateChat_bounded user1 user2 chats :
  map_Forall (λ _ chat, (length (pc_messages chat) ≤ 100)%nat) chats →
  map_Forall (λ _ chat, (length (pc_messages chat) ≤ 100)%nat)
    (getOrCreatePrivateChat user1 user2 chats).2.
Proof.
  intros Hall. unfold getOrCreatePrivateChat. cbv zeta.
  destruct (chats !! _); [done|]. cbn [snd].
  apply map_Forall_insert_2; [simpl; lia | done].
Qed.

Variable hashPassword : str → str.

(** The handlers that leave the private chats alone. *)
Lemma frame_privateChats socket st :
  (∀ username password pruneNow now,
     privateChats (on_login hashPassword socket username password pruneNow now st).1
     = privateChats st)
  ∧ (∀ username password avatar,
       privateChats (on_register hashPassword socket username password avatar st).1
       = privateChats st)
  ∧ (∀ message replyTo rateNow newId stamp fallbackId pruneNow,
       privateChats (on_chat_message socket message replyTo rateNow newId stamp
                       fallbackId pruneNow st).1
       = privateChats st)
  ∧ (∀ messageId reaction username action,
       privateChats (on_message_reaction messageId reaction username action st).1
       = privateChats st)
  ∧ privateChats (on_typing socket st).1 = privateChats st
  ∧ privateChats (on_stop_typing socket st).1 = privateChats st
  ∧ (∀ target, privateChats (on_invite socket target st).1 = privateChats st)
  ∧ privateChats (on_disconnect socket st).1 = privateChats st
  ∧ (∀ now, privateChats (pruneExpiredMessages now st).1 = privateChats st).
Proof.
  repeat split; intros;
    unfold on_login, sendRecentMessages, on_register, on_chat_message,
      on_message_reaction, on_typing, on_stop_typing, on_invite, on_disconnect;
    repeat case_match;
    repeat match goal with
      | H : addMessageToHistory _ _ _ _ = _ |- _ =>
          rewrite addMessageToHistory_eq in H
      | H : pruneExpiredMessages _ _ = _ |- _ =>
          rewrite pruneExpiredMessages_eq in H
      end;
    simplify_eq/=; try done.
  by rewrite pruneExpiredMessages_eq.
Qed.

Lemma step_logsBounded e st : logsBounded st → logsBounded (step hashPassword e st).1.
Proof.
  intros Hok. unfold logsBounded in *.
  assert (Hframe := λ socket, frame_privateChats socket st).
  destruct e; cbn [step]; unfold live; try case_bool_decide; try done;
    try (destruct (Hframe socket)
           as (Hlog & Hreg & Hchat & Hreact & Hty & Hst & Hinv & _ & Hprune)).
  - pose proof (frame_privateChats socket
                  (set_sockets (sockets st ∖ {[socket]}) st))
      as (_&_&_&_&_&_&_&Hd&_).
    by rewrite Hd.
  - by rewrite Hlog.
  - by rewrite Hreg.
  - by rewrite Hchat.
  - by rewrite Hreact.
  - by rewrite Hty.
  - by rewrite Hst.
  - by rewrite Hinv.
  - unfold on_accept. destruct (JsMap.get socket (connectedUsers st)); [|done].
    pose proof (getOrCreatePrivateChat_bounded (u_username u) fromUsername
                  _ Hok) as Hnew.
    destruct (getOrCreatePrivateChat _ _ _) as [chatId chats]. done.
  - unfold on_private_message.
    destruct (JsMap.get socket (connectedUsers st)); [|done].
    cbn [fst privateChats set_privateChats].
    by apply addPrivateMessageToHistory_bounded.
  - destruct (frame_privateChats [] st) as (_&_&_&_&_&_&_&_&Hprune).
    by rewrite Hprune.
Qed.

Lemma reachable_logsBounded users st :
  reachable hashPassword users st → logsBounded st.
Proof.
  intros [es <-].
  assert (Hrun : ∀ es st0, logsBounded st0 → logsBounded (run hashPassword es st0).1).
  { clear. intros es. induction es as [|e es IH]; intros st0 Hok; [done|].
    cbn [run]. pose proof (step_logsBounded e st0 Hok) as Hstep.
    destruct (step hashPassword e st0) as [st1 out1]. specialize (IH st1 Hstep).
    by destruct (run hashPassword es st1). }
  apply Hrun. unfold logsBounded, init. simpl. apply map_Forall_empty.
Qed.

End PrivateChats.

(** The state of the example is one the server reaches. *)
Lemma chattyState_reachable : reachable sampleHash sampleAccounts chattyState.
Proof. exists chattyTrace. vm_compute. reflexivity. Qed.

(** C7, the claim as it stands fails. Bob accepts alice's invite while
    their chat holds 21 stored messages: the [private chat history] events
    both of them receive carry all 21 messages, not the last 20. *)
Lemma C7_history_not_cut_at_20 :
  let result := on_accept (lit "s2") (lit "alice") chattyState in
  ∃ messages,
    result.2
    = [ (ToSocket (lit "s1"), PrivateChatAccepted (lit "bob") (lit "pc_alice_bob"));
        (ToSocket (lit "s2"), PrivateChatHistory (lit "pc_alice_bob") messages);
        (ToSocket (lit "s1"), PrivateChatHistory (lit "pc_alice_bob") messages) ]
    ∧ length messages = 21%nat.
Proof. vm_compute. eexists. split; reflexivity. Qed.

(** C7, amended. When a user accepts an invite from an inviter who is
    online, the chat of the pair is created if absent (empty, with the two
    as participants) and left as it is otherwise; the inviter's connection
    is notified of the acceptance with the chat id; then the accepting
    connection and the inviter's connection each receive a
    [private chat history] event carrying the whole stored log of the chat
    (in a reachable state at most 100 messages: there is no cut at 20),
    which on first contact is the empty list. *)
Theorem C7_accept_replays_stored_log (socket : SocketId) (fromUsername : str)
    (st : State) (userData senderUser : UserData) :
  JsMap.get socket (connectedUsers st) = Some userData →
  findUserByName fromUsername (connectedUsers st) = Some senderUser →
  u_socketId senderUser ∈ sockets st →
  let chatId := chatIdOf (u_username userData) fromUsername in
  let log := storedLog chatId (privateChats st) in
  let result := on_accept socket fromUsername st in
  result.2
  = [ (ToSocket (u_socketId senderUser),
       PrivateChatAccepted (u_username userData) chatId);
      (ToSocket socket, PrivateChatHistory chatId log);
      (ToSocket (u_socketId senderUser), PrivateChatHistory chatId log) ]
  ∧ (privateChats st !! chatId = None →
     log = []
     ∧ result.1
       = set_privateChats
           (<[chatId := mkChat chatId {[u_username userData; fromUsername]} []]>
              (privateChats st)) st)
  ∧ (is_Some (privateChats st !! chatId) → result.1 = st)
  ∧ storedLog chatId (privateChats result.1) = log
  ∧ (∀ hashPassword users,
       reachable hashPassword users st → (length log ≤ 100)%nat).
Proof.
  intros Hget Hfind Hlive chatId log result.
  pose proof (getOrCreatePrivateChat_id (u_username userData) fromUsername
                (privateChats st)) as Hid.
  pose proof (getOrCreatePrivateChat_log (u_username userData) fromUsername
                (privateChats st)) as (chat & Hchat & Hlog).
  pose proof (getOrCreatePrivateChat_present (u_username userData) fromUsername
                (privateChats st)) as Hpresent.
  pose proof (getOrCreatePrivateChat_absent (u_username userData) fromUsername
                (privateChats st)) as Habsent.
  fold chatId in Hid, Hchat, Hlog, Hpresent, Habsent. fold log in Hlog.
  assert (Hresult : result
    = (set_privateChats
         (getOrCreatePrivateChat (u_username userData) fromUsername
            (privateChats st)).2 st,
       [ (ToSocket (u_socketId senderUser),
          PrivateChatAccepted (u_username userData) chatId);
         (ToSocket socket, PrivateChatHistory chatId log);
         (ToSocket (u_socketId senderUser), PrivateChatHistory chatId log) ])).
  { subst result. unfold on_accept. rewrite Hget.
    destruct (getOrCreatePrivateChat (u_username userData) fromUsername
                (privateChats st)) as [chatId' chats].
    cbn [fst snd] in *. subst chatId'.
    cbn [connectedUsers sockets privateChats set_privateChats].
    rewrite Hfind, Hchat, Hlog. by rewrite bool_decide_eq_true_2. }
  rewrite Hresult. cbn [fst snd]. split; [done|]. split; [|split; [|split]].
  - intros Hnone. split.
    + subst log. unfold storedLog. by rewrite Hnone.
    + by rewrite Habsent.
  - intros Hsome. rewrite Hpresent by done. by destruct st.
  - unfold storedLog at 1. cbn [privateChats set_privateChats]. by rewrite Hchat.
  - intros hashPassword users Hreach.
    apply reachable_logsBounded in Hreach. unfold logsBounded in Hreach.
    subst log. unfold storedLog.
    destruct (privateChats st !! chatId) as [c|] eqn:Hc; [|simpl; lia].
    by apply (Hreach _ _ Hc).
Qed.

Lemma C7_accept_replays_stored_log_witness :
  let st := set_privateChats ∅ chattyState in
  (on_accept (lit "s2") (lit "alice") st).2
  = [ (ToSocket (lit "s1"), PrivateChatAccepted (lit "bob") (lit "pc_alice_bob"));
      (ToSocket (lit "s2"), PrivateChatHistory (lit "pc_alice_bob") []);
      (ToSocket (lit "s1"), PrivateChatHistory (lit "pc_alice_bob") []) ].
Proof.
  intros st.
  destruct (C7_accept_replays_stored_log (lit "s2") (lit "alice") st bob alice)
    as (Hevents & _); [reflexivity | reflexivity | |].
  - apply (bool_decide_unpack _). vm_compute. exact I.
  - exact Hevents.
Defined.

(** The state of the example is one the server reaches. *)
Lemma forgedState_reachable : reachable sampleHash sampleAccounts forgedState.
Proof. exists forgedTrace. vm_compute. reflexivity. Qed.

(** C6, evaluated on server.js. Alice is no participant of the chat of bob
    and carol, yet her [private message] naming that chat is appended to
    its log and delivered to bob and echoed to her, without any error; and
    a message naming a chat that does not exist is delivered all the same.
    The handler of server.js never consults [participants]. *)
Theorem C6_private_message_not_validated :
  let sent := mkPrivateMsg (lit "5000") (lit "alice") (lit "hi") 5000
                (lit "pc_bob_carol") in
  let forged := mkPrivateMsg (lit "5000") (lit "alice") (lit "hi") 5000
                  (lit "pc_nowhere") in
  let result := on_private_message (lit "s1") (lit "pc_bob_carol")
                  (Some (lit "hi")) (lit "bob") 5000 5000 forgedState in
  let result' := on_private_message (lit "s1") (lit "pc_nowhere")
                   (Some (lit "hi")) (lit "bob") 5000 5000 forgedState in
  (∃ chat, privateChats forgedState !! lit "pc_bob_carol" = Some chat
           ∧ (lit "alice" ∉ pc_participants chat)
           ∧ pc_messages chat = [])
  ∧ result.2 = [ (ToSocket (lit "s2"), PrivateMessage sent);
                 (ToSocket (lit "s1"), PrivateMessage sent) ]
  ∧ storedLog (lit "pc_bob_carol") (privateChats result.1) = [sent]
  ∧ privateChats forgedState !! lit "pc_nowhere" = None
  ∧ result'.2 = [ (ToSocket (lit "s2"), PrivateMessage forged);
                  (ToSocket (lit "s1"), PrivateMessage forged) ].
Proof.
  cbv zeta. split; [|by vm_compute].
  eexists. split; [reflexivity|]. split; [|reflexivity].
  apply (bool_decide_unpack _). vm_compute. exact I.
Qed.

(** X23. Whatever it is sent, the [private message] handler of server.js
    emits no error: every event it emits is a delivery of the message. *)
Lemma on_private_message_never_rejects (socket : SocketId) (chatId : str)
    (message : option str) (toUsername : str) (idNow : N) (stamp : Z)
    (st : State) :
  Forall (λ e : Emit, ∃ msgData, e.2 = PrivateMessage msgData)
    (on_private_message socket chatId message toUsername idNow stamp st).2.
Proof.
  unfold on_private_message.
  destruct (JsMap.get socket (connectedUsers st)); [|constructor].
  cbn [snd]. apply Forall_app. split; [|repeat constructor; eauto].
  destruct (findUserByName _ _); [|constructor].
  case_bool_decide; repeat constructor; eauto.
Qed.

(** X22. The handler of part_001 checks the chat. Take a sender that has
    a session and is admitted by the rate limiter, and a payload whose chat
    id and recipient are not empty and whose body is a string that is not
    empty after sanitizing. The sender is answered with the single error
    [Invalid chat room] exactly when the named chat does not exist or does
    not have both the sender and the recipient among its participants; and
    then the state is as before except for the sender's rate-limit window,
    which the check at the head of the handler has charged: nothing is
    stored. *)
Theorem Legacy_on_private_message_rejects (socket : SocketId) (chatId : str)
    (body : str) (toUsername : str) (rateNow : Z) (st : State)
    (userData : UserData) :
  (checkRateLimit rateNow socket (messageLimits st)).1 = true →
  JsMap.get socket (connectedUsers st) = Some userData →
  chatId ≠ [] →
  toUsername ≠ [] →
  sanitizeMessage (Some body) ≠ [] →
  let result := Legacy.on_private_message socket chatId (Legacy.Text body)
                  toUsername rateNow st in
  let refused := [(ToSocket socket, ErrorEvent (lit "Invalid chat room"))] in
  (result.2 = refused
   ↔ ∀ chat, privateChats st !! chatId = Some chat →
             u_username userData ∉ pc_participants chat
             ∨ toUsername ∉ pc_participants chat)
  ∧ (result.2 = refused →
     result.1
     = set_messageLimits (checkRateLimit rateNow socket (messageLimits st)).2 st).
Proof.
  intros Hok Hget Hc Ht Hb result refused. subst result refused.
  unfold Legacy.on_private_message.
  destruct (checkRateLimit rateNow socket (messageLimits st)) as [ok limits].
  cbn [fst] in Hok. subst ok. cbn [negb snd].
  cbn [connectedUsers privateChats set_messageLimits]. rewrite Hget.
  assert (truthy body = true) as Hbody by (by destruct body).
  destruct chatId as [|c chatId]; [done|].
  destruct toUsername as [|t toUsername]; [done|].
  cbn [Legacy.bodyTruthy Legacy.bodyString]. rewrite Hbody.
  cbn [truthy negb orb].
  destruct (sanitizeMessage (Some body)) as [|b0 body'] eqn:Hs; [done|].
  cbn [truthy negb].
  destruct (privateChats st !! (c :: chatId)) as [chat|] eqn:Hchat.
  - destruct (bool_decide_reflect (u_username userData ∈ pc_participants chat))
      as [Hu|Hu]; cbn [negb orb].
    + destruct (bool_decide_reflect (t :: toUsername ∈ pc_participants chat))
        as [Hto|Hto]; cbn [negb fst snd].
      * split; [|intros Heq; vm_compute in Heq; discriminate].
        split; [intros Heq; vm_compute in Heq; discriminate|].
        intros Hno. destruct (Hno chat eq_refl); done.
      * split; [|done]. split; [|done]. intros _ chat' [= <-]. by right.
    + cbn [fst snd]. split; [|done]. split; [|done].
      intros _ chat' [= <-]. by left.
  - cbn [fst snd]. split; [|done]. split; [|done]. by intros _ chat' [=].
Qed.

(** In part_001 an accept never creates a chat and never sends a history
    event: the state is unchanged, and what is emitted is at most one error
    to the accepting connection. *)
Lemma Legacy_on_accept_inert (socket : SocketId) (fromUsername : str)
    (st : State) :
  (Legacy.on_accept socket fromUsername st).1 = st
  ∧ ((Legacy.on_accept socket fromUsername st).2 = []
     ∨ ∃ text, (Legacy.on_accept socket fromUsername st).2
               = [(ToSocket socket, ErrorEvent text)]).
Proof.
  unfold Legacy.on_accept. repeat case_match; cbn [fst snd]; eauto.
Qed.

(** ** Presence *)

Section Presence.

Implicit Types (st : State) (users : list (SocketId * UserData)).

Lemma JsMap_set_absent {V} socket (v : V) (m : list (list N * V)) :
  JsMap.get socket m = None → JsMap.set socket v m = m ++ [(socket, v)].
Proof.
  induction m as [|[k x] m IH]; [done|]. cbn [JsMap.get JsMap.set].
  case_bool_decide; [done|]. intros Hget. by rewrite IH.
Qed.

Lemma findUserByName_elem name users u :
  findUserByName name users = Some u →
  u ∈ JsMap.values users ∧ u_username u = name.
Proof.
  unfold findUserByName. intros Hfind. apply find_some in Hfind as [Hin Hname].
  split; [by apply list_elem_of_In|]. by apply bool_decide_eq_true in Hname.
Qed.

(** X24. server.js: a second login for an account that is already logged
    in is told so with a [login_error] and then logged in all the same
    (the [return] after the error is commented out), so two sessions hold
    the same username. *)
Lemma on_login_duplicate_session (hashPassword : str → str)
    (socket : SocketId) (username password : str) (pruneNow now : Z)
    (st : State) (user : RegUser) (other : UserData) :
  truthy username = true →
  truthy password = true →
  registeredUsers st !! username = Some user →
  passwordHash user = hashPassword password →
  JsMap.get socket (connectedUsers st) = None →
  findUserByName username (connectedUsers st) = Some other →
  let result := on_login hashPassword socket username password pruneNow now st in
  (ToSocket socket, LoginError (lit "User already logged in")) ∈ result.2
  ∧ (ToSocket socket, LoginSuccess username (r_avatar user)) ∈ result.2
  ∧ onlineNames result.1 = onlineNames st ++ [username]
  ∧ username ∈ onlineNames st.
Proof.
  intros Hu Hp Hreg Hhash Hnew Hother result. subst result. unfold on_login.
  rewrite Hu, Hp, Hreg, Hhash, Hother. cbn [negb orb].
  rewrite bool_decide_eq_true_2 by done. cbn [negb].
  rewrite JsMap_set_absent by done.
  rewrite sendRecentMessages_eq, pruneExpiredMessages_eq. cbn [fst snd].
  split; [left|]. split; [right; left|]. split.
  - unfold onlineNames, JsMap.values. cbn [connectedUsers set_recentMessages
      set_connectedUsers]. by rewrite !map_app.
  - apply findUserByName_elem in Hother as [Hin <-].
    unfold onlineNames. apply list_elem_of_In, in_map. by apply list_elem_of_In.
Qed.

End Presence.

(** Membership in an explicit list, by walking it. *)
Ltac find_elem := first [ left | right; find_elem ].

(** C5, evaluated on part_001. With alice and alice_5 online, a third
    connection asks for the name alice; the handler sees the collision,
    appends the random suffix, here 5, and registers alice_5 without
    looking whether that name is taken: two live sessions hold alice_5.
    A rename to a name in use is not checked either, and in server.js a
    second login of an account that is logged in goes through. The rest
    of the claim holds: a name that collides is replaced by a different
    one, and once its holder has disconnected the name is given out as it
    is. *)
Theorem C5_assigned_name_not_unique :
  let collision := Legacy.run collisionTrace (init ∅) in
  let rename := Legacy.run renameTrace (init ∅) in
  let rejoin := Legacy.run rejoinTrace (init ∅) in
  let twice := run sampleHash doubleLoginTrace (init sampleAccounts) in
  onlineNames collision.1 = [lit "alice"; lit "alice_5"; lit "alice_5"]
  ∧ (ToSocket (lit "s3"), UsernameAssigned (lit "alice_5")) ∈ collision.2
  ∧ ¬ NoDup (onlineNames collision.1)
  ∧ onlineNames rename.1 = [lit "alice"; lit "alice"]
  ∧ onlineNames twice.1 = [lit "alice"; lit "alice"]
  ∧ onlineNames rejoin.1 = [lit "alice"]
  ∧ (ToSocket (lit "s2"), UsernameAssigned (lit "alice")) ∈ rejoin.2.
Proof.
  cbv zeta. split; [by vm_compute|]. split.
  { vm_compute. find_elem. }
  split.
  { intros Hnd. vm_compute in Hnd.
    apply NoDup_cons in Hnd as [_ Hnd]. apply NoDup_cons in Hnd as [Hin _].
    apply Hin. left. }
  split; [by vm_compute|]. split; [by vm_compute|]. split; [by vm_compute|].
  vm_compute. find_elem.
Qed.

(** * Further properties of the code *)

(** ** Sanitizers *)

Section Sanitizers.

Implicit Types (s : str) (c : N).

Lemma dropWhile_head {A} (p : A → bool) (l : list A) :
  match dropWhile p l with
  | [] => True
  | x :: _ => p x = false
  end.
Proof.
  induction l as [|x l IH]; [done|]. cbn [dropWhile].
  destruct (p x) eqn:Hp; [done|]. done.
Qed.

Lemma dropWhile_suffix {A} (p : A → bool) (l : list A) :
  dropWhile p l `suffix_of` l.
Proof.
  induction l as [|x l IH]; [done|]. cbn [dropWhile].
  destruct (p x); [by apply suffix_cons_r | done].
Qed.

Lemma dropWhile_id {A} (p : A → bool) (l : list A) :
  match l with [] => True | x :: _ => p x = false end → dropWhile p l = l.
Proof. destruct l as [|x l]; [done|]. cbn [dropWhile]. by intros ->. Qed.

(** What [trim] returns neither starts nor ends with white space. *)
Lemma trim_ends s :
  match trim s with [] => True | c :: _ => isWhiteSpace c = false end
  ∧ match rev (trim s) with [] => True | c :: _ => isWhiteSpace c = false end.
Proof.
  unfold trim. split.
  - set (inner := dropWhile isWhiteSpace s).
    pose proof (dropWhile_head isWhiteSpace s) as Hhead. fold inner in Hhead.
    pose proof (dropWhile_suffix isWhiteSpace (rev inner)) as [pre Hpre].
    destruct (dropWhile isWhiteSpace (rev inner)) as [|y tl] eqn:Hd; [done|].
    assert (Hinner : inner = rev (y :: tl) ++ rev pre).
    { rewrite <- rev_app_distr, <- Hpre. by rewrite rev_involutive. }
    destruct (rev (y :: tl)) as [|z tl'] eqn:Hrev.
    + apply (f_equal (@length N)) in Hrev. rewrite length_rev in Hrev. done.
    + rewrite Hinner in Hhead. done.
  - rewrite rev_involutive. apply dropWhile_head.
Qed.

Lemma dropWhile_Forall {A} (P : A → Prop) (p : A → bool) (l : list A) :
  Forall P l → Forall P (dropWhile p l).
Proof.
  intros Hall. destruct (dropWhile_suffix p l) as [k Hk].
  rewrite Hk in Hall. by apply Forall_app in Hall as [_ ?].
Qed.

(** [trim] only removes code units. *)
Lemma trim_Forall (P : N → Prop) s : Forall P s → Forall P (trim s).
Proof.
  intros Hall. unfold trim.
  apply List.Forall_rev, dropWhile_Forall, List.Forall_rev.
  by apply dropWhile_Forall.
Qed.

(** A string that neither starts nor ends with white space is its own
    trim. *)
Lemma trim_id s :
  match s with [] => True | c :: _ => isWhiteSpace c = false end →
  match rev s with [] => True | c :: _ => isWhiteSpace c = false end →
  trim s = s.
Proof.
  intros Hhead Hlast. unfold trim. rewrite (dropWhile_id _ s Hhead).
  rewrite (dropWhile_id _ (rev s) Hlast). apply rev_involutive.
Qed.

(** Code units of a name the registration accepts are neither white space
    nor stripped. *)
Lemma isWordChar_plain c :
  isWordChar c = true → isWhiteSpace c = false ∧ isStripped c = false.
Proof.
  unfold isWordChar, isWhiteSpace, isStripped. intros Hw.
  assert (Hrange : (48 ≤ c ≤ 57 ∨ 65 ≤ c ≤ 90 ∨ c = 95 ∨ 97 ≤ c ≤ 122)%N).
  { repeat match goal with
      | H : _ || _ = true |- _ => apply orb_true_iff in H as [H|H]
      | H : _ && _ = true |- _ => apply andb_true_iff in H as [? ?]
      end;
      repeat match goal with
        | H : (_ <=? _)%N = true |- _ => apply N.leb_le in H
        | H : (_ =? _)%N = true |- _ => apply N.eqb_eq in H
        end; lia. }
  split.
  - apply orb_false_iff. split.
    + apply bool_decide_eq_false_2. intros Hin.
      repeat (apply elem_of_cons in Hin as [->|Hin]; [lia|]).
      by apply elem_of_nil in Hin.
    + apply andb_false_iff.
      destruct (N.leb_spec 8192 c); [|by left]. right.
      apply N.leb_gt. lia.
  - apply bool_decide_eq_false_2. intros Hin.
    repeat (apply elem_of_cons in Hin as [->|Hin]; [lia|]).
    by apply elem_of_nil in Hin.
Qed.

Lemma filter_all {A} (p : A → bool) (l : list A) :
  Forall (λ x, p x = true) l → List.filter p l = l.
Proof.
  induction 1 as [|x l Hx _ IH]; [done|]. cbn [List.filter]. by rewrite Hx, IH.
Qed.

(** A name of word characters passes [sanitizeUsername] unchanged but for
    the cut at 20 code units. *)
Lemma sanitizeUsername_word s :
  usernameRegex s = true → sanitizeUsername (Some s) = Some (take 20 s).
Proof.
  unfold usernameRegex. intros [Ht Hall]%andb_true_iff.
  pose proof (proj1 (forallb_forall _ _) Hall) as Hall'. clear Hall.
  rename Hall' into Hall.
  assert (Hplain : Forall (λ c, isWhiteSpace c = false ∧ isStripped c = false) s).
  { apply Forall_forall. intros c Hc.
    apply isWordChar_plain, Hall. by apply list_elem_of_In. }
  assert (Htrim : trim s = s).
  { apply trim_id.
    - destruct s as [|c s']; [done|]. by apply Forall_cons in Hplain as [[? _] _].
    - apply List.Forall_rev in Hplain.
      destruct (rev s) as [|c s']; [done|].
      by apply Forall_cons in Hplain as [[? _] _]. }
  unfold sanitizeUsername. rewrite Ht, Htrim.
  rewrite filter_all.
  - destruct s as [|c s']; [done|]. done.
  - eapply Forall_impl; [done|]. by intros c [_ ->].
Qed.

End Sanitizers.

(** X1. Whatever it is given, a name [sanitizeUsername] lets through is not
    empty, has at most 20 code units, holds none of the five characters the
    regular expression strips (less-than, greater-than, double quote,
    apostrophe, ampersand) and is made of code units of the input; nothing
    is let through when the input is not a string. *)
Theorem sanitizeUsername_shape (username : option str) :
  match sanitizeUsername username with
  | Some name =>
      name ≠ [] ∧ (length name ≤ 20)%nat
      ∧ Forall (λ c, c ∉ [60; 62; 34; 39; 38]%N) name
      ∧ ∃ s, username = Some s ∧ Forall (λ c, c ∈ s) name
  | None => True
  end.
Proof.
  unfold sanitizeUsername. destruct username as [s|]; [|done].
  destruct (truthy s); [|done].
  set (cleaned := take 20 (List.filter (λ c, negb (isStripped c)) (trim s))).
  destruct (truthy cleaned) eqn:Hc; [|done].
  assert (Hall : Forall (λ c, isStripped c = false ∧ c ∈ s)
                   (List.filter (λ c, negb (isStripped c)) (trim s))).
  { apply Forall_forall. intros c Hin.
    apply list_elem_of_In, filter_In in Hin as [Hin Hp].
    split; [by destruct (isStripped c)|].
    pose proof (trim_Forall (λ c, c ∈ s) s) as Htrim.
    eapply Forall_forall in Htrim; [done| |by apply list_elem_of_In].
    by apply Forall_forall. }
  apply (Forall_take _ 20%nat) in Hall. fold cleaned in Hall.
  split; [by destruct cleaned|]. split.
  { subst cleaned. rewrite length_take. lia. }
  split.
  - eapply Forall_impl; [done|]. intros c [Hs _] Hin.
    unfold isStripped in Hs. by apply bool_decide_eq_false in Hs.
  - exists s. split; [done|]. eapply Forall_impl; [done|]. by intros c [_ ?].
Qed.

(** X2. The body [sanitizeMessage] returns has at most 500 code units, does
    not start with white space, and is a prefix of the trimmed input (the
    empty body for an input that is not a string); an input whose trimmed
    form fits in 500 code units comes back trimmed at both ends. *)
Theorem sanitizeMessage_shape (message : option str) :
  (length (sanitizeMessage message) ≤ 500)%nat
  ∧ match sanitizeMessage message with
    | [] => True
    | c :: _ => isWhiteSpace c = false
    end
  ∧ match message with
    | Some s =>
        sanitizeMessage message `prefix_of` trim s
        ∧ ((length (trim s) ≤ 500)%nat →
           sanitizeMessage message = trim s
           ∧ match rev (sanitizeMessage message) with
             | [] => True
             | c :: _ => isWhiteSpace c = false
             end)
    | None => sanitizeMessage message = []
    end.
Proof.
  destruct message as [s|]; [|simpl; split; [lia|done]].
  rewrite sanitizeMessage_Some. pose proof (trim_ends s) as [Hhead Hlast].
  split; [rewrite length_take; lia|]. split.
  - destruct (trim s) as [|c t]; [done|]. done.
  - split; [apply prefix_take|]. intros Hlen.
    rewrite take_ge by done. done.
Qed.

Lemma sanitizeMessage_shape_witness :
  sanitizeMessage (Some (lit "  hello  ")) = lit "hello".
Proof.
  destruct (sanitizeMessage_shape (Some (lit "  hello  "))) as (_ & _ & _ & Hfit).
  destruct Hfit as [Heq _]; [vm_compute; lia|].
  rewrite Heq. reflexivity.
Defined.

(** ** Private chat helpers *)

Section ChatIds.

Implicit Types (a b c : str) (chats : gmap str PrivateChat).

Lemma str_ltb_asym a : ∀ b, str_ltb a b = true → str_ltb b a = false.
Proof.
  induction a as [|x a IH]; intros [|y b]; cbn [str_ltb]; try done.
  intros H. apply orb_false_iff.
  apply orb_true_iff in H as [H|H].
  - apply N.ltb_lt in H. split; [apply N.ltb_ge; lia|].
    apply andb_false_iff. left. apply N.eqb_neq. lia.
  - apply andb_true_iff in H as [Hxy H]. apply N.eqb_eq in Hxy as ->.
    split; [apply N.ltb_irrefl|]. apply andb_false_iff. right. by apply IH.
Qed.

Lemma str_ltb_total a : ∀ b, str_ltb a b = false → str_ltb b a = false → a = b.
Proof.
  induction a as [|x a IH]; intros [|y b]; cbn [str_ltb]; try done.
  intros [H1 H2]%orb_false_iff [H3 H4]%orb_false_iff.
  apply N.ltb_ge in H1, H3. assert (x = y) as -> by lia.
  rewrite N.eqb_refl in H2, H4. cbn [andb] in H2, H4. f_equal. by apply IH.
Qed.

Lemma getOrCreatePrivateChat_sym a b chats :
  getOrCreatePrivateChat a b chats = getOrCreatePrivateChat b a chats.
Proof.
  unfold getOrCreatePrivateChat.
  destruct (str_ltb b a) eqn:Hba.
  - by rewrite (str_ltb_asym b a Hba).
  - destruct (str_ltb a b) eqn:Hab; [done|].
    by rewrite (str_ltb_total a b Hab Hba).
Qed.

End ChatIds.

(** X3. The chat of a pair does not depend on who accepts whom:
    [getOrCreatePrivateChat] gives the same chat id and the same table
    for the two orders of its arguments, and calling it again, in either
    order, returns that id and changes nothing, so the stored log of the
    pair survives. *)
Theorem getOrCreatePrivateChat_symmetric_idempotent (user1 user2 : str)
    (chats : gmap str PrivateChat) :
  let created := getOrCreatePrivateChat user1 user2 chats in
  getOrCreatePrivateChat user2 user1 chats = created
  ∧ chatIdOf user2 user1 = chatIdOf user1 user2
  ∧ getOrCreatePrivateChat user1 user2 created.2 = created
  ∧ getOrCreatePrivateChat user2 user1 created.2 = created
  ∧ storedLog created.1 created.2 = storedLog created.1 chats.
Proof.
  intros created.
  assert (Hsym : getOrCreatePrivateChat user2 user1 chats = created)
    by apply getOrCreatePrivateChat_sym.
  assert (Hagain : getOrCreatePrivateChat user1 user2 created.2 = created).
  { pose proof (getOrCreatePrivateChat_id user1 user2 chats) as Hid.
    pose proof (getOrCreatePrivateChat_log user1 user2 chats) as (chat & Hc & _).
    fold created in Hid, Hc.
    pose proof (getOrCreatePrivateChat_id user1 user2 created.2) as Hid2.
    pose proof (getOrCreatePrivateChat_present user1 user2 created.2
                  (ex_intro _ chat Hc : is_Some _)) as Hsame.
    destruct (getOrCreatePrivateChat user1 user2 created.2) as [id2 chats2].
    destruct created as [id1 chats1]. cbn [fst snd] in *. by subst. }
  split; [done|]. split.
  { unfold chatIdOf. by rewrite getOrCreatePrivateChat_sym. }
  split; [done|]. split.
  { by rewrite getOrCreatePrivateChat_sym. }
  pose proof (getOrCreatePrivateChat_id user1 user2 chats) as Hid.
  pose proof (getOrCreatePrivateChat_log user1 user2 chats) as (chat & Hc & Hlog).
  fold created in Hid, Hc. rewrite Hid. rewrite <- Hlog.
  unfold storedLog. by rewrite Hc.
Qed.

(** X4. The chat id joins the two names with an underscore, and names may
    hold underscores: the pair (a_b, c) and the pair (a, b_c) get the same
    chat id whenever each pair is listed in sorted order. So once the chat
    of the first pair exists, [getOrCreatePrivateChat] for the second pair
    creates nothing and returns that chat, with the participants and the
    log of the first pair. *)
Theorem chat_id_shared_by_two_pairs (a b c : str) (chats : gmap str PrivateChat) :
  str_ltb c (a ++ lit "_" ++ b) = false →
  str_ltb (b ++ lit "_" ++ c) a = false →
  chatIdOf (a ++ lit "_" ++ b) c = chatIdOf a (b ++ lit "_" ++ c)
  ∧ (is_Some (chats !! chatIdOf (a ++ lit "_" ++ b) c) →
     getOrCreatePrivateChat a (b ++ lit "_" ++ c) chats
     = (chatIdOf (a ++ lit "_" ++ b) c, chats)).
Proof.
  intros H1 H2.
  assert (Hid : chatIdOf (a ++ lit "_" ++ b) c = chatIdOf a (b ++ lit "_" ++ c)).
  { rewrite !chatIdOf_eq, H1, H2. cbn [fst snd]. by rewrite <- !app_assoc. }
  split; [done|]. intros Hsome. rewrite Hid in Hsome.
  pose proof (getOrCreatePrivateChat_id a (b ++ lit "_" ++ c) chats) as Hfst.
  pose proof (getOrCreatePrivateChat_present a (b ++ lit "_" ++ c) chats Hsome)
    as Hsnd.
  destruct (getOrCreatePrivateChat a (b ++ lit "_" ++ c) chats) as [id chats'].
  cbn [fst snd] in *. by rewrite Hid, Hfst, Hsnd.
Qed.

Lemma chat_id_shared_by_two_pairs_witness :
  let chats := (getOrCreatePrivateChat (lit "ann_bo") (lit "cy") ∅).2 in
  getOrCreatePrivateChat (lit "ann") (lit "bo_cy") chats
  = (lit "pc_ann_bo_cy", chats)
  ∧ (∃ chat, chats !! lit "pc_ann_bo_cy" = Some chat
             ∧ pc_participants chat = {[lit "ann_bo"; lit "cy"]}).
Proof.
  intros chats.
  destruct (chat_id_shared_by_two_pairs (lit "ann") (lit "bo") (lit "cy") chats)
    as [_ Hshared]; [reflexivity | reflexivity |].
  split.
  - apply Hshared. eexists. reflexivity.
  - eexists. split; reflexivity.
Defined.

(** X5. The log of a private chat is a queue of at most 100 messages.
    Appending to a chat that does not exist changes nothing. Appending to
    a chat whose log has fewer than 100 messages adds the message at the
    end; appending to a log of 100 drops the oldest message and adds the
    new one at the end. The participants and every other chat stay as
    they are. *)
Theorem addPrivateMessageToHistory_queue (chatId : str) (messageData : PrivateMsg)
    (chats : gmap str PrivateChat) :
  let chats' := addPrivateMessageToHistory chatId messageData chats in
  (∀ other, other ≠ chatId → chats' !! other = chats !! other)
  ∧ match chats !! chatId with
    | None => chats' = chats
    | Some chat =>
        ∃ chat', chats' !! chatId = Some chat'
          ∧ pc_id chat' = pc_id chat
          ∧ pc_participants chat' = pc_participants chat
          ∧ last (pc_messages chat') = Some messageData
          ∧ ((length (pc_messages chat) < 100)%nat →
             pc_messages chat' = pc_messages chat ++ [messageData])
          ∧ (length (pc_messages chat) = 100%nat →
             pc_messages chat' = drop 1 (pc_messages chat) ++ [messageData]
             ∧ length (pc_messages chat') = 100%nat)
    end.
Proof.
  intros chats'. subst chats'. unfold addPrivateMessageToHistory.
  destruct (chats !! chatId) as [chat|] eqn:Hchat; [|done].
  split; [intros other Hne; by rewrite lookup_insert_ne|].
  eexists. split; [apply lookup_insert_eq|]. cbn [pc_id pc_participants pc_messages].
  split; [done|]. split; [done|].
  destruct (Nat.ltb_spec 100 (length (pc_messages chat ++ [messageData])))
    as [Hlt|Hle]; rewrite length_app in *; cbn [length] in *.
  - split; [|split; [lia|]].
    + destruct (pc_messages chat) as [|m0 ms]; [simpl in Hlt; lia|].
      cbn [app drop]. rewrite drop_0. apply last_snoc.
    + intros Hfull. destruct (pc_messages chat) as [|m0 ms]; [done|].
      cbn [app drop]. rewrite !drop_0. split; [done|].
      rewrite length_app. simpl in *. lia.
  - split; [apply last_snoc|]. split; [done|]. lia.
Qed.

Lemma addPrivateMessageToHistory_queue_witness :
  let new := mkPrivateMsg (lit "n") (lit "bob") (lit "late") 7 (lit "pc_alice_bob") in
  let full :=
    {[lit "pc_alice_bob" :=
        mkChat (lit "pc_alice_bob") {[lit "alice"; lit "bob"]}
          (List.map privateNote (seq 0 100))]} in
  storedLog (lit "pc_alice_bob")
    (addPrivateMessageToHistory (lit "pc_alice_bob") new full)
  = List.map privateNote (seq 1 99) ++ [new].
Proof.
  intros new full.
  destruct (addPrivateMessageToHistory_queue (lit "pc_alice_bob") new full)
    as [_ Hq].
  change (full !! lit "pc_alice_bob") with
    (Some (mkChat (lit "pc_alice_bob") {[lit "alice"; lit "bob"]}
             (List.map privateNote (seq 0 100)))) in Hq.
  destruct Hq as (chat' & Hc & _ & _ & _ & _ & Hfull).
  unfold storedLog. rewrite Hc.
  destruct Hfull as [Hlog _]; [reflexivity|]. rewrite Hlog. reflexivity.
Defined.

(** ** Invariants of the reachable states *)

Section RunInvariants.

Variable hashPassword : str → str.

Implicit Types (st : State) (e : Event) (es : list Event) (socket : SocketId).

Lemma run_invariant (P : State → Prop) :
  (∀ e st, P st → P (step hashPassword e st).1) →
  ∀ es st, P st → P (run hashPassword es st).1.
Proof.
  intros Hstep es. induction es as [|e es IH]; intros st HP; [done|].
  cbn [run]. specialize (Hstep e st HP).
  destruct (step hashPassword e st) as [st1 out1]. specialize (IH st1 Hstep).
  by destruct (run hashPassword es st1).
Qed.

(** Opening the handlers and the helpers they call. *)
Ltac open_handlers :=
  unfold on_login, sendRecentMessages, on_register, on_chat_message,
    on_message_reaction, on_typing, on_stop_typing, on_invite, on_accept,
    on_private_message, on_disconnect;
  repeat case_match;
  repeat match goal with
    | H : addMessageToHistory _ _ _ _ = _ |- _ =>
        rewrite addMessageToHistory_eq in H
    | H : pruneExpiredMessages _ _ = _ |- _ =>
        rewrite pruneExpiredMessages_eq in H
    end;
  simplify_eq/=; try done.

(** Only the [chat message] handler and the cleanup timer write the
    rate-limit table. *)
Lemma frame_messageLimits socket st :
  (∀ username password pruneNow now,
     messageLimits (on_login hashPassword socket username password pruneNow now st).1
     = messageLimits st)
  ∧ (∀ username password avatar,
       messageLimits (on_register hashPassword socket username password avatar st).1
       = messageLimits st)
  ∧ (∀ messageId reaction username action,
       messageLimits (on_message_reaction messageId reaction username action st).1
       = messageLimits st)
  ∧ messageLimits (on_typing socket st).1 = messageLimits st
  ∧ messageLimits (on_stop_typing socket st).1 = messageLimits st
  ∧ (∀ target, messageLimits (on_invite socket target st).1 = messageLimits st)
  ∧ (∀ from, messageLimits (on_accept socket from st).1 = messageLimits st)
  ∧ (∀ chatId message to idNow stamp,
       messageLimits (on_private_message socket chatId message to idNow stamp st).1
       = messageLimits st)
  ∧ messageLimits (on_disconnect socket st).1 = messageLimits st
  ∧ (∀ now, messageLimits (pruneExpiredMessages now st).1 = messageLimits st).
Proof.
  repeat split; intros; open_handlers. by rewrite pruneExpiredMessages_eq.
Qed.

(** Only [login] and [disconnect] write the presence table, and no handler
    writes the table of live sockets. *)
Lemma frame_connectedUsers socket st :
  (∀ username password avatar,
     connectedUsers (on_register hashPassword socket username password avatar st).1
     = connectedUsers st)
  ∧ (∀ message replyTo rateNow newId stamp fallbackId pruneNow,
       connectedUsers (on_chat_message socket message replyTo rateNow newId stamp
                         fallbackId pruneNow st).1
       = connectedUsers st)
  ∧ (∀ messageId reaction username action,
       connectedUsers (on_message_reaction messageId reaction username action st).1
       = connectedUsers st)
  ∧ connectedUsers (on_typing socket st).1 = connectedUsers st
  ∧ connectedUsers (on_stop_typing socket st).1 = connectedUsers st
  ∧ (∀ target, connectedUsers (on_invite socket target st).1 = connectedUsers st)
  ∧ (∀ from, connectedUsers (on_accept socket from st).1 = connectedUsers st)
  ∧ (∀ chatId message to idNow stamp,
       connectedUsers (on_private_message socket chatId message to idNow stamp st).1
       = connectedUsers st)
  ∧ (∀ now, connectedUsers (pruneExpiredMessages now st).1 = connectedUsers st).
Proof.
  repeat split; intros; open_handlers. by rewrite pruneExpiredMessages_eq.
Qed.

Lemma frame_sockets socket st :
  (∀ username password pruneNow now,
     sockets (on_login hashPassword socket username password pruneNow now st).1
     = sockets st)
  ∧ (∀ username password avatar,
       sockets (on_register hashPassword socket username password avatar st).1
       = sockets st)
  ∧ (∀ message replyTo rateNow newId stamp fallbackId pruneNow,
       sockets (on_chat_message socket message replyTo rateNow newId stamp
                  fallbackId pruneNow st).1
       = sockets st)
  ∧ (∀ messageId reaction username action,
       sockets (on_message_reaction messageId reaction username action st).1
       = sockets st)
  ∧ sockets (on_typing socket st).1 = sockets st
  ∧ sockets (on_stop_typing socket st).1 = sockets st
  ∧ (∀ target, sockets (on_invite socket target st).1 = sockets st)
  ∧ (∀ from, sockets (on_accept socket from st).1 = sockets st)
  ∧ (∀ chatId message to idNow stamp,
       sockets (on_private_message socket chatId message to idNow stamp st).1
       = sockets st)
  ∧ sockets (on_disconnect socket st).1 = sockets st
  ∧ (∀ now, sockets (pruneExpiredMessages now st).1 = sockets st).
Proof.
  repeat split; intros; open_handlers. by rewrite pruneExpiredMessages_eq.
Qed.

(** *** Rate-limit windows *)

Lemma checkRateLimit_limitsOk (now : Z) socket (limits : gmap SocketId Limit) :
  map_Forall (λ _ l, 1 ≤ count l ≤ MESSAGE_RATE_LIMIT) limits →
  map_Forall (λ _ l, 1 ≤ count l ≤ MESSAGE_RATE_LIMIT)
    (checkRateLimit now socket limits).2.
Proof.
  intros Hall. unfold checkRateLimit.
  destruct (limits !! socket) as [l|] eqn:Hl.
  - destruct (now >? resetTime l).
    + apply map_Forall_insert_2; [|done]. simpl. unfold MESSAGE_RATE_LIMIT. lia.
    + destruct (Z.geb_spec (count l) MESSAGE_RATE_LIMIT); [done|].
      apply map_Forall_insert_2; [|done]. simpl.
      specialize (Hall _ _ Hl). simpl in Hall. lia.
  - apply map_Forall_insert_2; [|done]. simpl. unfold MESSAGE_RATE_LIMIT. lia.
Qed.

Lemma step_limitsOk e st : limitsOk st → limitsOk (step hashPassword e st).1.
Proof.
  intros Hok. unfold limitsOk in *.
  assert (Hframe := λ socket, frame_messageLimits socket st).
  destruct e; cbn [step]; unfold live; try case_bool_decide; try done;
    try (destruct (Hframe socket)
           as (Hlog & Hreg & Hreact & Hty & Hst & Hinv & Hacc & Hpm & _ & _)).
  - pose proof (frame_messageLimits socket
                  (set_sockets (sockets st ∖ {[socket]}) st))
      as (_&_&_&_&_&_&_&_&Hd&_).
    by rewrite Hd.
  - by rewrite Hlog.
  - by rewrite Hreg.
  - unfold on_chat_message.
    pose proof (checkRateLimit_limitsOk rateNow socket _ Hok) as Hnew.
    destruct (checkRateLimit rateNow socket (messageLimits st)) as [ok limits].
    cbn [snd] in Hnew. destruct ok; cbn [negb]; [|done].
    destruct (negb (truthy (sanitizeMessage message))); [done|].
    rewrite addMessageToHistory_eq. done.
  - by rewrite Hreact.
  - by rewrite Hty.
  - by rewrite Hst.
  - by rewrite Hinv.
  - by rewrite Hacc.
  - by rewrite Hpm.
  - unfold cleanupRateLimits. cbn [fst messageLimits set_messageLimits].
    intros k l Hk.
    apply map_lookup_filter_Some in Hk as [Hk _].
    apply map_lookup_filter_Some in Hk as [Hk _]. by apply (Hok k l).
  - destruct (frame_messageLimits [] st) as (_&_&_&_&_&_&_&_&_&Hprune).
    by rewrite Hprune.
Qed.

(** *** Length of the history *)

Lemma updateMessageReactions_length messageId reaction username action
    (h : list Message) :
  length (updateMessageReactions messageId reaction username action h).2
  = length h.
Proof.
  unfold updateMessageReactions. destruct (list_find _ h) as [[i m]|]; [|done].
  destruct (applyAction _ _ _ _). cbn [snd]. apply length_insert.
Qed.

Lemma step_history_bounded e st :
  (length (recentMessages st) ≤ MAX_MESSAGES)%nat →
  (length (recentMessages (step hashPassword e st).1) ≤ MAX_MESSAGES)%nat.
Proof.
  intros Hok.
  assert (Hframe := λ socket, frame_recentMessages hashPassword socket st).
  assert (Hsub : ∀ st', recentMessages st' `sublist_of` recentMessages st →
                        (length (recentMessages st') ≤ MAX_MESSAGES)%nat).
  { intros st' Hs. apply sublist_length in Hs. lia. }
  destruct e; cbn [step]; unfold live; try case_bool_decide; try done;
    try (destruct (Hframe socket) as (Hreg & Hty & Hst & Hinv & Hacc & Hpm & _)).
  - pose proof (frame_recentMessages hashPassword socket
                  (set_sockets (sockets st ∖ {[socket]}) st)) as (_&_&_&_&_&_&Hd).
    by rewrite Hd.
  - unfold on_login. repeat case_match; try done;
      match goal with
      | H : sendRecentMessages _ _ _ _ = _ |- _ =>
          rewrite sendRecentMessages_eq in H; injection H as <- <-
      end;
      cbn [fst];
      (etrans; [apply sublist_length, pruneExpiredMessages_sublist|done]).
  - by rewrite Hreg.
  - unfold on_chat_message. repeat case_match; try done;
      match goal with
      | H : addMessageToHistory _ _ _ _ = _ |- _ =>
          rewrite addMessageToHistory_eq in H; injection H as <- <- <-
      end;
      cbn [fst recentMessages set_recentMessages]; unfold capped;
      rewrite length_drop; lia.
  - unfold on_message_reaction. destruct (_ || _); [done|].
    pose proof (updateMessageReactions_length messageId reaction username action
                  (recentMessages st)) as Hlen.
    destruct (updateMessageReactions _ _ _ _ _) as [[[]|] h];
      cbn [fst snd recentMessages set_recentMessages] in *; lia.
  - by rewrite Hty.
  - by rewrite Hst.
  - by rewrite Hinv.
  - by rewrite Hacc.
  - by rewrite Hpm.
  - apply Hsub, pruneExpiredMessages_sublist.
Qed.

End RunInvariants.

(** X6. In every state the server reaches, every rate-limit window has
    counted at least 1 and at most 10 calls: a refused call is never
    counted, and neither the cleanup timer nor any other handler changes a
    count. *)
Theorem rate_limit_counts_bounded (hashPassword : str → str)
    (users : gmap str RegUser) (es : list Event) (socket : SocketId) (l : Limit) :
  messageLimits (run hashPassword es (init users)).1 !! socket = Some l →
  1 ≤ count l ≤ 10.
Proof.
  intros Hl.
  pose proof (run_invariant hashPassword limitsOk (step_limitsOk hashPassword)
                es (init users)) as Hinv.
  apply (Hinv (map_Forall_empty _) socket l Hl).
Qed.

Lemma rate_limit_counts_bounded_witness :
  messageLimits (run sampleHash burstTrace (init sampleAccounts)).1 !! lit "s1"
  = Some (mkLimit 10 60000)
  ∧ 1 ≤ 10 ≤ 10.
Proof.
  assert (Hl : messageLimits (run sampleHash burstTrace (init sampleAccounts)).1
               !! lit "s1" = Some (mkLimit 10 60000)) by (vm_compute; reflexivity).
  split; [exact Hl|].
  exact (rate_limit_counts_bounded sampleHash sampleAccounts burstTrace (lit "s1")
           (mkLimit 10 60000) Hl).
Defined.

(** X7. In every state the server reaches the stored history holds at most
    200 messages: an append cuts it back to 200, and pruning, reactions and
    every other handler never make it longer. *)
Theorem history_never_exceeds_cap (hashPassword : str → str)
    (users : gmap str RegUser) (es : list Event) :
  (length (recentMessages (run hashPassword es (init users)).1) ≤ 200)%nat.
Proof.
  apply (run_invariant hashPassword
           (λ st, (length (recentMessages st) ≤ MAX_MESSAGES)%nat)
           (step_history_bounded hashPassword)).
  simpl. unfold MAX_MESSAGES. lia.
Qed.

(** ** The presence table *)

Section Sessions.

Context {V : Type}.

Implicit Types (k : str) (v : V) (m : list (str * V)).

Lemma JsMap_get_None k m : JsMap.get k m = None ↔ k ∉ List.map fst m.
Proof.
  induction m as [|[k' v'] m IH]; cbn [JsMap.get List.map fst].
  - split; [intros _ ?%elem_of_nil; done | done].
  - rewrite not_elem_of_cons. case_bool_decide as Hk.
    + split; [done | by intros [? _]].
    + rewrite IH. split; [by intros ? | by intros [_ ?]].
Qed.

Lemma JsMap_get_Some k m v : JsMap.get k m = Some v → (k, v) ∈ m.
Proof.
  induction m as [|[k' v'] m IH]; cbn [JsMap.get]; [done|].
  case_bool_decide as Hk; [intros [= ->]; subst; left | right; auto].
Qed.

Lemma JsMap_set_keys_present k v m :
  is_Some (JsMap.get k m) →
  List.map fst (JsMap.set k v m) = List.map fst m.
Proof.
  induction m as [|[k' v'] m IH]; cbn [JsMap.get JsMap.set List.map fst].
  - by intros [? ?].
  - case_bool_decide; cbn [List.map fst]; [by subst|]. intros H'. by rewrite IH.
Qed.

Lemma JsMap_set_elem k v m k' v' :
  (k', v') ∈ JsMap.set k v m → (k', v') = (k, v) ∨ (k', v') ∈ m.
Proof.
  induction m as [|[k0 v0] m IH]; cbn [JsMap.set].
  - intros ->%list_elem_of_singleton. by left.
  - case_bool_decide.
    + intros [->|Hin]%elem_of_cons; [by left | right; by right].
    + intros [->|Hin]%elem_of_cons; [right; left|].
      destruct (IH Hin) as [?|?]; [by left | right; by right].
Qed.

Lemma JsMap_delete_sublist k m : JsMap.delete k m `sublist_of` m.
Proof.
  induction m as [|[k' v'] m IH]; cbn [JsMap.delete]; [done|].
  case_bool_decide; [by apply sublist_cons | by apply sublist_skip].
Qed.

Lemma JsMap_delete_keys k m :
  NoDup (List.map fst m) → k ∉ List.map fst (JsMap.delete k m).
Proof.
  induction m as [|[k' v'] m IH]; cbn [JsMap.delete List.map fst].
  - intros _ ?%elem_of_nil. done.
  - intros [Hk' Hnd]%NoDup_cons. case_bool_decide; [by subst|].
    cbn [List.map fst]. apply not_elem_of_cons. split; [done | by apply IH].
Qed.

Lemma JsMap_get_delete_ne k k' m :
  k' ≠ k → JsMap.get k' (JsMap.delete k m) = JsMap.get k' m.
Proof.
  intros Hne. induction m as [|[k0 v0] m IH]; cbn [JsMap.delete JsMap.get]; [done|].
  case_bool_decide as Hk0.
  - subst. by rewrite bool_decide_eq_false_2.
  - cbn [JsMap.get]. by rewrite IH.
Qed.

Lemma sublist_map_fst (m1 m2 : list (str * V)) :
  m1 `sublist_of` m2 → List.map fst m1 `sublist_of` List.map fst m2.
Proof.
  induction 1; cbn [List.map]; [done | by apply sublist_skip | by apply sublist_cons].
Qed.

End Sessions.

Section SessionInvariant.

Variable hashPassword : str → str.

Implicit Types (st : State) (socket : SocketId).

Lemma on_login_sessions socket username password (pruneNow now : Z) st :
  let result := on_login hashPassword socket username password pruneNow now st in
  sockets result.1 = sockets st
  ∧ (connectedUsers result.1 = connectedUsers st
     ∨ ∃ avatar,
         connectedUsers result.1
         = JsMap.set socket (mkUser username avatar socket) (connectedUsers st)).
Proof.
  unfold on_login. repeat case_match; cbn [fst]; try (split; [done|by left]).
  all: match goal with
       | H : sendRecentMessages _ _ _ _ = _ |- _ =>
           rewrite sendRecentMessages_eq, pruneExpiredMessages_eq in H;
           injection H as <- <-
       end.
  all: split; [done|]; right; eauto.
Qed.

Lemma sessionsOk_set socket (u : UserData) st st' :
  sessionsOk st →
  socket ∈ sockets st →
  u_socketId u = socket →
  sockets st' = sockets st →
  connectedUsers st' = JsMap.set socket u (connectedUsers st) →
  sessionsOk st'.
Proof.
  intros [Hnd Hall] Hlive Hu Hs Hc. unfold sessionsOk. rewrite Hs, Hc. split.
  - destruct (JsMap.get socket (connectedUsers st)) as [old|] eqn:Hget.
    + rewrite JsMap_set_keys_present by eauto. done.
    + rewrite JsMap_set_absent by done. rewrite map_app. cbn [List.map fst].
      apply NoDup_app. split; [done|]. split; [|apply NoDup_singleton].
      intros k Hk ->%list_elem_of_singleton.
      by apply JsMap_get_None in Hget.
  - intros k v [[= -> ->]|Hin]%JsMap_set_elem; [done | by apply Hall].
Qed.

Lemma sessionsOk_same st st' :
  sessionsOk st →
  sockets st' = sockets st →
  connectedUsers st' = connectedUsers st →
  sessionsOk st'.
Proof. intros Hok Hs Hc. unfold sessionsOk. by rewrite Hs, Hc. Qed.

Lemma step_sessionsOk e st : sessionsOk st → sessionsOk (step hashPassword e st).1.
Proof.
  intros Hok.
  assert (Hc := λ socket, frame_connectedUsers hashPassword socket st).
  assert (Hs := λ socket, frame_sockets hashPassword socket st).
  destruct e; cbn [step]; unfold live; try case_bool_decide; try done;
    try (destruct (Hc socket)
           as (Hc1 & Hc2 & Hc3 & Hc4 & Hc5 & Hc6 & Hc7 & Hc8 & Hc9));
    try (destruct (Hs socket)
           as (_ & Hs1 & Hs2 & Hs3 & Hs4 & Hs5 & Hs6 & Hs7 & Hs8 & _ & Hs9)).
  - (* connect *)
    destruct Hok as [Hnd Hall]. split; [done|]. intros k u Hin.
    destruct (Hall k u Hin) as [? ?]. split; [done|].
    cbn [fst sockets set_sockets]. apply elem_of_union. by right.
  - (* disconnect *)
    destruct Hok as [Hnd Hall]. unfold on_disconnect.
    cbn [connectedUsers set_sockets].
    destruct (JsMap.get socket (connectedUsers st)) as [user|] eqn:Hget;
      cbn [fst]; unfold sessionsOk;
      cbn [connectedUsers sockets set_sockets set_connectedUsers set_typingUsers].
    + split.
      * eapply sublist_NoDup; [done|]. apply sublist_map_fst, JsMap_delete_sublist.
      * intros k u Hin.
        assert (k ≠ socket).
        { intros ->. apply (JsMap_delete_keys socket (connectedUsers st) Hnd).
          apply list_elem_of_In, in_map_iff. exists (socket, u).
          split; [done | by apply list_elem_of_In]. }
        eapply elem_of_sublist in Hin; [|apply JsMap_delete_sublist].
        destruct (Hall k u Hin) as [? ?]. split; [done|].
        apply elem_of_difference. split; [done|].
        by intros ?%elem_of_singleton.
    + split; [done|]. intros k u Hin.
      assert (k ≠ socket).
      { intros ->. apply JsMap_get_None in Hget. apply Hget.
        apply list_elem_of_In, in_map_iff. exists (socket, u).
        split; [done | by apply list_elem_of_In]. }
      destruct (Hall k u Hin) as [? ?]. split; [done|].
      apply elem_of_difference. split; [done|]. by intros ?%elem_of_singleton.
  - (* login *)
    destruct (on_login_sessions socket username password pruneNow now st)
      as [Hsock [Hsame|[avatar Hset]]].
    + by eapply sessionsOk_same.
    + by eapply (sessionsOk_set socket (mkUser username avatar socket)).
  - eapply sessionsOk_same; [done | apply Hs1 | apply Hc1].
  - eapply sessionsOk_same; [done | apply Hs2 | apply Hc2].
  - eapply sessionsOk_same; [done | apply Hs3 | apply Hc3].
  - eapply sessionsOk_same; [done | apply Hs4 | apply Hc4].
  - eapply sessionsOk_same; [done | apply Hs5 | apply Hc5].
  - eapply sessionsOk_same; [done | apply Hs6 | apply Hc6].
  - eapply sessionsOk_same; [done | apply Hs7 | apply Hc7].
  - eapply sessionsOk_same; [done | apply Hs8 | apply Hc8].
  - destruct (frame_connectedUsers hashPassword [] st) as (_&_&_&_&_&_&_&_&Hcp).
    destruct (frame_sockets hashPassword [] st) as (_&_&_&_&_&_&_&_&_&_&Hsp).
    eapply sessionsOk_same; [done | apply Hsp | apply Hcp].
Qed.

Lemma reachable_sessionsOk users st :
  reachable hashPassword users st → sessionsOk st.
Proof.
  intros [es <-]. apply (run_invariant hashPassword sessionsOk step_sessionsOk).
  split; [constructor | by intros k u ?%elem_of_nil].
Qed.

End SessionInvariant.

(** X8. In every state the server reaches the presence table is well
    formed: no socket has two sessions, every session records the socket it
    is stored under, and every session belongs to a live socket (the
    session of a socket is removed when the socket disconnects). *)
Theorem presence_table_well_formed (hashPassword : str → str)
    (users : gmap str RegUser) (es : list Event) :
  sessionsOk (run hashPassword es (init users)).1.
Proof. apply (reachable_sessionsOk hashPassword users). by exists es. Qed.

(** X9. When a socket with a well-formed presence table disconnects, its
    session is gone and the socket is no longer live, the sessions of all
    other sockets are as before, and its rate-limit window is still in the
    table (the [disconnect] handler of server.js does not touch it): it is
    the next run of the cleanup timer, whatever the time, that removes
    the window. *)
Theorem disconnect_then_cleanup (hashPassword : str → str) (socket : SocketId)
    (st : State) (now : Z) :
  sessionsOk st →
  socket ∈ sockets st →
  let st1 := (step hashPassword (Disconnect socket) st).1 in
  let st2 := (step hashPassword (CleanupTick now) st1).1 in
  JsMap.get socket (connectedUsers st1) = None
  ∧ (socket ∉ sockets st1)
  ∧ (∀ other, other ≠ socket →
       JsMap.get other (connectedUsers st1) = JsMap.get other (connectedUsers st))
  ∧ messageLimits st1 = messageLimits st
  ∧ messageLimits st2 !! socket = None.
Proof.
  intros [Hnd _] Hlive st1 st2.
  assert (Hst1 : st1 = (on_disconnect socket
                          (set_sockets (sockets st ∖ {[socket]}) st)).1).
  { subst st1. cbn [step]. unfold live. by rewrite bool_decide_eq_true_2. }
  assert (Hget : JsMap.get socket (connectedUsers st1) = None).
  { rewrite Hst1. unfold on_disconnect. cbn [connectedUsers set_sockets].
    destruct (JsMap.get socket (connectedUsers st)) eqn:Hg; cbn [fst]; [|done].
    cbn [connectedUsers set_connectedUsers set_typingUsers].
    apply JsMap_get_None. by apply JsMap_delete_keys. }
  split; [done|]. split; [|split; [|split]].
  - rewrite Hst1. unfold on_disconnect. cbn [connectedUsers set_sockets].
    destruct (JsMap.get socket (connectedUsers st)); cbn [fst];
      cbn [sockets set_sockets set_connectedUsers set_typingUsers];
      intros [_ Hno]%elem_of_difference; apply Hno; by apply elem_of_singleton.
  - intros other Hne. rewrite Hst1. unfold on_disconnect.
    cbn [connectedUsers set_sockets].
    destruct (JsMap.get socket (connectedUsers st)); cbn [fst]; [|done].
    cbn [connectedUsers set_connectedUsers set_typingUsers].
    by apply JsMap_get_delete_ne.
  - rewrite Hst1. unfold on_disconnect. cbn [connectedUsers set_sockets].
    by destruct (JsMap.get socket (connectedUsers st)).
  - subst st2. cbn [step fst]. unfold cleanupRateLimits.
    cbn [messageLimits set_messageLimits].
    apply map_lookup_filter_None. right. intros l _ Hhas.
    cbn [fst] in Hhas. unfold JsMap.has in Hhas. by rewrite Hget in Hhas.
Qed.

Lemma disconnect_then_cleanup_witness :
  let st := (run sampleHash burstTrace (init sampleAccounts)).1 in
  let st1 := (step sampleHash (Disconnect (lit "s1")) st).1 in
  messageLimits st1 !! lit "s1" = Some (mkLimit 10 60000)
  ∧ messageLimits (step sampleHash (CleanupTick 5) st1).1 !! lit "s1" = None.
Proof.
  intros st st1.
  destruct (disconnect_then_cleanup sampleHash (lit "s1") st 5)
    as (_ & _ & _ & Hsame & Hgone).
  - apply (reachable_sessionsOk sampleHash sampleAccounts). by exists burstTrace.
  - apply (bool_decide_unpack _). vm_compute. exact I.
  - split; [|exact Hgone]. fold st1 in Hsame. rewrite Hsame.
    vm_compute. reflexivity.
Defined.

(** X10. The cleanup timer keeps exactly the windows that are both open
    (the time has not passed their reset time; a window read at its reset
    time is kept) and owned by a socket that has a session; it changes
    nothing in a window it keeps and nothing else in the state. *)
Theorem cleanupRateLimits_keeps_open_windows_of_sessions (now : Z) (st : State) :
  let st' := cleanupRateLimits now st in
  st' = set_messageLimits (messageLimits st') st
  ∧ ∀ socket l,
      messageLimits st' !! socket = Some l
      ↔ messageLimits st !! socket = Some l
        ∧ now ≤ resetTime l
        ∧ is_Some (JsMap.get socket (connectedUsers st)).
Proof.
  intros st'. split; [done|]. intros socket l. subst st'.
  unfold cleanupRateLimits. cbn [messageLimits set_messageLimits].
  rewrite !map_lookup_filter_Some. cbn [fst snd]. unfold JsMap.has. split.
  - intros [[Hl Hopen] Hhas]. split; [done|]. split; [lia|].
    by destruct (JsMap.get socket (connectedUsers st)).
  - intros (Hl & Hopen & [u Hu]). split; [split; [done|lia]|]. by rewrite Hu.
Qed.

(** ** More on the reaction store *)

Section ReactionArrays.

Implicit Types (r : Reactions) (u k reaction username : str) (us : list str).

Lemma withoutUser_nonempty username us us' :
  us ≠ [] → withoutUser username us = Some us' → us' ≠ [].
Proof.
  unfold withoutUser. intros Hus.
  destruct (indexOf username us) as [i|]; [|by intros [= <-]].
  destruct (delete i us) as [|x l]; [done|]. by intros [= <-].
Qed.

Lemma addReaction_nonempty reaction username r :
  arraysNonEmpty r → arraysNonEmpty (addReaction reaction username r).2.
Proof.
  intros Hne.
  assert (Hne1 : arraysNonEmpty (omap (withoutUser username) r)).
  { intros k us Hk. rewrite omap_withoutUser_lookup in Hk.
    destruct (r !! k) as [vs|] eqn:Hr; [|done]. simpl in Hk.
    eapply withoutUser_nonempty; [|done]. by eapply Hne. }
  unfold addReaction.
  destruct (omap (withoutUser username) r !! reaction) as [us|] eqn:Hr.
  - destruct (bool_decide (username ∈ us)); [done|]. cbn [snd].
    intros k vs Hk. destruct (decide (k = reaction)) as [->|Hkr].
    + rewrite lookup_insert_eq in Hk. injection Hk as <-. by destruct us.
    + rewrite lookup_insert_ne in Hk by done. by eapply Hne1.
  - destruct (inheritedKey reaction); [done|]. cbn [snd].
    intros k vs Hk. destruct (decide (k = reaction)) as [->|Hkr].
    + rewrite lookup_insert_eq in Hk. by injection Hk as <-.
    + rewrite lookup_insert_ne in Hk by done. by eapply Hne1.
Qed.

Lemma removeReaction_nonempty reaction username r :
  arraysNonEmpty r → arraysNonEmpty (removeReaction reaction username r).2.
Proof.
  intros Hne. unfold removeReaction.
  destruct (r !! reaction) as [us|] eqn:Hr; [|by destruct (inheritedKey reaction)].
  destruct (indexOf username us) as [i|]; [|done].
  destruct (delete i us) as [|x l] eqn:Hdel; cbn [snd].
  - intros k vs Hk. apply lookup_delete_Some in Hk as [_ Hk]. by eapply Hne.
  - intros k vs Hk. destruct (decide (k = reaction)) as [->|Hkr].
    + rewrite lookup_insert_eq in Hk. by injection Hk as <-.
    + rewrite lookup_insert_ne in Hk by done. by eapply Hne.
Qed.

Lemma applyAction_nonempty action reaction username r :
  arraysNonEmpty r → arraysNonEmpty (applyAction action reaction username r).2.
Proof.
  intros Hne. unfold applyAction.
  destruct (bool_decide (action = lit "add")); [by apply addReaction_nonempty|].
  destruct (bool_decide (action = lit "remove"));
    [by apply removeReaction_nonempty | done].
Qed.

Lemma updateMessageReactions_nonempty messageId reaction username action
    (h : list Message) :
  Forall (λ m, arraysNonEmpty (m_reactions m)) h →
  Forall (λ m, arraysNonEmpty (m_reactions m))
    (updateMessageReactions messageId reaction username action h).2.
Proof.
  intros Hall. unfold updateMessageReactions.
  destruct (list_find _ h) as [[i m]|] eqn:Hfind; [|done].
  apply list_find_Some in Hfind as (Hi & _ & _).
  pose proof (applyAction_nonempty action reaction username (m_reactions m)) as Hok.
  destruct (applyAction action reaction username (m_reactions m)) as [res r'].
  cbn [snd] in *. apply Forall_insert; [done|]. cbn [m_reactions set_reactions].
  apply Hok. eapply Forall_forall in Hall; [done|].
  apply list_elem_of_lookup. eauto.
Qed.

Variable hashPassword : str → str.

Lemma step_arraysNonEmpty (e : Event) (st : State) :
  Forall (λ m, arraysNonEmpty (m_reactions m)) (recentMessages st) →
  Forall (λ m, arraysNonEmpty (m_reactions m))
    (recentMessages (step hashPassword e st).1).
Proof.
  intros Hok.
  assert (Hframe := λ socket, frame_recentMessages hashPassword socket st).
  assert (Hsub : ∀ h, h `sublist_of` recentMessages st →
                      Forall (λ m, arraysNonEmpty (m_reactions m)) h).
  { intros h Hs. apply Forall_forall. intros m Hm.
    eapply Forall_forall in Hok; [done|]. by eapply elem_of_sublist. }
  destruct e; cbn [step]; unfold live; try case_bool_decide; try done;
    try (destruct (Hframe socket) as (Hreg & Hty & Hst & Hinv & Hacc & Hpm & _)).
  - pose proof (frame_recentMessages hashPassword socket
                  (set_sockets (sockets st ∖ {[socket]}) st)) as (_&_&_&_&_&_&Hd).
    by rewrite Hd.
  - unfold on_login. repeat case_match; try done;
      match goal with
      | H : sendRecentMessages _ _ _ _ = _ |- _ =>
          rewrite sendRecentMessages_eq in H; injection H as <- <-
      end;
      cbn [fst]; apply Hsub;
      (etrans; [apply pruneExpiredMessages_sublist | done]).
  - by rewrite Hreg.
  - unfold on_chat_message. repeat case_match; try done;
      match goal with
      | H : addMessageToHistory _ _ _ _ = _ |- _ =>
          rewrite addMessageToHistory_eq in H; injection H as <- <- <-
      end;
      cbn [fst recentMessages set_recentMessages]; unfold capped;
      apply Forall_forall; intros x Hx;
      (eapply elem_of_sublist in Hx;
         [|etrans; [apply sublist_drop | apply fold_spliceById_sublist]]);
      (apply elem_of_app in Hx as [Hx|Hx];
         [by eapply Forall_forall in Hok|]);
      apply list_elem_of_singleton in Hx as ->; unfold completed;
      case_match; cbn [m_reactions]; intros k us Hk;
      by rewrite lookup_empty in Hk.
  - unfold on_message_reaction. destruct (_ || _); [done|].
    pose proof (updateMessageReactions_nonempty messageId reaction username
                  action (recentMessages st) Hok) as Hupd.
    destruct (updateMessageReactions _ _ _ _ _) as [[[]|] h]; done.
  - by rewrite Hty.
  - by rewrite Hst.
  - by rewrite Hinv.
  - by rewrite Hacc.
  - by rewrite Hpm.
  - apply Hsub, pruneExpiredMessages_sublist.
Qed.

End ReactionArrays.

(** X11. In every state the server reaches, no stored message has a
    reaction symbol with an empty user array: an entry whose last user is
    taken out is deleted, by [add] and by [remove] alike, and a new entry
    is created with its first user. *)
Theorem reaction_arrays_never_empty (hashPassword : str → str)
    (users : gmap str RegUser) (es : list Event) :
  Forall (λ m, arraysNonEmpty (m_reactions m))
    (recentMessages (run hashPassword es (init users)).1).
Proof.
  apply (run_invariant hashPassword
           (λ st, Forall (λ m, arraysNonEmpty (m_reactions m)) (recentMessages st))
           (step_arraysNonEmpty hashPassword)).
  constructor.
Qed.

(** X12. The [remove] branch touches the named symbol only. For a symbol
    that has an entry it returns true, leaves every other entry as it is,
    and, when the array has no name twice, leaves the entry without the
    user and with all its other users, deleting the entry exactly when the
    user was its only one; removing a reaction the user does not hold
    changes nothing. For a symbol without entry nothing changes either:
    the call returns true, except for a symbol that names a member
    inherited from Object.prototype (constructor, toString and the like),
    where reading the entry yields that member and the call throws. *)
Theorem removeReaction_only_named_symbol (reaction username : str)
    (r : Reactions) :
  let result := removeReaction reaction username r in
  (∀ k, k ≠ reaction → result.2 !! k = r !! k)
  ∧ match r !! reaction with
    | Some holders =>
        result.1 = Returned true
        ∧ (username ∉ holders → result.2 = r)
        ∧ (NoDup holders →
           (∀ us, result.2 !! reaction = Some us →
                  (username ∉ us)
                  ∧ (∀ v, v ≠ username → v ∈ holders → v ∈ us))
           ∧ (username ∈ holders →
              (result.2 !! reaction = None ↔ holders = [username])))
    | None =>
        result = (if inheritedKey reaction then Threw else Returned true, r)
    end.
Proof.
  intros result. subst result. unfold removeReaction.
  destruct (r !! reaction) as [holders|] eqn:Hr.
  - assert (Hlook :
      (match indexOf username holders with
       | Some idx =>
           match delete idx holders with
           | [] => (Returned true, delete reaction r)
           | x :: l => (Returned true, <[reaction := x :: l]> r)
           end
       | None => (Returned true, r)
       end).2 !! reaction = withoutUser username holders).
    { unfold withoutUser. destruct (indexOf username holders) as [i|]; [|done].
      destruct (delete i holders); cbn [snd];
        [by rewrite lookup_delete_eq | by rewrite lookup_insert_eq]. }
    split; [|split; [|split]].
    + intros k Hk. destruct (indexOf username holders) as [i|]; [|done].
      destruct (delete i holders); cbn [snd];
        [by rewrite lookup_delete_ne | by rewrite lookup_insert_ne].
    + destruct (indexOf username holders) as [i|]; [|done].
      by destruct (delete i holders).
    + intros Hno. destruct (indexOf username holders) as [i|] eqn:Hi; [|done].
      apply indexOf_Some in Hi. exfalso. apply Hno.
      apply list_elem_of_lookup. eauto.
    + intros Hnd. split.
      * intros us Hus. rewrite Hlook in Hus. split.
        -- eapply withoutUser_removes; eauto.
        -- intros v Hv Hin. eapply withoutUser_keeps; eauto.
      * intros _. rewrite Hlook. apply withoutUser_None.
  - split; by destruct (inheritedKey reaction).
Qed.

Lemma removeReaction_only_named_symbol_witness :
  (removeReaction thumbsUp (lit "bob")
     {[thumbsUp := [lit "ann"; lit "bob"]; redHeart := [lit "cy"]]}).2
  !! redHeart = Some [lit "cy"]
  ∧ removeReaction thumbsUp (lit "dan")
      {[thumbsUp := [lit "ann"; lit "bob"]; redHeart := [lit "cy"]]}
    = (Returned true,
       {[thumbsUp := [lit "ann"; lit "bob"]; redHeart := [lit "cy"]]})
  ∧ removeReaction (lit "toString") (lit "bob")
      {[thumbsUp := [lit "ann"; lit "bob"]; redHeart := [lit "cy"]]}
    = (Threw, {[thumbsUp := [lit "ann"; lit "bob"]; redHeart := [lit "cy"]]}).
Proof.
  pose proof (removeReaction_only_named_symbol thumbsUp (lit "bob")
    {[thumbsUp := [lit "ann"; lit "bob"]; redHeart := [lit "cy"]]}) as [Hother _].
  pose proof (removeReaction_only_named_symbol thumbsUp (lit "dan")
    {[thumbsUp := [lit "ann"; lit "bob"]; redHeart := [lit "cy"]]}) as [_ Hheld].
  pose proof (removeReaction_only_named_symbol (lit "toString") (lit "bob")
    {[thumbsUp := [lit "ann"; lit "bob"]; redHeart := [lit "cy"]]}) as [_ Hnone].
  split; [|split].
  - rewrite Hother; [reflexivity | discriminate].
  - change (({[thumbsUp := [lit "ann"; lit "bob"]; redHeart := [lit "cy"]]}
              : Reactions) !! thumbsUp)
      with (Some [lit "ann"; lit "bob"]) in Hheld.
    destruct Hheld as (Hret & Hsame & _).
    apply injective_projections; [exact Hret|]. apply Hsame.
    apply (bool_decide_unpack _). vm_compute. exact I.
  - change (({[thumbsUp := [lit "ann"; lit "bob"]; redHeart := [lit "cy"]]}
              : Reactions) !! lit "toString")
      with (@None (list str)) in Hnone.
    etrans; [exact Hnone|]. reflexivity.
Defined.

Section AddTwice.

Implicit Types (r : Reactions) (u k reaction username : str) (us : list str).

Lemma indexOf_cons_ne username x us :
  x ≠ username → indexOf username (x :: us) = S <$> indexOf username us.
Proof.
  intros Hne. unfold indexOf. cbn [list_find]. rewrite decide_False by done.
  by destruct (list_find _ us) as [[i y]|].
Qed.

Lemma withoutUser_absent username us :
  username ∉ us → withoutUser username us = Some us.
Proof.
  intros Hno. unfold withoutUser.
  destruct (indexOf username us) as [i|] eqn:Hi; [|done].
  apply indexOf_Some in Hi. exfalso. apply Hno. apply list_elem_of_lookup. eauto.
Qed.

(** Taking out a user who was appended last gives the array back. *)
Lemma withoutUser_snoc username us :
  username ∉ us → us ≠ [] → withoutUser username (us ++ [username]) = Some us.
Proof.
  intros Hno Hne. unfold withoutUser.
  assert (Hidx : indexOf username (us ++ [username]) = Some (length us)).
  { clear Hne. induction us as [|x us IH].
    - unfold indexOf. cbn [app list_find]. by rewrite decide_True.
    - apply not_elem_of_cons in Hno as [Hx Hno]. cbn [app].
      rewrite indexOf_cons_ne by done. by rewrite IH. }
  rewrite Hidx.
  assert (Hdel : delete (length us) (us ++ [username]) = us).
  { clear. induction us as [|x us IH]; [done|]. cbn [app length]. simpl.
    f_equal. exact IH. }
  rewrite Hdel. by destruct us.
Qed.

Lemma omap_withoutUser_id username r :
  (∀ k us, r !! k = Some us → username ∉ us) →
  omap (withoutUser username) r = r.
Proof.
  intros Habs. apply map_eq. intros k. rewrite omap_withoutUser_lookup.
  destruct (r !! k) as [us|] eqn:Hk; [|done]. simpl.
  apply withoutUser_absent. by eapply Habs.
Qed.

Lemma addReaction_again reaction username r :
  reactionsOk r → arraysNonEmpty r →
  addReaction reaction username (addReaction reaction username r).2
  = addReaction reaction username r.
Proof.
  intros Hok Hne.
  set (r0 := omap (withoutUser username) r).
  assert (Habs : ∀ k us, r0 !! k = Some us → username ∉ us)
    by (intros k us; by apply omap_withoutUser_absent).
  assert (Hne0 : ∀ k us, r0 !! k = Some us → us ≠ []).
  { intros k us Hk. subst r0. rewrite omap_withoutUser_lookup in Hk.
    destruct (r !! k) as [vs|] eqn:Hr; [|done]. simpl in Hk.
    eapply withoutUser_nonempty; [|done]. by eapply Hne. }
  unfold addReaction at 2 3. fold r0.
  destruct (r0 !! reaction) as [us|] eqn:Hr.
  - rewrite bool_decide_eq_false_2 by (by eapply Habs). cbn [snd].
    unfold addReaction.
    assert (Homap : omap (withoutUser username) (<[reaction := us ++ [username]]> r0)
                    = r0).
    { apply map_eq. intros k. rewrite omap_withoutUser_lookup.
      destruct (decide (k = reaction)) as [->|Hk].
      - rewrite lookup_insert_eq. simpl.
        rewrite withoutUser_snoc; [done | by eapply Habs | by eapply Hne0].
      - rewrite lookup_insert_ne by done.
        destruct (r0 !! k) as [vs|] eqn:Hv; [|done]. simpl.
        apply withoutUser_absent. by eapply Habs. }
    rewrite Homap, Hr. by rewrite bool_decide_eq_false_2 by (by eapply Habs).
  - destruct (inheritedKey reaction) eqn:Hinh; cbn [snd]; unfold addReaction.
    + rewrite (omap_withoutUser_id username r0 Habs). by rewrite Hr, Hinh.
    + assert (Homap : omap (withoutUser username) (<[reaction := [username]]> r0)
                      = r0).
      { apply map_eq. intros k. rewrite omap_withoutUser_lookup.
        destruct (decide (k = reaction)) as [->|Hk].
        - rewrite lookup_insert_eq. simpl.
          by rewrite (proj2 (withoutUser_None username [username]) eq_refl).
        - rewrite lookup_insert_ne by done.
          destruct (r0 !! k) as [vs|] eqn:Hv; [|done]. simpl.
          apply withoutUser_absent. by eapply Habs. }
      by rewrite Homap, Hr, Hinh.
Qed.

Lemma NoDup_map_inj {A B} (f : A → B) (l : list A) x y :
  NoDup (List.map f l) → x ∈ l → y ∈ l → f x = f y → x = y.
Proof.
  induction l as [|z l IH]; [by intros _ ?%elem_of_nil|].
  cbn [List.map]. intros [Hz Hnd]%NoDup_cons Hx Hy Hf.
  assert (Hin : ∀ w, w ∈ l → f w ∈ List.map f l).
  { intros w Hw. apply list_elem_of_In, in_map. by apply list_elem_of_In. }
  apply elem_of_cons in Hx as [->|Hx]; apply elem_of_cons in Hy as [->|Hy].
  - done.
  - exfalso. apply Hz. rewrite Hf. by apply Hin.
  - exfalso. apply Hz. rewrite <- Hf. by apply Hin.
  - by apply IH.
Qed.

End AddTwice.

(** X13. Adding a reaction is idempotent on the states the server keeps
    (one reaction per user, no name twice in an array, no empty array):
    after an [add], the same [add] again returns the same outcome and
    leaves the reactions exactly as the first one left them. *)
Theorem addReaction_idempotent (reaction username : str) (r : Reactions) :
  reactionsOk r →
  arraysNonEmpty r →
  let once := addReaction reaction username r in
  addReaction reaction username once.2 = once.
Proof.
  intros Hok Hne once. subst once.
  rewrite addReaction_again by done. by destruct (addReaction reaction username r).
Qed.

Lemma addReaction_idempotent_witness :
  addReaction thumbsUp (lit "bob") (addReaction thumbsUp (lit "bob") ∅).2
  = (Returned true, {[thumbsUp := [lit "bob"]]}).
Proof.
  pose proof (addReaction_idempotent thumbsUp (lit "bob") ∅ reactionsOk_empty)
    as Hagain.
  etrans; [apply Hagain|reflexivity].
  intros k us Hk. by rewrite lookup_empty in Hk.
Defined.

(** X14. With ids that are pairwise different, TTL pruning removes exactly
    the messages older than 24h: what stays is the rest of the history in
    its order, none of it older than 24h; no id in the deletion notice
    belongs to a message that stays; and pruning again at the same time
    removes nothing and emits nothing. *)
Theorem pruneExpiredMessages_exact (now : Z) (st : State) :
  NoDup (List.map m_id (recentMessages st)) →
  let result := pruneExpiredMessages now st in
  recentMessages result.1
  = List.filter (λ m, negb (expired now m)) (recentMessages st)
  ∧ Forall (λ m, expired now m = false) (recentMessages result.1)
  ∧ (∀ d ids m,
       (d, MessageDeleted ids) ∈ result.2 →
       m ∈ recentMessages result.1 → m_id m ∉ ids)
  ∧ pruneExpiredMessages now result.1 = (result.1, []).
Proof.
  intros Hnd result.
  assert (Hkept : recentMessages result.1
                  = List.filter (λ m, negb (expired now m)) (recentMessages st))
    by (by apply pruneExpiredMessages_unique).
  assert (Hfresh : Forall (λ m, expired now m = false) (recentMessages result.1)).
  { rewrite Hkept. apply Forall_forall. intros m Hm.
    apply list_elem_of_In, filter_In in Hm as [_ Hm]. by destruct (expired now m). }
  split; [done|]. split; [done|]. split.
  - intros d ids m Hin Hm Hid. subst result.
    rewrite pruneExpiredMessages_eq in Hin. cbn [snd] in Hin.
    apply ttlBatch_elem in Hin as (_ & -> & _).
    unfold expiredIds in Hid.
    apply list_elem_of_In, in_map_iff in Hid as (x & Hx & Hxin).
    apply filter_In in Hxin as [Hxin Hxexp].
    rewrite Hkept in Hm. apply list_elem_of_In, filter_In in Hm as [Hmin Hmfresh].
    assert (x = m) as ->.
    { eapply (NoDup_map_inj m_id); eauto; by apply list_elem_of_In. }
    by rewrite Hxexp in Hmfresh.
  - by apply pruneExpiredMessages_none.
Qed.

Lemma pruneExpiredMessages_exact_witness :
  (pruneExpiredMessages 100000000 agedState).2
  = [(ToAll, MessageDeleted [lit "m1"])]
  ∧ recentMessages (pruneExpiredMessages 100000000 agedState).1 = [freshMessage]
  ∧ pruneExpiredMessages 100000000 (pruneExpiredMessages 100000000 agedState).1
    = ((pruneExpiredMessages 100000000 agedState).1, []).
Proof.
  destruct (pruneExpiredMessages_exact 100000000 agedState)
    as (Hkept & _ & _ & Hagain).
  - apply (bool_decide_unpack _). vm_compute. exact I.
  - split; [reflexivity|]. split; [rewrite Hkept; reflexivity | exact Hagain].
Defined.

(** ** Accounts *)

Section Accounts.

Variable hashPassword : str → str.

Implicit Types (st : State) (e : Event) (socket : SocketId)
  (username password avatar : str).

Lemma JsMap_get_set {V} k (v : V) (m : list (str * V)) :
  JsMap.get k (JsMap.set k v m) = Some v.
Proof.
  induction m as [|[k' v'] m IH]; cbn [JsMap.set JsMap.get].
  - by rewrite bool_decide_eq_true_2.
  - case_bool_decide as Hk; cbn [JsMap.get].
    + by rewrite bool_decide_eq_true_2.
    + by rewrite bool_decide_eq_false_2.
Qed.

Lemma JsMap_elem_get {V} k (v : V) (m : list (str * V)) :
  NoDup (List.map fst m) → (k, v) ∈ m → JsMap.get k m = Some v.
Proof.
  induction m as [|[k' v'] m IH]; [by intros _ ?%elem_of_nil|].
  cbn [List.map fst JsMap.get]. intros [Hk' Hnd]%NoDup_cons Hin.
  apply elem_of_cons in Hin as [[= <- <-]|Hin].
  - by rewrite bool_decide_eq_true_2.
  - case_bool_decide as Hk; [|by apply IH]. subst k'.
    exfalso. apply Hk'. apply list_elem_of_In, in_map_iff.
    exists (k, v). split; [done | by apply list_elem_of_In].
Qed.

(** What [register] does to the table of accounts: nothing, or one new
    name. *)
Lemma on_register_accounts socket username password avatar st :
  let result := on_register hashPassword socket username password avatar st in
  connectedUsers result.1 = connectedUsers st
  ∧ (registeredUsers result.1 = registeredUsers st
     ∨ ∃ name acct,
         registeredUsers st !! name = None
         ∧ registeredUsers result.1 = <[name := acct]> (registeredUsers st)).
Proof.
  unfold on_register. repeat case_match; cbn [fst]; try (split; [done|by left]).
  all: split; [done|]; right; do 2 eexists; split; [eassumption|reflexivity].
Qed.

(** No other handler writes the table of accounts. *)
Lemma frame_registeredUsers socket st :
  (∀ message replyTo rateNow newId stamp fallbackId pruneNow,
     registeredUsers (on_chat_message socket message replyTo rateNow newId stamp
                        fallbackId pruneNow st).1
     = registeredUsers st)
  ∧ (∀ messageId reaction username action,
       registeredUsers (on_message_reaction messageId reaction username action st).1
       = registeredUsers st)
  ∧ registeredUsers (on_typing socket st).1 = registeredUsers st
  ∧ registeredUsers (on_stop_typing socket st).1 = registeredUsers st
  ∧ (∀ target, registeredUsers (on_invite socket target st).1 = registeredUsers st)
  ∧ (∀ from, registeredUsers (on_accept socket from st).1 = registeredUsers st)
  ∧ (∀ chatId message to idNow stamp,
       registeredUsers (on_private_message socket chatId message to idNow stamp st).1
       = registeredUsers st)
  ∧ registeredUsers (on_disconnect socket st).1 = registeredUsers st
  ∧ (∀ now, registeredUsers (pruneExpiredMessages now st).1 = registeredUsers st)
  ∧ (∀ username password pruneNow now,
       registeredUsers
         (on_login hashPassword socket username password pruneNow now st).1
       = registeredUsers st).
Proof.
  repeat split; intros;
    unfold on_login, sendRecentMessages, on_chat_message,
      on_message_reaction, on_typing, on_stop_typing, on_invite, on_accept,
      on_private_message, on_disconnect;
    repeat case_match;
    repeat match goal with
      | H : addMessageToHistory _ _ _ _ = _ |- _ =>
          rewrite addMessageToHistory_eq in H
      | H : pruneExpiredMessages _ _ = _ |- _ =>
          rewrite pruneExpiredMessages_eq in H
      end;
    simplify_eq/=; try done.
  by rewrite pruneExpiredMessages_eq.
Qed.

Lemma step_registered_kept e st name acct :
  registeredUsers st !! name = Some acct →
  registeredUsers (step hashPassword e st).1 !! name = Some acct.
Proof.
  intros Hreg.
  assert (Hr := λ socket, frame_registeredUsers socket st).
  destruct e; cbn [step]; unfold live; try case_bool_decide; try done;
    try (destruct (Hr socket)
           as (Hr1 & Hr2 & Hr3 & Hr4 & Hr5 & Hr6 & Hr7 & Hr8 & Hr9 & Hr10));
    try (by rewrite ?Hr1, ?Hr2, ?Hr3, ?Hr4, ?Hr5, ?Hr6, ?Hr7, ?Hr10).
  - (* disconnect *)
    destruct (frame_registeredUsers socket
                (set_sockets (sockets st ∖ {[socket]}) st))
      as (_ & _ & _ & _ & _ & _ & _ & -> & _). done.
  - (* register *)
    destruct (on_register_accounts socket username password avatar st)
      as [_ [->|(name' & acct' & Hnew & ->)]]; [done|].
    rewrite lookup_insert_ne; [done|]. intros ->. by rewrite Hreg in Hnew.
  - (* prune timer *)
    by rewrite (proj1 (proj2 (proj2 (proj2 (proj2 (proj2 (proj2 (proj2
         (proj2 (frame_registeredUsers [] st)))))))))).
Qed.

(** A login that writes the presence table writes the name and the avatar
    of a registered account whose password hash matches. *)
Lemma on_login_accounts socket username password (pruneNow now : Z) st :
  let result := on_login hashPassword socket username password pruneNow now st in
  connectedUsers result.1 = connectedUsers st
  ∨ ∃ acct,
      registeredUsers st !! username = Some acct
      ∧ passwordHash acct = hashPassword password
      ∧ connectedUsers result.1
        = JsMap.set socket (mkUser username (r_avatar acct) socket)
            (connectedUsers st).
Proof.
  unfold on_login. repeat case_match; cbn [fst]; try (by left).
  all: match goal with
       | H : sendRecentMessages _ _ _ _ = _ |- _ =>
           rewrite sendRecentMessages_eq, pruneExpiredMessages_eq in H;
           injection H as <- <-
       end.
  all: right; eexists; split; [done|]; split; [|done].
  all: match goal with
       | H : negb (bool_decide _) = false |- _ =>
           apply negb_false_iff, bool_decide_eq_true in H; exact H
       end.
Qed.

Lemma step_session_origin e st k u :
  (k, u) ∈ connectedUsers (step hashPassword e st).1 →
  (k, u) ∈ connectedUsers st
  ∨ ∃ acct, registeredUsers st !! u_username u = Some acct
            ∧ u_avatar u = r_avatar acct.
Proof.
  assert (Hc := λ socket, frame_connectedUsers hashPassword socket st).
  destruct e; cbn [step]; unfold live; try case_bool_decide; try (by left);
    try (destruct (Hc socket)
           as (Hc1 & Hc2 & Hc3 & Hc4 & Hc5 & Hc6 & Hc7 & Hc8 & Hc9));
    try (rewrite ?Hc1, ?Hc2, ?Hc3, ?Hc4, ?Hc5, ?Hc6, ?Hc7, ?Hc8; by left).
  - (* disconnect *)
    unfold on_disconnect. cbn [connectedUsers set_sockets].
    destruct (JsMap.get socket (connectedUsers st)); cbn [fst]; [|by left].
    cbn [connectedUsers set_typingUsers set_connectedUsers set_sockets].
    intros Hin. left. eapply elem_of_sublist; [done|apply JsMap_delete_sublist].
  - (* login *)
    destruct (on_login_accounts socket username password pruneNow now st)
      as [->|(acct & Hreg & _ & ->)]; [by left|].
    intros [[= -> ->]|Hin]%JsMap_set_elem; [|by left].
    right. by exists acct.
  - (* prune timer *)
    rewrite (proj2 (proj2 (proj2 (proj2 (proj2 (proj2 (proj2 (proj2
      (frame_connectedUsers hashPassword [] st))))))))). by left.
Qed.

Lemma step_accountsOk e st : accountsOk st → accountsOk (step hashPassword e st).1.
Proof.
  intros Hok k u Hin.
  destruct (step_session_origin e st k u Hin) as [Hold|(acct & Hreg & Hav)].
  - destruct (Hok k u Hold) as (acct & Hreg & Hav).
    exists acct. split; [by apply step_registered_kept | done].
  - exists acct. split; [by apply step_registered_kept | done].
Qed.

End Accounts.

(** X15. An account is never lost or changed: whatever events follow, a
    registered name keeps its password hash and its avatar. In particular
    a later [register] for the same name cannot take the account over. *)
Theorem accounts_never_overwritten (hashPassword : str → str) (es : list Event)
    (st : State) (name : str) (acct : RegUser) :
  registeredUsers st !! name = Some acct →
  registeredUsers (run hashPassword es st).1 !! name = Some acct.
Proof.
  apply (run_invariant hashPassword
           (λ st, registeredUsers st !! name = Some acct)).
  intros e st'. apply step_registered_kept.
Qed.

Lemma accounts_never_overwritten_witness :
  registeredUsers
    (run sampleHash
       [ Connect (lit "s9");
         Register (lit "s9") (lit "alice") (lit "hijack") (lit "x") ]
       (init sampleAccounts)).1 !! lit "alice"
  = Some (mkRegUser (sampleHash (lit "secret")) None).
Proof.
  apply (accounts_never_overwritten sampleHash _ (init sampleAccounts)).
  reflexivity.
Defined.

(** X16. In every state the server reaches, every session belongs to a
    registered account and carries that account's avatar: nobody is
    online under a name that is not registered. *)
Theorem sessions_belong_to_accounts (hashPassword : str → str)
    (users : gmap str RegUser) (es : list Event) :
  accountsOk (run hashPassword es (init users)).1.
Proof.
  apply (run_invariant hashPassword accountsOk (step_accountsOk hashPassword)).
  by intros k u ?%elem_of_nil.
Qed.

(** ** Logging in *)

Section Login.

Variable hashPassword : str → str.

Implicit Types (st : State) (socket : SocketId) (username password : str).

Lemma ttlBatch_shape now h (e : Emit) :
  e ∈ ttlBatch now h → ∃ ids, e = (ToAll, MessageDeleted ids).
Proof.
  unfold ttlBatch. destruct (List.map m_id _); [by intros ?%elem_of_nil|].
  intros ->%list_elem_of_singleton. eauto.
Qed.

(** The events of a login whose credentials match. *)
Lemma on_login_accepts socket username password (pruneNow now : Z) st acct :
  username ≠ [] →
  password ≠ [] →
  registeredUsers st !! username = Some acct →
  passwordHash acct = hashPassword password →
  let st1 :=
    set_connectedUsers
      (JsMap.set socket (mkUser username (r_avatar acct) socket)
         (connectedUsers st)) st in
  on_login hashPassword socket username password pruneNow now st
  = ((pruneExpiredMessages pruneNow st1).1,
     match findUserByName username (connectedUsers st) with
     | Some _ => [(ToSocket socket, LoginError (lit "User already logged in"))]
     | None => []
     end
     ++ ([ (ToSocket socket, LoginSuccess username (r_avatar acct));
           (ToAll, UserJoined username (r_avatar acct)) ]
         ++ broadcastUserCount st1)
     ++ ttlBatch pruneNow (recentMessages st)
     ++ [(ToSocket socket,
          RecentMessages
            (List.filter (within24h now)
               (recentMessages (pruneExpiredMessages pruneNow st1).1)))]).
Proof.
  intros Hu Hp Hreg Hhash st1. unfold on_login.
  destruct username as [|c username]; [done|].
  destruct password as [|c' password]; [done|]. cbn [truthy negb orb].
  rewrite Hreg, Hhash, bool_decide_eq_true_2 by done. cbn [negb].
  fold st1. by rewrite sendRecentMessages_eq.
Qed.

(** A login whose credentials do not match. *)
Lemma on_login_refuses socket username password (pruneNow now : Z) st :
  (∀ acct, registeredUsers st !! username = Some acct →
           passwordHash acct = hashPassword password →
           username = [] ∨ password = []) →
  ∃ text,
    on_login hashPassword socket username password pruneNow now st
    = (st, [(ToSocket socket, LoginError text)]).
Proof.
  intros Hbad. unfold on_login.
  destruct (negb (truthy username) || negb (truthy password)) eqn:Hempty;
    [eauto|].
  destruct (registeredUsers st !! username) as [acct|] eqn:Hreg; [|eauto].
  case_bool_decide as Hhash; cbn [negb]; [|eauto].
  destruct (Hbad acct eq_refl Hhash) as [->| ->]; cbn in Hempty;
    [done | by rewrite orb_true_r in Hempty].
Qed.

End Login.

(** X17. A [login] emits [login_success] exactly when the name and the
    password are not empty and the name is registered with the hash of
    that password; the event then goes to the calling socket with the
    name and the avatar of the account. In every other case the state is
    left as it was and the caller receives one [login_error] and nothing
    else. *)
Theorem login_success_iff_credentials (hashPassword : str → str)
    (socket : SocketId) (username password : str) (pruneNow now : Z)
    (st : State) :
  let result := on_login hashPassword socket username password pruneNow now st in
  let matching acct :=
    username ≠ [] ∧ password ≠ []
    ∧ registeredUsers st !! username = Some acct
    ∧ passwordHash acct = hashPassword password in
  (∀ d u av,
     (d, LoginSuccess u av) ∈ result.2
     ↔ d = ToSocket socket ∧ u = username
       ∧ ∃ acct, matching acct ∧ av = r_avatar acct)
  ∧ ((∃ acct, matching acct)
     ∨ ∃ text, result = (st, [(ToSocket socket, LoginError text)])).
Proof.
  intros result matching.
  assert (Hcases : (∃ acct, matching acct)
            ∨ ∃ text, result = (st, [(ToSocket socket, LoginError text)])).
  { destruct (registeredUsers st !! username) as [acct|] eqn:Hreg.
    - destruct (decide (passwordHash acct = hashPassword password)) as [Hh|Hh];
        [|right; apply on_login_refuses; intros acct' Hr Hh'; congruence].
      destruct (decide (username = [])) as [Hu|Hu];
        [right; apply on_login_refuses; by left|].
      destruct (decide (password = [])) as [Hp|Hp];
        [right; apply on_login_refuses; by right|].
      left. by exists acct.
    - right. apply on_login_refuses. intros acct' Hr. congruence. }
  split; [|done]. intros d u av. split.
  - intros Hin. destruct Hcases as [(acct & Hu & Hp & Hreg & Hh)|[text Heq]].
    + subst result. rewrite (on_login_accepts _ _ _ _ _ _ _ acct) in Hin by done.
      cbn [snd] in Hin.
      apply elem_of_app in Hin as [Hin|Hin].
      { destruct (findUserByName _ _); [|by apply elem_of_nil in Hin].
        by apply list_elem_of_singleton in Hin. }
      apply elem_of_app in Hin as [Hin|Hin].
      { apply elem_of_cons in Hin as [[= -> -> ->]|Hin].
        - split; [done|]. split; [done|]. by exists acct.
        - exfalso. unfold broadcastUserCount in Hin.
          repeat (apply elem_of_cons in Hin as [Hin|Hin]; [done|]).
          by apply elem_of_nil in Hin. }
      apply elem_of_app in Hin as [Hin|Hin].
      { by apply ttlBatch_shape in Hin as [ids Hin]. }
      by apply list_elem_of_singleton in Hin.
    + rewrite Heq in Hin. by apply list_elem_of_singleton in Hin.
  - intros (-> & -> & acct & (Hu & Hp & Hreg & Hh) & ->).
    subst result. rewrite (on_login_accepts _ _ _ _ _ _ _ acct) by done.
    cbn [snd]. apply elem_of_app. right. apply elem_of_app. left.
    apply elem_of_cons. by left.
Qed.

(** ** Registering *)

Section Register.

Variable hashPassword : str → str.

Implicit Types (st : State) (socket : SocketId) (username password avatar : str).

(** A registration that passes every check: the account is stored under
    the first 20 characters of the name. *)
Lemma on_register_accepts socket username password avatar st :
  usernameRegex username = true →
  (3 ≤ length username)%nat →
  password ≠ [] →
  registeredUsers st !! take 20 username = None →
  on_register hashPassword socket username password avatar st
  = (set_registeredUsers
       (<[take 20 username :=
            mkRegUser (hashPassword password)
              (Some (if truthy avatar then avatar else defaultAvatar))]>
          (registeredUsers st)) st,
     [(ToSocket socket,
       RegisterSuccess (lit "Account created! Please log in."))]).
Proof.
  intros Hword Hlen Hp Hfree. unfold on_register.
  rewrite (sanitizeUsername_word _ Hword), Hword, Hfree.
  apply andb_true_iff in Hword as [-> _].
  destruct password as [|c password]; [done|]. cbn [truthy negb orb].
  rewrite length_take.
  destruct (Nat.ltb_spec (20 `min` length username) 3) as [Hlt|_]; [lia|done].
Qed.

End Register.

(** X18. Registering and then logging in. A [register] with a name of at
    least three letters, digits and underscores that is free, and a
    password that is not empty, reports success and stores the account
    under the first 20 characters of the name, with the hash of the
    password and the avatar sent (the default one when none is sent). A
    [login] with that stored name and the same password, from any socket,
    then succeeds: the socket receives [login_success] and holds a session
    under the name, and it receives a [login_error] only if the name was
    already online. *)
Theorem register_then_login (hashPassword : str → str)
    (socket socket' : SocketId) (username password avatar : str)
    (pruneNow now : Z) (st : State) :
  usernameRegex username = true →
  (3 ≤ length username)%nat →
  password ≠ [] →
  registeredUsers st !! take 20 username = None →
  let name := take 20 username in
  let shown := Some (if truthy avatar then avatar else defaultAvatar) in
  let registered :=
    on_register hashPassword socket username password avatar st in
  let logged :=
    on_login hashPassword socket' name password pruneNow now registered.1 in
  registered.2
  = [(ToSocket socket, RegisterSuccess (lit "Account created! Please log in."))]
  ∧ registeredUsers registered.1 !! name
    = Some (mkRegUser (hashPassword password) shown)
  ∧ (ToSocket socket', LoginSuccess name shown) ∈ logged.2
  ∧ JsMap.get socket' (connectedUsers logged.1)
    = Some (mkUser name shown socket')
  ∧ (∀ d text, (d, LoginError text) ∈ logged.2 → name ∈ onlineNames st).
Proof.
  intros Hword Hlen Hp Hfree name shown registered logged.
  assert (Hname : name ≠ []).
  { intros Hnil. apply (f_equal length) in Hnil. subst name.
    rewrite length_take in Hnil. cbn [length] in Hnil. lia. }
  subst registered logged.
  rewrite on_register_accepts by done. cbn [fst snd]. fold name shown.
  set (st1 := set_registeredUsers _ st).
  assert (Hreg : registeredUsers st1 !! name
                 = Some (mkRegUser (hashPassword password) shown))
    by (subst st1; cbn [registeredUsers set_registeredUsers];
        apply lookup_insert_eq).
  rewrite (on_login_accepts hashPassword socket' name password pruneNow now st1
             (mkRegUser (hashPassword password) shown)) by done.
  cbn [fst snd r_avatar].
  split; [done|]. split; [done|]. split; [|split].
  - apply elem_of_app. right. apply elem_of_app. left. apply elem_of_cons.
    by left.
  - rewrite pruneExpiredMessages_eq. cbn [fst connectedUsers set_recentMessages
      set_connectedUsers]. apply JsMap_get_set.
  - intros d text Hin.
    apply elem_of_app in Hin as [Hin|Hin].
    { destruct (findUserByName name (connectedUsers st1)) as [other|] eqn:Hfind;
        [|by apply elem_of_nil in Hin].
      apply findUserByName_elem in Hfind as [Hother <-].
      unfold onlineNames. apply list_elem_of_In, in_map.
      by apply list_elem_of_In. }
    exfalso. apply elem_of_app in Hin as [Hin|Hin].
    { unfold broadcastUserCount in Hin.
      repeat (apply elem_of_cons in Hin as [Hin|Hin]; [done|]).
      by apply elem_of_nil in Hin. }
    apply elem_of_app in Hin as [Hin|Hin].
    { by apply ttlBatch_shape in Hin as [ids Hin]. }
    by apply list_elem_of_singleton in Hin.
Qed.

Lemma register_then_login_witness :
  let registered :=
    on_register sampleHash (lit "s1") (lit "dave_01") (lit "pw") []
      (init sampleAccounts) in
  (ToSocket (lit "s2"), LoginSuccess (lit "dave_01") (Some defaultAvatar))
  ∈ (on_login sampleHash (lit "s2") (lit "dave_01") (lit "pw") 0 0
       registered.1).2.
Proof.
  refine (proj1 (proj2 (proj2
    (register_then_login sampleHash (lit "s1") (lit "s2") (lit "dave_01")
       (lit "pw") [] 0 0 (init sampleAccounts) _ _ _ _)))).
  - reflexivity.
  - vm_compute. lia.
  - discriminate.
  - reflexivity.
Defined.

(** X19. A name of more than 20 letters, digits and underscores is not
    refused: [register] reports success and stores the account under the
    first 20 characters. The name as it was typed is then not registered,
    and a [login] with it and the same password is answered with
    [Invalid username or password] and changes nothing. *)
Theorem long_name_registered_truncated (hashPassword : str → str)
    (socket socket' : SocketId) (username password avatar : str)
    (pruneNow now : Z) (st : State) :
  usernameRegex username = true →
  (20 < length username)%nat →
  password ≠ [] →
  registeredUsers st !! take 20 username = None →
  registeredUsers st !! username = None →
  let registered :=
    on_register hashPassword socket username password avatar st in
  registered.2
  = [(ToSocket socket, RegisterSuccess (lit "Account created! Please log in."))]
  ∧ is_Some (registeredUsers registered.1 !! take 20 username)
  ∧ registeredUsers registered.1 !! username = None
  ∧ on_login hashPassword socket' username password pruneNow now registered.1
    = (registered.1,
       [(ToSocket socket', LoginError (lit "Invalid username or password"))]).
Proof.
  intros Hword Hlen Hp Hfree Htyped registered. subst registered.
  rewrite on_register_accepts by (done || lia). cbn [fst snd].
  assert (Hne : take 20 username ≠ username).
  { intros Heq. apply (f_equal length) in Heq. rewrite length_take in Heq. lia. }
  assert (Hnone : <[take 20 username :=
                      mkRegUser (hashPassword password)
                        (Some (if truthy avatar then avatar else defaultAvatar))]>
                    (registeredUsers st) !! username = None)
    by (by rewrite lookup_insert_ne).
  split; [done|]. split; [|split; [done|]].
  - cbn [registeredUsers set_registeredUsers]. rewrite lookup_insert_eq. eauto.
  - unfold on_login. cbn [registeredUsers set_registeredUsers]. rewrite Hnone.
    apply andb_true_iff in Hword as [-> _].
    destruct password as [|c password]; [done|]. reflexivity.
Qed.

Lemma long_name_registered_truncated_witness :
  let typed := lit "a_very_long_user_name_2024" in
  let registered :=
    on_register sampleHash (lit "s1") typed (lit "pw") [] (init sampleAccounts) in
  is_Some (registeredUsers registered.1 !! lit "a_very_long_user_nam")
  ∧ on_login sampleHash (lit "s1") typed (lit "pw") 0 0 registered.1
    = (registered.1,
       [(ToSocket (lit "s1"), LoginError (lit "Invalid username or password"))]).
Proof.
  destruct (long_name_registered_truncated sampleHash (lit "s1") (lit "s1")
              (lit "a_very_long_user_name_2024") (lit "pw") [] 0 0
              (init sampleAccounts))
    as (_ & Hstored & _ & Hlogin).
  - reflexivity.
  - vm_compute. lia.
  - discriminate.
  - reflexivity.
  - reflexivity.
  - split; [exact Hstored | exact Hlogin].
Defined.

(** ** Invitations *)

(** X20. In a state with a well-formed presence table, an invitation from
    a logged-in socket to a name that is not empty, not the inviter's own
    and held by some session is always delivered: the first session with
    that name receives [private chat invite] with the inviter's name, the
    inviter receives [private chat invite sent], and nothing else is
    emitted. The receiving socket is live and is not the inviter's, and
    the state is unchanged: an invitation is not stored anywhere. *)
Theorem invite_delivered_to_other_session (socket : SocketId)
    (targetUsername : str) (st : State) (me peer : UserData) :
  sessionsOk st →
  JsMap.get socket (connectedUsers st) = Some me →
  targetUsername ≠ [] →
  targetUsername ≠ u_username me →
  findUserByName targetUsername (connectedUsers st) = Some peer →
  on_invite socket targetUsername st
  = (st, [ (ToSocket (u_socketId peer), PrivateChatInvite (u_username me));
           (ToSocket socket, PrivateChatInviteSent targetUsername) ])
  ∧ u_socketId peer ≠ socket
  ∧ u_socketId peer ∈ sockets st
  ∧ JsMap.get (u_socketId peer) (connectedUsers st) = Some peer.
Proof.
  intros [Hnd Hall] Hget Hne Hself Hfind.
  pose proof (findUserByName_elem _ _ _ Hfind) as [Hin Hname].
  unfold JsMap.values in Hin.
  apply list_elem_of_In, in_map_iff in Hin as ([k peer'] & Heq & Hin).
  cbn [snd] in Heq. subst peer'. apply list_elem_of_In in Hin.
  destruct (Hall k peer Hin) as [Hk Hlive].
  pose proof (JsMap_elem_get k peer _ Hnd Hin) as Hpeer.
  rewrite Hk. split; [|split; [|done]].
  - unfold on_invite. rewrite Hget, Hfind.
    destruct targetUsername as [|c t]; [done|]. cbn [truthy negb orb].
    rewrite bool_decide_eq_false_2 by done.
    rewrite Hk. by rewrite bool_decide_eq_true_2.
  - intros ->. rewrite Hget in Hpeer. injection Hpeer as ->. by apply Hself.
Qed.

Lemma invite_delivered_to_other_session_witness :
  on_invite (lit "s1") (lit "bob") forgedState
  = (forgedState,
     [ (ToSocket (lit "s2"), PrivateChatInvite (lit "alice"));
       (ToSocket (lit "s1"), PrivateChatInviteSent (lit "bob")) ]).
Proof.
  apply (invite_delivered_to_other_session (lit "s1") (lit "bob") forgedState
           alice bob).
  - apply (reachable_sessionsOk sampleHash sampleAccounts), forgedState_reachable.
  - reflexivity.
  - discriminate.
  - discriminate.
  - reflexivity.
Defined.

(** ** Posting without a session *)

(** X21. The [chat message] handler does not require a login. A message
    from a socket that holds no session, admitted by the rate limiter and
    not empty after trimming, is broadcast to everybody like any other,
    under the sender name [Unknown] and the default avatar, with its
    reactions empty. *)
Theorem chat_message_without_session (socket : SocketId)
    (message replyTo : option str) (rateNow : Z) (newId : str) (stamp : Z)
    (fallbackId : str) (pruneNow : Z) (st : State) :
  JsMap.get socket (connectedUsers st) = None →
  (checkRateLimit rateNow socket (messageLimits st)).1 = true →
  sanitizeMessage message ≠ [] →
  let result :=
    on_chat_message socket message replyTo rateNow newId stamp fallbackId
      pruneNow st in
  ∃ m, last result.2 = Some (ToAll, ChatMessage m)
       ∧ m_username m = lit "Unknown"
       ∧ m_avatar m = Some defaultAvatar
       ∧ m_message m = sanitizeMessage message
       ∧ m_reactions m = ∅.
Proof.
  intros Hget Hok Hbody result. subst result. unfold on_chat_message.
  destruct (checkRateLimit rateNow socket (messageLimits st)) as [ok limits].
  cbn [fst] in Hok. subst ok. cbn [negb connectedUsers set_messageLimits].
  rewrite Hget.
  destruct (sanitizeMessage message) as [|c body] eqn:Hs; [done|].
  cbn [truthy negb].
  set (st1 := set_messageLimits limits st).
  set (messageData := mkMessage newId _ _ _ stamp ∅ _).
  pose proof (addMessageToHistory_eq pruneNow fallbackId messageData st1) as Heq.
  destruct (addMessageToHistory pruneNow fallbackId messageData st1)
    as [[m st2] evs].
  cbn zeta in Heq. injection Heq as -> -> ->.
  exists (completed fallbackId messageData). cbn [snd].
  split; [by rewrite last_snoc|].
  unfold completed. by destruct (truthy (m_id messageData)).
Qed.

Lemma chat_message_without_session_witness :
  ∃ m, last (on_chat_message (lit "s1") (Some (lit "hi")) None 0 (lit "1") 0
               (lit "spare") 0 (init sampleAccounts)).2
       = Some (ToAll, ChatMessage m)
       ∧ m_username m = lit "Unknown".
Proof.
  destruct (chat_message_without_session (lit "s1") (Some (lit "hi")) None 0
              (lit "1") 0 (lit "spare") 0 (init sampleAccounts))
    as (m & Hlast & Hname & _).
  - reflexivity.
  - reflexivity.
  - discriminate.
  - exists m. split; [exact Hlast | exact Hname].
Defined.

(** ** Instances of the properties of the private-message and login
    handlers stated above *)

Lemma Legacy_on_private_message_rejects_witness :
  let result :=
    Legacy.on_private_message (lit "s1") (lit "pc_bob_carol")
      (Legacy.Text (lit "hi")) (lit "bob") 0 forgedState in
  result.2 = [(ToSocket (lit "s1"), ErrorEvent (lit "Invalid chat room"))]
  ∧ privateChats result.1 = privateChats forgedState.
Proof.
  destruct (Legacy_on_private_message_rejects (lit "s1") (lit "pc_bob_carol")
              (lit "hi") (lit "bob") 0 forgedState alice)
    as [[_ Hrefused] Hstate]; try reflexivity; try discriminate.
  assert (Hout : (Legacy.on_private_message (lit "s1") (lit "pc_bob_carol")
                    (Legacy.Text (lit "hi")) (lit "bob") 0 forgedState).2
                 = [(ToSocket (lit "s1"), ErrorEvent (lit "Invalid chat room"))]).
  { apply Hrefused. intros chat Hchat. left.
    vm_compute in Hchat. injection Hchat as <-.
    apply (bool_decide_unpack _). vm_compute. exact I. }
  split; [exact Hout|]. by rewrite (Hstate Hout).
Defined.

Lemma on_login_duplicate_session_witness :
  let result :=
    on_login sampleHash (lit "s4") (lit "alice") (lit "secret") 0 0 forgedState in
  (ToSocket (lit "s4"), LoginError (lit "User already logged in")) ∈ result.2
  ∧ (ToSocket (lit "s4"), LoginSuccess (lit "alice") None) ∈ result.2
  ∧ onlineNames result.1 = onlineNames forgedState ++ [lit "alice"]
  ∧ lit "alice" ∈ onlineNames forgedState.
Proof.
  apply (on_login_duplicate_session sampleHash (lit "s4") (lit "alice")
           (lit "secret") 0 0 forgedState
           (mkRegUser (sampleHash (lit "secret")) None) alice);
    reflexivity.
Defined.
